(** * BatchedAgentManager: a shallow embedding of
      [rlgym_ppo/batched_agents/batched_agent_manager.py]

    The manager drives a pool of environment workers: it sends one batch of
    policy actions, polls the workers' pipes in a rotating order until enough
    new observations have arrived, files the decoded transitions into one
    trajectory buffer per worker and finally flattens the buffers.

    Python values are modelled as follows.
    - Every number that travels in a message (a numpy float32) or that is
      computed from one is an element of an abstract scalar type [F] with the
      operations the source applies to it (class [Scalar]).
    - Python [int]s are [Z]; list lengths, worker ids and the cursor are
      [nat] (they are produced by [range], [len] and [+= 1] only).
    - The dictionaries [processes], [ep_rews] and [trajectory_map] are built
      by [init_processes] with the dense keys [0 .. n-1], inserted in that
      order, and are never extended afterwards; they are lists indexed by
      worker id, a failed lookup being Python's [KeyError].
    - An exception aborts the computation ([Raise]); a loop that is still
      polling when the modelled input is exhausted is [Pending]. *)

From Stdlib Require Import ZArith QArith Lia.
From stdpp Require Import base tactics option list.

Local Open Scope Z_scope.

(** ** Exceptions and outcomes *)

Inductive PyExc : Type :=
  | IndexError
  | KeyError
  | ValueError
  | OverflowError.

Inductive Outcome (A : Type) : Type :=
  | Done (a : A)
  | Raise (e : PyExc)
  | Pending.

Arguments Done {A} a.
Arguments Raise {A} e.
Arguments Pending {A}.

Definition bind {A B : Type} (m : Outcome A) (k : A -> Outcome B) : Outcome B :=
  match m with
  | Done a => k a
  | Raise e => Raise e
  | Pending => Pending
  end.

Notation "'do' x <- m ; k" := (bind m (fun x => k))
  (at level 10, x pattern, m at level 100, k at level 200).

Definition returns {A : Type} (m : Outcome A) : Prop := exists a, m = Done a.

Definition raises {A : Type} (m : Outcome A) : Prop := exists e, m = Raise e.

(** ** Python sequences *)

Section PySeq.
Context {A : Type}.

(** [l[i]] for an index [i >= 0]. *)
Definition py_get (l : list A) (i : nat) : Outcome A :=
  match l !! i with
  | Some x => Done x
  | None => Raise IndexError
  end.

(** [d[k]] for a dictionary with dense keys. *)
Definition py_key (d : list A) (k : nat) : Outcome A :=
  match d !! k with
  | Some x => Done x
  | None => Raise KeyError
  end.

(** [l[-1]] *)
Definition py_last (l : list A) : Outcome A :=
  match last l with
  | Some x => Done x
  | None => Raise IndexError
  end.

(** [l[-1] = v]. *)
Definition py_set_last (l : list A) (v : A) : Outcome (list A) :=
  match l with
  | [] => Raise IndexError
  | _ => Done (<[Nat.pred (length l) := v]> l)
  end.

(** Clamping of a slice bound, as [PySlice_AdjustIndices] does it for a
    step of one. *)
Definition py_bound (len : nat) (i : Z) : nat :=
  if i <? 0 then Z.to_nat (Z.max 0 (i + Z.of_nat len))
  else Z.to_nat (Z.min i (Z.of_nat len)).

(** [l[a:b]] *)
Definition py_slice (l : list A) (a b : Z) : list A :=
  let s := py_bound (length l) a in
  let e := py_bound (length l) b in
  take (e - s)%nat (drop s l).

(** [l[a:]] *)
Definition py_slice_from (l : list A) (a : Z) : list A :=
  drop (py_bound (length l) a) l.
End PySeq.

(** ** Scalars

    The operations the manager applies to message elements and to the values
    derived from them.  [f_int] is [int(x)], which raises on a NaN or an
    infinity (modelled as [None]); [f_isinf] tells the infinities, on which
    [int(x)] raises [OverflowError], from the NaNs, on which it raises
    [ValueError]; [f_eqb] is [==]. *)

Class Scalar (F : Type) : Type := {
  f_zero : F;
  f_0_9 : F;
  f_0_1 : F;
  f_add : F -> F -> F;
  f_mul : F -> F -> F;
  f_eqb : F -> F -> bool;
  f_int : F -> option Z;
  f_isinf : F -> bool
}.

Section Scalars.
Context {F : Type} `{Scalar F}.

(** [x == 0] *)
Definition is_zero (x : F) : bool := f_eqb x f_zero.

(** Truth value of a scalar: [bool(x)] is [x != 0]. *)
Definition truthy (x : F) : bool := negb (is_zero x).

(** [int(x)] *)
Definition py_int (x : F) : Outcome Z :=
  match f_int x with
  | Some z => Done z
  | None => if f_isinf x then Raise OverflowError else Raise ValueError
  end.

(** [[int(arg) for arg in xs]] *)
Fixpoint py_ints (xs : list F) : Outcome (list Z) :=
  match xs with
  | [] => Done []
  | x :: xs' =>
      do z <- py_int x;
      do zs <- py_ints xs';
      Done (z :: zs)
  end.
End Scalars.

(** Exact rational arithmetic is one instance; it is the one the examples
    are evaluated with. *)
#[export] Instance Q_Scalar : Scalar Q := {
  f_zero := 0%Q;
  f_0_9 := (9 # 10)%Q;
  f_0_1 := (1 # 10)%Q;
  f_add := fun x y => Qred (x + y);
  f_mul := fun x y => Qred (x * y);
  f_eqb := Qeq_bool;
  f_int := fun x => Some (Z.quot (Qnum x) (Z.pos (Qden x)));
  f_isinf := fun _ => false
}.


(** ** Arrays

    A C-contiguous numpy array: its shape and its elements in row-major
    order. *)

Record NDArray (F : Type) : Type := mkArray {
  nd_shape : list nat;
  nd_data : list F
}.

Arguments mkArray {F} nd_shape nd_data.
Arguments nd_shape {F} n.
Arguments nd_data {F} n.

Section Arrays.
Context {F : Type}.

(** [a.shape[0]] *)
Definition shape0 (a : NDArray F) : Outcome nat := py_get (nd_shape a) 0%nat.

(** Number of elements of one row block, the product of the trailing
    dimensions. *)
Definition stride (a : NDArray F) : nat :=
  foldr Nat.mul 1%nat (tail (nd_shape a)).

Definition same_trailing (a b : NDArray F) : bool :=
  match nd_shape a, nd_shape b with
  | _ :: ta, _ :: tb => bool_decide (ta = tb)
  | _, _ => false
  end.

(** [np.concatenate(arrs, axis=0)]: at least one array is needed, none may be
    zero-dimensional and all trailing dimensions must agree. *)
Definition np_concatenate (arrs : list (NDArray F)) : Outcome (NDArray F) :=
  match arrs with
  | [] => Raise ValueError
  | a :: _ =>
      if forallb (same_trailing a) arrs then
        Done (mkArray
                (foldr Nat.add 0%nat (map (fun b => hd 0%nat (nd_shape b)) arrs)
                   :: tail (nd_shape a))
                (concat (map nd_data arrs)))
      else Raise ValueError
  end.

(** [a[step:stop]] along the first axis, for [0 <= step]. *)
Definition nd_rows (a : NDArray F) (step stop : nat) : NDArray F :=
  let n := hd 0%nat (nd_shape a) in
  let s := Nat.min step n in
  let e := Nat.min stop n in
  mkArray ((e - s)%nat :: tail (nd_shape a))
          (take ((e - s) * stride a)%nat (drop (s * stride a)%nat (nd_data a))).

(** [l[step:stop]] on a batch of rows, for [0 <= step]. *)
Definition rows {A : Type} (l : list A) (step stop : nat) : list A :=
  take (stop - step)%nat (drop step l).
End Arrays.

(** ** The collaborators

    [comm_consts] is not part of the file under study: the header length and
    the env-step-data header are parameters.  So is numpy's [reshape], whose
    result the manager only stores ([None] stands for the [ValueError] of a
    shape that does not fit), and the policy, which maps the inference batch
    to a batch of action rows and a batch of log-probability rows. *)

Class CommConsts (F : Type) : Type := {
  HEADER_LEN : nat;
  ENV_STEP_DATA_HEADER : list F
}.

Class Numpy (F : Type) : Type := {
  np_reshape : list F -> list Z -> option (NDArray F)
}.

Class Policy (F Act Lp : Type) : Type := {
  get_action : NDArray F -> list Act * list Lp
}.

(** ** Trajectory buffers *)

(** The reward written into a buffer is the scalar [rews[0]] for a
    single-agent message and the array [rews] otherwise. *)
Inductive Reward (F : Type) : Type :=
  | RScalar (r : F)
  | RArray (rs : list F).

Arguments RScalar {F} r.
Arguments RArray {F} rs.

Record Timestep (F Act Lp : Type) : Type := mkTimestep {
  ts_state : NDArray F;
  ts_action : list Act;
  ts_log_prob : list Lp;
  ts_reward : Reward F;
  ts_next_state : NDArray F;
  ts_done : F
}.

Arguments mkTimestep {F Act Lp}.
Arguments ts_state {F Act Lp} t.
Arguments ts_action {F Act Lp} t.
Arguments ts_log_prob {F Act Lp} t.
Arguments ts_reward {F Act Lp} t.
Arguments ts_next_state {F Act Lp} t.
Arguments ts_done {F Act Lp} t.

(** The six attributes are the ones the manager assigns; [None] is Python's
    [None]. *)
Record BatchedTrajectory (F Act Lp : Type) : Type := mkTrajectory {
  state : option (NDArray F);
  action : option (list Act);
  log_prob : option (list Lp);
  reward : option (Reward F);
  next_state : option (NDArray F);
  done : option F;
  complete_timesteps : list (Timestep F Act Lp)
}.

Arguments mkTrajectory {F Act Lp}.
Arguments state {F Act Lp} b.
Arguments action {F Act Lp} b.
Arguments log_prob {F Act Lp} b.
Arguments reward {F Act Lp} b.
Arguments next_state {F Act Lp} b.
Arguments done {F Act Lp} b.
Arguments complete_timesteps {F Act Lp} b.

(** One trajectory as [get_all] hands it to the manager: six parallel
    lists. *)
Record Segment (F Act Lp : Type) : Type := mkSegment {
  trajectory_states : list (NDArray F);
  trajectory_actions : list (list Act);
  trajectory_log_probs : list (list Lp);
  trajectory_rewards : list (Reward F);
  trajectory_next_states : list (NDArray F);
  trajectory_dones : list F
}.

Arguments mkSegment {F Act Lp}.
Arguments trajectory_states {F Act Lp} s.
Arguments trajectory_actions {F Act Lp} s.
Arguments trajectory_log_probs {F Act Lp} s.
Arguments trajectory_rewards {F Act Lp} s.
Arguments trajectory_next_states {F Act Lp} s.
Arguments trajectory_dones {F Act Lp} s.

Section Buffers.
Context {F : Type} `{Scalar F} {Act Lp : Type}.

(** [BatchedTrajectory()] *)
Definition new_trajectory : BatchedTrajectory F Act Lp :=
  mkTrajectory None None None None None None [].

(** Modelled from the spec: [BatchedTrajectory.update] is not among the
    sources.  The specification (4.3, [set_inbound] and [try_flush]) has a
    step appended to the buffer once both its halves are written, and the
    buffer reported as finished exactly when the step just appended has a
    true [done]; a buffer with a missing half is left as it is. *)
Definition update (t : BatchedTrajectory F Act Lp)
  : BatchedTrajectory F Act Lp * bool :=
  match state t, action t, log_prob t, reward t, next_state t, done t with
  | Some s, Some a, Some lp, Some r, Some ns, Some d =>
      (mkTrajectory None None None None None None
         (complete_timesteps t ++ [mkTimestep s a lp r ns d]),
       truthy d)
  | _, _, _, _, _, _ => (t, false)
  end.

(** Modelled from the spec: [BatchedTrajectory.get_all] is not among the
    sources.  The specification (4.3, [drain_partial]) detaches whatever has
    accumulated as one segment, and has an empty buffer drain to nothing,
    never to an empty segment. *)
Definition get_all (t : BatchedTrajectory F Act Lp) : list (Segment F Act Lp) :=
  match complete_timesteps t with
  | [] => []
  | steps =>
      [mkSegment (map ts_state steps) (map ts_action steps)
         (map ts_log_prob steps) (map ts_reward steps)
         (map ts_next_state steps) (map ts_done steps)]
  end.
End Buffers.

(** ** The manager and its surroundings *)

(** A registered worker: the process and the two pipe ends are opaque. *)
Inductive WorkerHandle : Type :=
  | Worker (id : nat).

(** What the manager does to the pipes, in the order it does it. *)
Inductive IOEvent (F Act : Type) : Type :=
  | Polled (proc_id : nat) (ready : bool)
  | Received (proc_id : nat) (available_data : list F)
  | Sent (proc_id : nat) (action : list Act).

Arguments Polled {F Act} proc_id ready.
Arguments Received {F Act} proc_id available_data.
Arguments Sent {F Act} proc_id action.

(** The attributes of [self].  [seed] and [prev_time] play no part in
    collection and are left out; the policy is a collaborator. *)
Record Manager (F Act Lp : Type) : Type := mkManager {
  processes : list WorkerHandle;
  current_obs : option (list (NDArray F));
  current_pids : list nat;
  average_reward : option F;
  cumulative_timesteps : Z;
  min_inference_size : Z;
  ep_rews : list (list F);
  trajectory_map : list (BatchedTrajectory F Act Lp);
  completed_trajectories : list (BatchedTrajectory F Act Lp);
  buffer_ptr : nat;
  n_procs : nat
}.

Arguments mkManager {F Act Lp}.
Arguments processes {F Act Lp} m.
Arguments current_obs {F Act Lp} m.
Arguments current_pids {F Act Lp} m.
Arguments average_reward {F Act Lp} m.
Arguments cumulative_timesteps {F Act Lp} m.
Arguments min_inference_size {F Act Lp} m.
Arguments ep_rews {F Act Lp} m.
Arguments trajectory_map {F Act Lp} m.
Arguments completed_trajectories {F Act Lp} m.
Arguments buffer_ptr {F Act Lp} m.
Arguments n_procs {F Act Lp} m.

(** The local variables of [_collect_responses]; [next_obs] and [next_pids]
    are the caller's lists, which the method appends to. *)
Record Locals (F : Type) : Type := mkLocals {
  l_n_collected : Z;
  l_buffer_ptr : nat;
  l_next_obs : list (NDArray F);
  l_next_pids : list nat
}.

Arguments mkLocals {F}.
Arguments l_n_collected {F} l.
Arguments l_buffer_ptr {F} l.
Arguments l_next_obs {F} l.
Arguments l_next_pids {F} l.

(** A decoded env-step-data payload (lines 206-217). *)
Record StepData (F : Type) : Type := mkStepData {
  sd_done : F;
  sd_n_agents : Z;
  sd_state_shape : list Z;
  sd_rews : list F;
  sd_next_observation : NDArray F
}.

Arguments mkStepData {F}.
Arguments sd_done {F} s.
Arguments sd_n_agents {F} s.
Arguments sd_state_shape {F} s.
Arguments sd_rews {F} s.
Arguments sd_next_observation {F} s.

(** The seven lists [collect_timesteps] fills. *)
Record Flat (F Act Lp : Type) : Type := mkFlat {
  states : list (NDArray F);
  actions : list (list Act);
  log_probs : list (list Lp);
  rewards : list (Reward F);
  next_states : list (NDArray F);
  dones : list F;
  truncated : list Z
}.

Arguments mkFlat {F Act Lp}.
Arguments states {F Act Lp} f.
Arguments actions {F Act Lp} f.
Arguments log_probs {F Act Lp} f.
Arguments rewards {F Act Lp} f.
Arguments next_states {F Act Lp} f.
Arguments dones {F Act Lp} f.
Arguments truncated {F Act Lp} f.

(** The variables of the loop of lines 72-84 of [collect_timesteps]: the
    manager, the log of the pipes and their remaining answers, [n_collected],
    and the values [_collect_responses] has returned so far, one per
    iteration. *)
Record Collected (F Act Lp : Type) : Type := mkCollected {
  c_manager : Manager F Act Lp;
  c_log : list (IOEvent F Act);
  c_inbox : list (option (list F));
  c_n_collected : Z;
  c_rounds : list Z
}.

Arguments mkCollected {F Act Lp}.
Arguments c_manager {F Act Lp} c.
Arguments c_log {F Act Lp} c.
Arguments c_inbox {F Act Lp} c.
Arguments c_n_collected {F Act Lp} c.
Arguments c_rounds {F Act Lp} c.

Section ManagerOps.
Context {F : Type} `{Scalar F} `{CommConsts F} `{Numpy F}.
Context {Act Lp : Type} `{Policy F Act Lp}.

Local Abbreviation Mgr := (Manager F Act Lp).
Local Abbreviation Log := (list (IOEvent F Act)).

(** [BatchedAgentManager(policy, min_inference_size)] *)
Definition init (min_inference_size : Z) : Mgr :=
  mkManager [] (Some []) [] None 0 min_inference_size [] [] [] 0%nat 0%nat.

Definition set_current (st : Mgr) (obs : option (list (NDArray F)))
    (pids : list nat) : Mgr :=
  mkManager (processes st) obs pids (average_reward st)
    (cumulative_timesteps st) (min_inference_size st) (ep_rews st)
    (trajectory_map st) (completed_trajectories st) (buffer_ptr st)
    (n_procs st).

Definition set_average_reward (st : Mgr) (avg : option F) : Mgr :=
  mkManager (processes st) (current_obs st) (current_pids st) avg
    (cumulative_timesteps st) (min_inference_size st) (ep_rews st)
    (trajectory_map st) (completed_trajectories st) (buffer_ptr st)
    (n_procs st).

Definition set_cumulative_timesteps (st : Mgr) (n : Z) : Mgr :=
  mkManager (processes st) (current_obs st) (current_pids st)
    (average_reward st) n (min_inference_size st) (ep_rews st)
    (trajectory_map st) (completed_trajectories st) (buffer_ptr st)
    (n_procs st).

Definition set_ep_rews (st : Mgr) (e : list (list F)) : Mgr :=
  mkManager (processes st) (current_obs st) (current_pids st)
    (average_reward st) (cumulative_timesteps st) (min_inference_size st) e
    (trajectory_map st) (completed_trajectories st) (buffer_ptr st)
    (n_procs st).

Definition set_trajectories (st : Mgr)
    (tm completed : list (BatchedTrajectory F Act Lp)) : Mgr :=
  mkManager (processes st) (current_obs st) (current_pids st)
    (average_reward st) (cumulative_timesteps st) (min_inference_size st)
    (ep_rews st) tm completed (buffer_ptr st) (n_procs st).

Definition set_buffer_ptr (st : Mgr) (p : nat) : Mgr :=
  mkManager (processes st) (current_obs st) (current_pids st)
    (average_reward st) (cumulative_timesteps st) (min_inference_size st)
    (ep_rews st) (trajectory_map st) (completed_trajectories st) p
    (n_procs st).

(** *** Decoding (lines 206-217) *)

(** [np.reshape(data, shape)] *)
Definition py_reshape (data : list F) (shape : list Z)
  : Outcome (NDArray F) :=
  match np_reshape data shape with
  | Some a => Done a
  | None => Raise ValueError
  end.

Definition decode_step_data (message : list F) : Outcome (StepData F) :=
  do done <- py_get message 0%nat;
  do m1 <- py_get message 1%nat;
  do n_elements_in_state_shape <- py_int m1;
  do state_shape <-
    py_ints (py_slice message 2 (2 + n_elements_in_state_shape));
  do d0 <- py_get state_shape 0%nat;
  let n_agents := if n_elements_in_state_shape =? 1 then 1 else d0 in
  let state_shape :=
    if n_elements_in_state_shape =? 1 then [1; d0] else state_shape in
  let rew_start := 2 + n_elements_in_state_shape in
  let rews := py_slice message rew_start (rew_start + n_agents) in
  do next_observation <-
    py_reshape (py_slice_from message (rew_start + n_agents)) state_shape;
  Done (mkStepData done n_agents state_shape rews next_observation).

(** *** The episode reward tracker (lines 219-238) *)

(** The loop [for i in range(n_agents)] over the worker's accumulator. *)
Fixpoint add_agent_rewards (idx : list nat) (rews acc : list F)
  : Outcome (list F) :=
  match idx with
  | [] => Done acc
  | i :: idx' =>
      do acc' <-
        (if (length acc <=? i)%nat then
           do r <- py_get rews i; Done (acc ++ [r])
         else
           do a <- py_get acc i;
           do r <- py_get rews i;
           Done (<[i := f_add a r]> acc));
      add_agent_rewards idx' rews acc'
  end.

(** Lines 219-229: the increment of [n_collected], the worker's new
    accumulator and the value of [rews] afterwards. *)
Definition record_rewards (ep_rews : list (list F)) (proc_id : nat)
    (n_agents : Z) (rews : list F)
  : Outcome (Z * list F * Reward F) :=
  if 1 <? n_agents then
    do acc <- py_key ep_rews proc_id;
    do acc' <- add_agent_rewards (seq 0 (Z.to_nat n_agents)) rews acc;
    Done (n_agents, acc', RArray rews)
  else
    do r <- py_get rews 0%nat;
    do acc <- py_key ep_rews proc_id;
    do a <- py_get acc 0%nat;
    Done (1, <[0%nat := f_add a r]> acc, RScalar r).

(** The smoothing step [avg * 0.9 + ep_rew * 0.1]. *)
Definition smooth (avg ep_rew : F) : F :=
  f_add (f_mul avg f_0_9) (f_mul ep_rew f_0_1).

(** Lines 232-236: the new average at the end of an episode. *)
Definition episode_average (avg : option F) (acc : list F) : Outcome F :=
  match avg with
  | None => py_get acc 0%nat
  | Some a => Done (fold_left smooth acc a)
  end.

(** *** One env-step-data message (lines 205-244) *)

Definition write_inbound (t : BatchedTrajectory F Act Lp) (r : Reward F)
    (ns : NDArray F) (d : F) : BatchedTrajectory F Act Lp :=
  mkTrajectory (state t) (action t) (log_prob t) (Some r) (Some ns) (Some d)
    (complete_timesteps t).

Definition handle_step_data (st : Mgr) (lc : Locals F) (proc_id : nat)
    (message : list F) : Outcome (Mgr * Locals F) :=
  do sd <- decode_step_data message;
  do (k, acc, rews) <-
    record_rewards (ep_rews st) proc_id (sd_n_agents sd) (sd_rews sd);
  let n_collected := l_n_collected lc + k in
  do (avg, acc) <-
    (if truthy (sd_done sd) then
       do a <- episode_average (average_reward st) acc;
       Done (Some a, [f_zero])
     else Done (average_reward st, acc));
  let next_obs := l_next_obs lc ++ [sd_next_observation sd] in
  let next_pids := l_next_pids lc ++ [proc_id] in
  do t <- py_key (trajectory_map st) proc_id;
  let t' := write_inbound t rews (sd_next_observation sd) (sd_done sd) in
  let st' :=
    set_trajectories
      (set_ep_rews (set_average_reward st avg)
         (<[proc_id := acc]> (ep_rews st)))
      (<[proc_id := t']> (trajectory_map st)) (completed_trajectories st) in
  Done (st', mkLocals n_collected (l_buffer_ptr lc) next_obs next_pids).

(** Lines 193-195: the cursor moves on by one and wraps. *)
Definition advance (n_procs buffer_ptr : nat) : nat :=
  let buffer_ptr := S buffer_ptr in
  if (n_procs <=? buffer_ptr)%nat then 0%nat else buffer_ptr.

(** *** One inspection of a channel (lines 189-244)

    [ev] is what the pipe at the cursor answers: [None] when [poll()] is
    false, the received elements otherwise. *)
Definition inspect (st : Mgr) (lc : Locals F) (log : Log)
    (ev : option (list F)) : Outcome (Mgr * Locals F * Log) :=
  do _ <- py_key (processes st) (l_buffer_ptr lc);
  let proc_id := l_buffer_ptr lc in
  let buffer_ptr := advance (n_procs st) (l_buffer_ptr lc) in
  let lc :=
    mkLocals (l_n_collected lc) buffer_ptr (l_next_obs lc) (l_next_pids lc) in
  match ev with
  | None => Done (st, lc, log ++ [Polled proc_id false])
  | Some available_data =>
      let log :=
        log ++ [Polled proc_id true; Received proc_id available_data] in
      let header := take HEADER_LEN available_data in
      let message := drop HEADER_LEN available_data in
      do h0 <- py_get header 0%nat;
      do e0 <- py_get ENV_STEP_DATA_HEADER 0%nat;
      if f_eqb h0 e0 then
        do (st', lc') <- handle_step_data st lc proc_id message;
        Done (st', lc', log)
      else Done (st, lc, log)
  end.

(** The loop [while n_collected < n_obs_per_inference] over the answers of
    the pipes. *)
Fixpoint collect_loop (inbox : list (option (list F))) (n_obs_per_inference : Z)
    (st : Mgr) (lc : Locals F) (log : Log)
  : Outcome (Mgr * Locals F * Log * list (option (list F))) :=
  if l_n_collected lc <? n_obs_per_inference then
    match inbox with
    | [] => Pending
    | ev :: inbox' =>
        do (st', lc', log') <- inspect st lc log ev;
        collect_loop inbox' n_obs_per_inference st' lc' log'
    end
  else Done (st, lc, log, inbox).

(** [_collect_responses(next_obs, next_pids, n_obs_per_inference)]: the
    manager afterwards, the two lists, the value returned, and what is left
    of the log and of the pipes' answers. *)
Definition collect_responses (st : Mgr) (log : Log)
    (inbox : list (option (list F)))
    (next_obs : list (NDArray F)) (next_pids : list nat)
    (n_obs_per_inference : Z)
  : Outcome (Mgr * list (NDArray F) * list nat * Z * Log
             * list (option (list F))) :=
  do (st', lc, log', inbox') <-
    collect_loop inbox n_obs_per_inference st
      (mkLocals 0 (buffer_ptr st) next_obs next_pids) log;
  Done (set_buffer_ptr st' (l_buffer_ptr lc), l_next_obs lc, l_next_pids lc,
        l_n_collected lc, log', inbox').

(** *** [_send_actions] (lines 143-171) *)

Definition write_outbound (t : BatchedTrajectory F Act Lp) (a : list Act)
    (lp : list Lp) (s : NDArray F) : BatchedTrajectory F Act Lp :=
  mkTrajectory (Some s) (Some a) (Some lp) (reward t) (next_state t) (done t)
    (complete_timesteps t).

(** The loop [for i in range(len(self.current_obs))]. *)
Fixpoint dimensions_of (obs : list (NDArray F)) : Outcome (list nat) :=
  match obs with
  | [] => Done []
  | o :: obs' =>
      do d <- shape0 o;
      do ds <- dimensions_of obs';
      Done (d :: ds)
  end.

(** The loop [for proc_id, dim_0 in zip(self.current_pids, dimensions)]. *)
Fixpoint send_loop (work : list (nat * nat)) (inference_batch : NDArray F)
    (actions : list Act) (log_probs : list Lp)
    (procs : list WorkerHandle) (tm : list (BatchedTrajectory F Act Lp))
    (log : Log) (step : nat)
  : Outcome (list (BatchedTrajectory F Act Lp) * Log) :=
  match work with
  | [] => Done (tm, log)
  | (proc_id, dim_0) :: work' =>
      do _ <- py_key procs proc_id;
      let stop := (step + dim_0)%nat in
      let state := nd_rows inference_batch step stop in
      let action := rows actions step stop in
      let logp := rows log_probs step stop in
      let log := log ++ [Sent proc_id action] in
      do t <- py_key tm proc_id;
      send_loop work' inference_batch actions log_probs procs
        (<[proc_id := write_outbound t action logp state]> tm) log
        (step + dim_0)%nat
  end.

Definition send_actions (st : Mgr) (log : Log) : Outcome (Mgr * Log) :=
  match current_obs st with
  | None => Done (st, log)
  | Some obs =>
      do dimensions <- dimensions_of obs;
      do inference_batch <- np_concatenate obs;
      let (actions, log_probs) := get_action inference_batch in
      do (tm, log') <-
        send_loop (zip (current_pids st) dimensions) inference_batch actions
          log_probs (processes st) (trajectory_map st) log 0%nat;
      Done (set_current
              (set_trajectories st tm (completed_trajectories st))
              None (current_pids st),
            log')
  end.

(** *** [_sync_trajectories] (lines 132-136)

    The new values of the map, in key order, and the buffers that were
    appended to the completed ones. *)
Fixpoint sync_list (ts : list (BatchedTrajectory F Act Lp))
  : list (BatchedTrajectory F Act Lp) * list (BatchedTrajectory F Act Lp) :=
  match ts with
  | [] => ([], [])
  | t :: ts' =>
      let (t', finished) := update t in
      let (m, c) := sync_list ts' in
      if finished then (new_trajectory :: m, t' :: c) else (t' :: m, c)
  end.

Definition sync_trajectories (st : Mgr) : Mgr :=
  let (m, c) := sync_list (trajectory_map st) in
  set_trajectories st m (completed_trajectories st ++ c).

(** *** [collect_timesteps] (lines 58-130) *)

(** Lines 96-113 for one trajectory of [get_all]. *)
Definition flatten_one (out : Flat F Act Lp) (traj : Segment F Act Lp)
  : Outcome (Flat F Act Lp) :=
  let trajectory_truncated := map (fun _ => 0) (trajectory_dones traj) in
  do last_done <- py_last (trajectory_dones traj);
  do trajectory_truncated <-
    py_set_last trajectory_truncated (if is_zero last_done then 1 else 0);
  Done (mkFlat
          (states out ++ trajectory_states traj)
          (actions out ++ trajectory_actions traj)
          (log_probs out ++ trajectory_log_probs traj)
          (rewards out ++ trajectory_rewards traj)
          (next_states out ++ trajectory_next_states traj)
          (dones out ++ trajectory_dones traj)
          (truncated out ++ trajectory_truncated)).

(** The loop [for traj in trajectories]. *)
Fixpoint flatten_trajectories (trajectories : list (Segment F Act Lp))
    (out : Flat F Act Lp) : Outcome (Flat F Act Lp) :=
  match trajectories with
  | [] => Done out
  | traj :: rest =>
      do out' <- flatten_one out traj;
      flatten_trajectories rest out'
  end.

(** The loop [for trajectory in self.completed_trajectories] (lines
    91-113). *)
Fixpoint flatten_completed (completed : list (BatchedTrajectory F Act Lp))
    (out : Flat F Act Lp) : Outcome (Flat F Act Lp) :=
  match completed with
  | [] => Done out
  | trajectory :: rest =>
      let trajectories := get_all trajectory in
      if (length trajectories =? 0)%nat then flatten_completed rest out
      else
        do out' <- flatten_trajectories trajectories out;
        flatten_completed rest out'
  end.

(** Lines 87-89: every buffer of the map joins the completed ones and is
    replaced by a new one. *)
Definition close_open_trajectories (st : Mgr) : Mgr :=
  set_trajectories st
    (map (fun _ => new_trajectory) (trajectory_map st))
    (completed_trajectories st ++ trajectory_map st).

(** The loop [while n_collected < n]; [fuel] bounds the number of
    iterations. *)
Fixpoint timestep_loop (fuel : nat) (n n_obs_per_inference : Z)
    (c : Collected F Act Lp) : Outcome (Collected F Act Lp) :=
  if c_n_collected c <? n then
    match fuel with
    | O => Pending
    | S fuel' =>
        do (st1, log1) <- send_actions (c_manager c) (c_log c);
        do (st2, next_obs, next_pids, k, log2, inbox2) <-
          collect_responses st1 log1 (c_inbox c) [] []
            n_obs_per_inference;
        let st3 := set_current st2 (Some next_obs) next_pids in
        let st4 := sync_trajectories st3 in
        timestep_loop fuel' n n_obs_per_inference
          (mkCollected st4 log2 inbox2 (c_n_collected c + k)
             (c_rounds c ++ [k]))
    end
  else Done c.

(** Lines 68-69: the number of observations a round waits for. *)
Definition n_obs_per_inference (st : Mgr) : Z :=
  let n_procs := Z.max 1 (Z.of_nat (length (processes st))) in
  Z.min (min_inference_size st) n_procs.

(** [collect_timesteps(n)]: the seven lists and [n_collected], with the
    manager, the log and the pipes' remaining answers.  The conversion of the
    lists by [np.asarray] and the two clock readings are left out: [Done]
    stands for a call that has reached line 118 with these lists, and says
    nothing about lists that [np.asarray] would refuse, such as blocks of
    unequal sizes. *)
Definition collect_timesteps (fuel : nat) (st : Mgr) (log : Log)
    (inbox : list (option (list F))) (n : Z)
  : Outcome (Flat F Act Lp * Z * Collected F Act Lp) :=
  do c <-
    timestep_loop fuel n (n_obs_per_inference st)
      (mkCollected st log inbox 0 []);
  let st' := close_open_trajectories (c_manager c) in
  do out <-
    flatten_completed (completed_trajectories st')
      (mkFlat [] [] [] [] [] [] []);
  let st'' :=
    set_cumulative_timesteps st'
      (cumulative_timesteps st' + c_n_collected c) in
  Done (out, c_n_collected c,
        mkCollected st'' (c_log c) (c_inbox c)
          (c_n_collected c) (c_rounds c)).
End ManagerOps.

(** ** A concrete setting

    The examples run over the rationals, with a three-element header, a
    reshape that accepts the shapes without an unknown dimension, and a
    policy that answers row [i] of the batch with the action [i] and the
    log-probability [-i]. *)

#[export] Instance example_consts : CommConsts Q := {
  HEADER_LEN := 3;
  ENV_STEP_DATA_HEADER := [7%Q; 8%Q; 9%Q]
}.

Definition reshape_exact (data : list Q) (shape : list Z)
  : option (NDArray Q) :=
  if forallb (fun d => 0 <=? d) shape
     && (foldr Z.mul 1 shape =? Z.of_nat (length data))
  then Some (mkArray (map Z.to_nat shape) data)
  else None.

#[export] Instance example_numpy : Numpy Q := {
  np_reshape := reshape_exact
}.

Definition row_numbers (b : NDArray Q) : list Q :=
  map (fun i => inject_Z (Z.of_nat i)) (seq 0 (hd 0%nat (nd_shape b))).

#[export] Instance example_policy : Policy Q Q Q := {
  get_action := fun b => (row_numbers b, map Qopp (row_numbers b))
}.

(** [init_processes(n)] up to the initial observations: the registry, the
    reward accumulators and the buffers of [n] workers. *)
Definition with_workers {F Act Lp : Type} `{Scalar F} (n : nat)
    (st : Manager F Act Lp) : Manager F Act Lp :=
  mkManager (map Worker (seq 0 n)) (current_obs st) (current_pids st)
    (average_reward st) (cumulative_timesteps st) (min_inference_size st)
    (replicate n [f_zero]) (replicate n new_trajectory)
    (completed_trajectories st) (buffer_ptr st) n.

(** An env-step-data message of a single-agent worker with a two-element
    observation. *)
Definition step_message (done reward o1 o2 : Q) : list Q :=
  [7%Q; 8%Q; 9%Q; done; 1%Q; 2%Q; reward; o1; o2].

(** One worker that has reported its initial observation. *)
Definition one_worker : Manager Q Q Q :=
  set_current (with_workers 1 (init 1))
    (Some [mkArray [1%nat; 2%nat] [0%Q; 0%Q]]) [0%nat].

(** Two trajectories of two records each over the same observations: one
    that was cut off by the collector and one that ends its episode. *)
Definition example_obs : NDArray Q := mkArray [1%nat; 2%nat] [0%Q; 0%Q].

Definition open_trajectory : Segment Q Q Q :=
  mkSegment [example_obs; example_obs] [[0%Q]; [0%Q]] [[0%Q]; [0%Q]]
    [RScalar 1%Q; RScalar 1%Q] [example_obs; example_obs] [0%Q; 0%Q].

Definition closed_trajectory : Segment Q Q Q :=
  mkSegment [example_obs; example_obs] [[0%Q]; [0%Q]] [[0%Q]; [0%Q]]
    [RScalar 1%Q; RScalar 2%Q] [example_obs; example_obs] [0%Q; 1%Q].

Definition empty_flat {F Act Lp : Type} : Flat F Act Lp :=
  mkFlat [] [] [] [] [] [] [].

(** A buffer without a completed step. *)
Definition is_empty_buffer {F Act Lp : Type} (t : BatchedTrajectory F Act Lp)
  : bool :=
  match complete_timesteps t with
  | [] => true
  | _ => false
  end.

(** The worker of [one_worker] after a first episode of total 3, one step
    into its second episode. *)
Definition second_episode : Manager Q Q Q :=
  set_ep_rews (set_average_reward one_worker (Some 3%Q)) [[1%Q]].

(** The payload of [step_message 1 1 5 6]: a terminal step of reward 1. *)
Definition terminal_payload : list Q := [1%Q; 1%Q; 2%Q; 1%Q; 5%Q; 6%Q].

Definition fresh_locals {F : Type} (buffer_ptr : nat) : Locals F :=
  mkLocals 0 buffer_ptr [] [].

(** The payload of a message of two agents with observations of three
    elements each: the rewards 4 and 5 and the observation rows. *)
Definition two_agent_payload : list Q :=
  [0%Q; 2%Q] ++ [2%Q; 3%Q]
    ++ [4%Q; 5%Q; 10%Q; 11%Q; 12%Q; 20%Q; 21%Q; 22%Q].

(** Two workers that have reported their initial observations, with the
    default minimum inference size. *)
Definition two_workers : Manager Q Q Q :=
  set_current (with_workers 2 (init 8)) (Some [example_obs; example_obs])
    [0%nat; 1%nat].

(** Worker 0 answers at once, worker 1 at its second inspection; one more
    answer is waiting after that. *)
Definition round_inbox : list (option (list Q)) :=
  [Some (step_message 0 1 3 4); None; None; Some (step_message 0 1 5 6);
   None].

(** A recognised message that declares three shape dimensions and carries
    one. *)
Definition truncated_message : list Q := [7%Q; 8%Q; 9%Q; 0%Q; 3%Q; 2%Q].

(** A well-formed step message under a header the manager does not know. *)
Definition unknown_message : list Q :=
  [1%Q; 8%Q; 9%Q; 0%Q; 1%Q; 2%Q; 1%Q; 3%Q; 4%Q].

(** The workers whose pipes were inspected, in the order of the
    inspections. *)
Fixpoint polled_ids {F Act : Type} (log : list (IOEvent F Act)) : list nat :=
  match log with
  | [] => []
  | Polled proc_id _ :: log' => proc_id :: polled_ids log'
  | _ :: log' => polled_ids log'
  end.

(** [m] positions of a cursor that starts at [p] and rotates over [n]
    workers. *)
Definition cursor_run (n p m : nat) : list nat :=
  map (fun i => ((p + i) mod n)%nat) (seq 0 m).

(** The parts of the manager that no step of a collection changes. *)
Definition same_pool {F Act Lp : Type} (st st' : Manager F Act Lp) : Prop :=
  processes st' = processes st
  /\ n_procs st' = n_procs st
  /\ min_inference_size st' = min_inference_size st.

(** The row ranges [(step, stop)] of consecutive blocks of the given sizes,
    the first one starting at [step]. *)
Fixpoint blocks (dims : list nat) (step : nat) : list (nat * nat) :=
  match dims with
  | [] => []
  | d :: ds => (step, (step + d)%nat) :: blocks ds (step + d)%nat
  end.

(** The message that carries the rows of one block to a worker. *)
Definition sent_block {F Act : Type} (actions : list Act)
    (w : nat * (nat * nat)) : IOEvent F Act :=
  Sent (fst w) (rows actions (fst (snd w)) (snd (snd w))).

(** The answers of [round_inbox] followed by those of a second round:
    worker 0 is not ready at first, worker 1 answers, then worker 0 ends its
    episode. *)
Definition call_inbox : list (option (list Q)) :=
  round_inbox ++ [Some (step_message 0 1 7 8); Some (step_message 1 1 9 10)].

(** The sum of the counts of a list of rounds. *)
Definition sum_counts (rounds : list Z) : Z := foldr Z.add 0 rounds.



Section Pairing.
Context {F : Type} `{Scalar F} `{CommConsts F} `{Numpy F}.
Context {Act Lp : Type}.

(** The env-step-data messages among the received ones, decoded, each with
    the worker it came from, in the order of their receipt. *)
Fixpoint step_data_of (log : list (IOEvent F Act)) : list (nat * StepData F) :=
  match log with
  | [] => []
  | Received proc_id available_data :: log' =>
      match py_get (take HEADER_LEN available_data) 0%nat,
            py_get ENV_STEP_DATA_HEADER 0%nat,
            decode_step_data (drop HEADER_LEN available_data) with
      | Done h0, Done e0, Done sd =>
          if f_eqb h0 e0 then (proc_id, sd) :: step_data_of log'
          else step_data_of log'
      | _, _, _ => step_data_of log'
      end
  | _ :: log' => step_data_of log'
  end.

(** The observations and the worker ids of the manager go in pairs. *)
Definition paired (st : Manager F Act Lp) : Prop :=
  forall obs, current_obs st = Some obs -> length obs = length (current_pids st).
End Pairing.

(** A manager about to flush two open buffers: the first holds one
    completed step, the second none. *)
Definition flushing : Manager Q Q Q :=
  set_trajectories two_workers
    [mkTrajectory None None None None None None
       [mkTimestep example_obs [0%Q] [0%Q] (RScalar 1%Q) example_obs 0%Q];
     new_trajectory]
    [].

(** The outcomes of the runs the examples refer to, evaluated once. *)
Definition round_outcome :=
  Eval vm_compute in collect_responses two_workers [] round_inbox [] [] 2.

Definition send_outcome :=
  Eval vm_compute in send_actions two_workers [].

Definition call_outcome :=
  Eval vm_compute in collect_timesteps 5 two_workers [] call_inbox 3.


Definition episode_inbox : list (option (list Q)) :=
  [Some (step_message 0 1 3 4); Some (step_message 1 2 5 6)].

Definition episode_outcome :=
  Eval vm_compute in collect_timesteps 2 one_worker [] episode_inbox 2.

(** ** Further notions for the properties of the manager *)

(** What a handled message adds to the running count (lines 219-227). *)
Definition increment {F : Type} (sd : StepData F) : Z :=
  if 1 <? sd_n_agents sd then sd_n_agents sd else 1.

(** The workers that [send_bytes] was called for, with what was sent. *)
Fixpoint sent_blocks {F Act : Type} (log : list (IOEvent F Act))
  : list (nat * list Act) :=
  match log with
  | [] => []
  | Sent proc_id action :: log' => (proc_id, action) :: sent_blocks log'
  | _ :: log' => sent_blocks log'
  end.

(** Every receipt in the log directly follows a poll of the same pipe that
    found it ready. *)
Fixpoint receipts_polled {F Act : Type} (log : list (IOEvent F Act)) : bool :=
  match log with
  | [] => true
  | Polled p true :: Received q _ :: log' =>
      (p =? q)%nat && receipts_polled log'
  | Received _ _ :: _ => false
  | _ :: log' => receipts_polled log'
  end.

(** An array whose elements fill its shape, of at least one dimension. *)
Definition nd_ok {F : Type} (a : NDArray F) : Prop :=
  exists d,
    nd_shape a !! 0%nat = Some d
    /\ length (nd_data a) = (d * stride a)%nat.

(** A trajectory of [get_all] with six lists of one length. *)
Definition segment_ok {F Act Lp : Type} (s : Segment F Act Lp) : Prop :=
  length (trajectory_states s) = length (trajectory_dones s)
  /\ length (trajectory_actions s) = length (trajectory_dones s)
  /\ length (trajectory_log_probs s) = length (trajectory_dones s)
  /\ length (trajectory_rewards s) = length (trajectory_dones s)
  /\ length (trajectory_next_states s) = length (trajectory_dones s).

(** Seven output lists of one length. *)
Definition flat_ok {F Act Lp : Type} (out : Flat F Act Lp) : Prop :=
  length (states out) = length (dones out)
  /\ length (actions out) = length (dones out)
  /\ length (log_probs out) = length (dones out)
  /\ length (rewards out) = length (dones out)
  /\ length (next_states out) = length (dones out)
  /\ length (truncated out) = length (dones out).

(** What the steps of a call keep of the manager's books: the completed
    buffers are only ever added to, the numbers of open buffers and of
    accumulators stay, and the timestep total is not touched. *)
Definition keeps_books {F Act Lp : Type} (st st' : Manager F Act Lp) : Prop :=
  completed_trajectories st `prefix_of` completed_trajectories st'
  /\ length (trajectory_map st') = length (trajectory_map st)
  /\ length (ep_rews st') = length (ep_rews st)
  /\ cumulative_timesteps st' = cumulative_timesteps st.

(** ** The loops, part of the way *)

Section Progress.
Context {F : Type} `{Scalar F} `{CommConsts F} `{Numpy F}.
Context {Act Lp : Type} `{Policy F Act Lp}.

(** The loop of a round (lines 188-244) taken through the answers
    [answers]: the state in which its next pass begins, [None] when the
    loop has ended or raised before it has used them up. *)
Fixpoint passes (answers : list (option (list F))) (n_obs_per_inference : Z)
    (st : Manager F Act Lp) (lc : Locals F) (log : list (IOEvent F Act))
  : option (Manager F Act Lp * Locals F * list (IOEvent F Act)) :=
  match answers with
  | [] => Some (st, lc, log)
  | ev :: answers' =>
      if l_n_collected lc <? n_obs_per_inference then
        match inspect st lc log ev with
        | Done (st', lc', log') =>
            passes answers' n_obs_per_inference st' lc' log'
        | _ => None
        end
      else None
  end.

(** One pass of the loop of [collect_timesteps] (lines 73-84). *)
Definition one_round (n_obs_per_inference : Z) (c : Collected F Act Lp)
  : Outcome (Collected F Act Lp) :=
  do (st1, log1) <- send_actions (c_manager c) (c_log c);
  do (st2, next_obs, next_pids, k, log2, inbox2) <-
    collect_responses st1 log1 (c_inbox c) [] [] n_obs_per_inference;
  let st3 := set_current st2 (Some next_obs) next_pids in
  let st4 := sync_trajectories st3 in
  Done (mkCollected st4 log2 inbox2 (c_n_collected c + k)
          (c_rounds c ++ [k])).

(** [j] passes of that loop, each begun with fewer than [n] timesteps
    collected: the state in which the next pass begins, [None] when the
    loop has ended or raised before. *)
Fixpoint rounds (j : nat) (n n_obs_per_inference : Z)
    (c : Collected F Act Lp) : option (Collected F Act Lp) :=
  match j with
  | O => Some c
  | S j' =>
      if c_n_collected c <? n then
        match one_round n_obs_per_inference c with
        | Done c' => rounds j' n n_obs_per_inference c'
        | _ => None
        end
      else None
  end.
End Progress.

(** Worker 0 answers with a step, worker 1 with the truncated message. *)
Definition late_error_inbox : list (option (list Q)) :=
  [Some (step_message 0 1 3 4); Some truncated_message;
   Some (step_message 0 1 5 6)].

(** Both workers answer in the first round; in the second round worker 0
    answers with the truncated message. *)
Definition second_round_error_inbox : list (option (list Q)) :=
  [Some (step_message 0 1 3 4); Some (step_message 0 1 5 6);
   Some truncated_message; Some (step_message 0 1 7 8)].

Definition first_pass_outcome :=
  Eval vm_compute in
    passes [Some (step_message 0 1 3 4)] 2 two_workers (fresh_locals 0) [].

Definition first_round_outcome :=
  Eval vm_compute in
    rounds 1 3 (n_obs_per_inference two_workers)
      (mkCollected two_workers [] second_round_error_inbox 0 []).

(** ** Start-up (lines 250-349)

    The remaining constants of [comm_consts] and its [unpack_message] are
    parameters, like the others.  [unpack_message] is taken to give the
    message as a Python list of numbers, so that [header == ...] compares
    two lists element by element and a slice of the message is a list. *)

Class SetupConsts (F : Type) : Type := {
  unpack_message : list F -> list F;
  ENV_RESET_STATE_HEADER : list F;
  ENV_SHAPES_HEADER : list F
}.

(** What the manager does to the pipes while it starts up: a process is
    started and handed its initialisation data, a request is sent, a pipe
    that is not ready is slept on, a message is received. *)
Inductive SetupEvent (F : Type) : Type :=
  | Started (proc_id : nat) (render_this_proc : bool)
  | Asked (proc_id : nat) (message : list F)
  | Slept (proc_id : nat)
  | Got (proc_id : nat) (available_data : list F).

Arguments Started {F} proc_id render_this_proc.
Arguments Asked {F} proc_id message.
Arguments Slept {F} proc_id.
Arguments Got {F} proc_id available_data.

Section Setup.
Context {F : Type} `{Scalar F} `{CommConsts F} `{Numpy F} `{SetupConsts F}.
Context {Act Lp : Type}.

Local Abbreviation Mgr := (Manager F Act Lp).
Local Abbreviation SetupLog := (list (SetupEvent F)).

(** [l == k] on two lists of scalars. *)
Fixpoint list_eqb (l k : list F) : bool :=
  match l, k with
  | [], [] => true
  | x :: l', y :: k' => f_eqb x y && list_eqb l' k'
  | _, _ => false
  end.

(** The loop [while not parent_end.poll(): time.sleep(...)] and the
    [recv_bytes()] that follows it. *)
Fixpoint await (proc_id : nat) (inbox : list (option (list F)))
    (log : SetupLog)
  : Outcome (list F * SetupLog * list (option (list F))) :=
  match inbox with
  | [] => Pending
  | None :: inbox' => await proc_id inbox' (log ++ [Slept proc_id])
  | Some available_data :: inbox' =>
      Done (available_data, log ++ [Got proc_id available_data], inbox')
  end.

(** Lines 272-277: the observation of an env-reset-state payload. *)
Definition decode_reset_state (data : list F) : Outcome (NDArray F) :=
  do d0 <- py_get data 0%nat;
  do n_elements_in_state_shape <- py_int d0;
  do shape <- py_ints (py_slice data 1 (1 + n_elements_in_state_shape));
  do shape <-
    (if n_elements_in_state_shape =? 1 then
       do s0 <- py_get shape 0%nat; Done [1; s0]
     else Done shape);
  py_reshape (py_slice_from data (1 + n_elements_in_state_shape)) shape.

(** The loop of [_get_initial_states] over the workers. *)
Fixpoint initial_states_loop (ids : list nat)
    (inbox : list (option (list F))) (log : SetupLog)
    (current_obs : list (NDArray F)) (current_pids : list nat)
  : Outcome (list (NDArray F) * list nat * SetupLog
             * list (option (list F))) :=
  match ids with
  | [] => Done (current_obs, current_pids, log, inbox)
  | proc_id :: ids' =>
      do (available_data, log, inbox) <- await proc_id inbox log;
      let message := unpack_message available_data in
      let header := take HEADER_LEN message in
      let data := drop HEADER_LEN message in
      if list_eqb header ENV_RESET_STATE_HEADER then
        let current_pids := current_pids ++ [proc_id] in
        do obs <- decode_reset_state data;
        initial_states_loop ids' inbox log (current_obs ++ [obs]) current_pids
      else initial_states_loop ids' inbox log current_obs current_pids
  end.

(** [_get_initial_states()] *)
Definition get_initial_states (st : Mgr) (inbox : list (option (list F)))
    (log : SetupLog) : Outcome (Mgr * SetupLog * list (option (list F))) :=
  do (obs, pids, log', inbox') <-
    initial_states_loop (seq 0 (length (processes st))) inbox log [] [];
  Done (set_current st (Some obs) pids, log', inbox').

(** The loop [while not done] of [_get_env_shapes] and the conversions of
    its last line. *)
Fixpoint env_shapes_loop (inbox : list (option (list F))) (log : SetupLog)
  : Outcome (Z * Z * Z * SetupLog * list (option (list F))) :=
  match inbox with
  | [] => Pending
  | None :: inbox' => env_shapes_loop inbox' (log ++ [Slept 0%nat])
  | Some available_data :: inbox' =>
      let log := log ++ [Got 0%nat available_data] in
      let message := unpack_message available_data in
      let header := take HEADER_LEN message in
      let data := drop HEADER_LEN message in
      if list_eqb header ENV_SHAPES_HEADER then
        match data with
        | [obs_shape; action_shape; action_space_type] =>
            do o <- py_int obs_shape;
            do a <- py_int action_shape;
            do t <- py_int action_space_type;
            Done (o, a, t, log, inbox')
        | _ => Raise ValueError
        end
      else env_shapes_loop inbox' log
  end.

(** [_get_env_shapes()] *)
Definition get_env_shapes (st : Mgr) (inbox : list (option (list F)))
    (log : SetupLog)
  : Outcome (Z * Z * Z * SetupLog * list (option (list F))) :=
  do _ <- py_key (processes st) 0%nat;
  env_shapes_loop inbox (log ++ [Asked 0%nat ENV_SHAPES_HEADER]).

(** The registry after [self.processes[i] = ...] for [i] in [range(n)]: the
    first [n] entries are the new workers, entries from [n] on stay. *)
Definition spawned (n : nat) (procs : list WorkerHandle) : list WorkerHandle :=
  map Worker (seq 0 n) ++ drop n procs.

(** [init_processes(n_processes, build_env_fn, render=render)].  The
    creation of a process and the hand-over of [build_env_fn] are one event
    of the log; [spawn_delay] only sleeps. *)
Definition init_processes (n_processes : nat) (render : bool) (st : Mgr)
    (inbox : list (option (list F))) (log : SetupLog)
  : Outcome (Z * Z * Z * Mgr * SetupLog * list (option (list F))) :=
  let log :=
    log ++ map (fun i => Started i ((i =? 0)%nat && render))
             (seq 0 n_processes) in
  let procs := spawned n_processes (processes st) in
  let st :=
    mkManager procs (current_obs st) (current_pids st) (average_reward st)
      (cumulative_timesteps st) (min_inference_size st)
      (map (fun _ => [f_zero]) procs) (map (fun _ => new_trajectory) procs)
      (completed_trajectories st) (buffer_ptr st) n_processes in
  do (st, log, inbox) <- get_initial_states st inbox log;
  do (o, a, t, log, inbox) <- get_env_shapes st inbox log;
  Done (o, a, t, st, log, inbox).

(** A message that [_get_initial_states] takes for an initial observation
    (line 269), and the observation it reads from it (lines 272-277). *)
Definition is_reset_state (available_data : list F) : bool :=
  list_eqb (take HEADER_LEN (unpack_message available_data))
    ENV_RESET_STATE_HEADER.

Definition reset_state_of (available_data : list F) : Outcome (NDArray F) :=
  decode_reset_state (drop HEADER_LEN (unpack_message available_data)).

(** A message that [_get_env_shapes] takes for the reply. *)
Definition is_shapes_reply (available_data : list F) : bool :=
  list_eqb (take HEADER_LEN (unpack_message available_data)) ENV_SHAPES_HEADER.

(** An answer of a pipe that [_get_env_shapes] passes over. *)
Definition passed_over (ev : option (list F)) : Prop :=
  match ev with
  | None => True
  | Some available_data => is_shapes_reply available_data = false
  end.
End Setup.

(** The messages received according to a start-up log, each with the worker
    it came from. *)
Fixpoint received {F : Type} (log : list (SetupEvent F))
  : list (nat * list F) :=
  match log with
  | [] => []
  | Got proc_id available_data :: log' =>
      (proc_id, available_data) :: received log'
  | _ :: log' => received log'
  end.

(** The workers the messages of a start-up log were received from. *)
Fixpoint got_from {F : Type} (log : list (SetupEvent F)) : list nat :=
  match log with
  | [] => []
  | Got proc_id _ :: log' => proc_id :: got_from log'
  | _ :: log' => got_from log'
  end.

(** The workers that were started with rendering switched on. *)
Fixpoint rendering {F : Type} (log : list (SetupEvent F)) : list nat :=
  match log with
  | [] => []
  | Started proc_id true :: log' => proc_id :: rendering log'
  | _ :: log' => rendering log'
  end.

(** ** Concrete runs for the further properties *)

(** The rationals with two infinities and a NaN, the values of a float that
    [int()] refuses.  A sum or a product that is not defined is the NaN, and
    the NaN is equal to nothing. *)
Inductive XQ : Type :=
  | Fin (q : Q)
  | Inf (negative : bool)
  | NaN.

Definition XQ_add (x y : XQ) : XQ :=
  match x, y with
  | Fin a, Fin b => Fin (Qred (a + b))
  | Inf s, Fin _ | Fin _, Inf s => Inf s
  | Inf s, Inf s' => if Bool.eqb s s' then Inf s else NaN
  | _, _ => NaN
  end.

Definition XQ_mul (x y : XQ) : XQ :=
  match x, y with
  | Fin a, Fin b => Fin (Qred (a * b))
  | Inf s, Fin q | Fin q, Inf s =>
      if Qeq_bool q 0 then NaN else Inf (xorb s (Qnum q <? 0))
  | Inf s, Inf s' => Inf (xorb s s')
  | _, _ => NaN
  end.

Definition XQ_eqb (x y : XQ) : bool :=
  match x, y with
  | Fin a, Fin b => Qeq_bool a b
  | Inf s, Inf s' => Bool.eqb s s'
  | _, _ => false
  end.

#[export] Instance XQ_Scalar : Scalar XQ := {
  f_zero := Fin 0;
  f_0_9 := Fin (9 # 10);
  f_0_1 := Fin (1 # 10);
  f_add := XQ_add;
  f_mul := XQ_mul;
  f_eqb := XQ_eqb;
  f_int := fun x =>
    match x with
    | Fin q => Some (Z.quot (Qnum q) (Z.pos (Qden q)))
    | _ => None
    end;
  f_isinf := fun x =>
    match x with
    | Inf _ => true
    | _ => false
    end
}.

#[export] Instance XQ_consts : CommConsts XQ := {
  HEADER_LEN := 3;
  ENV_STEP_DATA_HEADER := [Fin 7; Fin 8; Fin 9]
}.

#[export] Instance XQ_numpy : Numpy XQ := {
  np_reshape := fun data shape =>
    if forallb (fun d => 0 <=? d) shape
       && (foldr Z.mul 1 shape =? Z.of_nat (length data))
    then Some (mkArray (map Z.to_nat shape) data)
    else None
}.

#[export] Instance example_setup : SetupConsts Q := {
  unpack_message := fun available_data => available_data;
  ENV_RESET_STATE_HEADER := [4%Q; 5%Q; 6%Q];
  ENV_SHAPES_HEADER := [1%Q; 2%Q; 3%Q]
}.

(** A manager fresh from [__init__] with the default minimum. *)
Definition fresh_manager : Manager Q Q Q := init 8.

(** Two workers under a minimum inference size of 0. *)
Definition no_minimum : Manager Q Q Q :=
  set_current (with_workers 2 (init 0)) (Some [example_obs; example_obs])
    [0%nat; 1%nat].

(** The payload of [step_message 0 1 5 6]: a step of reward 1 that does not
    end the episode. *)
Definition open_payload : list Q := [0%Q; 1%Q; 2%Q; 1%Q; 5%Q; 6%Q].

Definition inspect_outcome :=
  Eval vm_compute in
    inspect two_workers (fresh_locals 0) [] (Some (step_message 0 1 3 4)).

Definition open_outcome :=
  Eval vm_compute in
    handle_step_data second_episode (fresh_locals 0) 0%nat open_payload.

(** An env-reset-state message with a two-element observation, and the
    reply to the request for the shapes. *)
Definition reset_message (o1 o2 : Q) : list Q :=
  [4%Q; 5%Q; 6%Q; 1%Q; 2%Q; o1; o2].

Definition shapes_message : list Q := [1%Q; 2%Q; 3%Q; 2%Q; 4%Q; 0%Q].

(** The start of two workers: worker 0 is slow to report, both report their
    first observation, and the reply to the shapes request comes after a
    step message that nobody asked for. *)
Definition setup_inbox : list (option (list Q)) :=
  [None; Some (reset_message 0 0); Some (reset_message 0 0);
   None; Some (step_message 0 1 3 4); Some shapes_message; None].

(** A start in which worker 0 reports a step instead of its first
    observation. *)
Definition odd_start_inbox : list (option (list Q)) :=
  [Some (step_message 0 1 3 4); None; Some (reset_message 5 6)].

Definition initial_outcome :=
  Eval vm_compute in
    get_initial_states (with_workers 2 fresh_manager) odd_start_inbox [].

Definition init_outcome :=
  Eval vm_compute in init_processes 2 true fresh_manager setup_inbox [].

(** * Properties *)

(** ** Outcomes *)

Lemma bind_done {A B : Type} (m : Outcome A) (k : A -> Outcome B) (b : B) :
  bind m k = Done b -> exists a, m = Done a /\ k a = Done b.
Proof. destruct m as [a| |]; simpl; intros E; try discriminate. eauto. Qed.

Lemma bind_raise {A B : Type} (m : Outcome A) (k : A -> Outcome B) (e : PyExc) :
  m = Raise e -> bind m k = Raise e.
Proof. intros ->. reflexivity. Qed.

Ltac inv_bind E :=
  let x := fresh "x" in
  let Ex := fresh "E" x in
  apply bind_done in E; destruct E as (x & Ex & E).

Lemma py_get_done {A : Type} (l : list A) (i : nat) (x : A) :
  py_get l i = Done x <-> l !! i = Some x.
Proof. unfold py_get. destruct (l !! i); split; congruence. Qed.

Lemma py_key_done {A : Type} (l : list A) (i : nat) (x : A) :
  py_key l i = Done x <-> l !! i = Some x.
Proof. unfold py_key. destruct (l !! i); split; congruence. Qed.

Lemma py_last_done {A : Type} (l : list A) (x : A) :
  py_last l = Done x <-> last l = Some x.
Proof. unfold py_last. destruct (last l); split; congruence. Qed.

Lemma last_snoc_inv {A : Type} (l : list A) (x : A) :
  last l = Some x -> exists l', l = l' ++ [x].
Proof.
  induction l as [|y l IH] using rev_ind; [discriminate|].
  rewrite last_snoc. intros [= ->]. eauto.
Qed.

Lemma py_set_last_snoc {A : Type} (l : list A) (x v : A) :
  py_set_last (l ++ [x]) v = Done (l ++ [v]).
Proof.
  unfold py_set_last. destruct (l ++ [x]) eqn:E.
  - destruct l; discriminate.
  - rewrite <- E. f_equal. rewrite length_app. simpl.
    replace (Nat.pred (length l + 1)) with (length l + 0)%nat by lia.
    rewrite insert_app_r. reflexivity.
Qed.

(** ** Flattening *)

Section Flattening.
Context {F : Type} `{Scalar F} {Act Lp : Type}.

Local Abbreviation Seg := (Segment F Act Lp).
Local Abbreviation Out := (Flat F Act Lp).

(** The flags line 105-106 computes for a trajectory whose done flags are
    [ds ++ [d]]. *)
Lemma flatten_one_inv (out out' : Out) (traj : Seg) :
  flatten_one out traj = Done out' ->
  exists ds d,
    trajectory_dones traj = ds ++ [d]
    /\ dones out' = dones out ++ ds ++ [d]
    /\ truncated out' =
       truncated out ++ map (fun _ => 0) ds ++ [if is_zero d then 1 else 0].
Proof.
  unfold flatten_one. intros E.
  inv_bind E. apply py_last_done in Ex.
  destruct (last_snoc_inv _ _ Ex) as [ds Hds].
  inv_bind E. injection E as <-. simpl.
  exists ds, x. rewrite Hds in *. split; [reflexivity|]. split; [reflexivity|].
  rewrite map_app in Ex0. simpl in Ex0. rewrite py_set_last_snoc in Ex0.
  injection Ex0 as <-. reflexivity.
Qed.

Lemma flatten_one_nonempty (out : Out) (traj : Seg) :
  trajectory_dones traj <> [] -> returns (flatten_one out traj).
Proof.
  intros Hne. unfold flatten_one.
  destruct (trajectory_dones traj) as [|d0 ds0] eqn:E using rev_ind;
    [congruence|].
  clear IHds0. unfold py_last. rewrite last_snoc. simpl.
  rewrite map_app. simpl. rewrite py_set_last_snoc. simpl. eexists; eauto.
Qed.

Lemma flatten_trajectories_app (l1 l2 : list Seg) (out : Out) :
  flatten_trajectories (l1 ++ l2) out =
  bind (flatten_trajectories l1 out) (flatten_trajectories l2).
Proof.
  revert out. induction l1 as [|t l1 IH]; intros out; simpl; [reflexivity|].
  destruct (flatten_one out t); simpl; auto.
Qed.

(** The done flags and the truncation flags grow by the same number of
    entries, the done flags by those of the trajectories in order. *)
Lemma flatten_trajectories_dones (l : list Seg) (out out' : Out) :
  flatten_trajectories l out = Done out' ->
  dones out' = dones out ++ concat (map trajectory_dones l)
  /\ exists ts, truncated out' = truncated out ++ ts
                /\ length ts = length (concat (map trajectory_dones l)).
Proof.
  revert out. induction l as [|t l IH]; intros out E; simpl in *.
  - injection E as <-. rewrite !app_nil_r. split; [reflexivity|].
    exists []. rewrite app_nil_r. auto.
  - inv_bind E. destruct (flatten_one_inv _ _ _ Ex) as (ds & d & Ht & Hd & Htr).
    destruct (IH _ E) as (Hd' & ts & Hts & Hlen).
    split.
    + rewrite Hd', Hd, Ht. rewrite <- !app_assoc. reflexivity.
    + eexists. rewrite Hts, Htr. rewrite <- !app_assoc. split; [reflexivity|].
      rewrite !length_app, length_map, Hlen, Ht, !length_app. simpl. lia.
Qed.
(** Claim C1.  Whenever the flattening of a list of trajectories succeeds,
    every trajectory [traj] in it has a last record, its done flags appear
    in the output at the offset of the records flattened before it, the
    truncation flag of each of its records but the last is 0, and the
    truncation flag of its last record is 1 if and only if that record's done
    flag compares equal to 0; a last record whose done flag is not 0 (a
    terminal step, [done = 1]) has the truncation flag 0. *)
Theorem truncation_flag_of_final_record
    (pre post : list Seg) (traj : Seg) (out0 out : Out) :
  length (truncated out0) = length (dones out0) ->
  flatten_trajectories (pre ++ traj :: post) out0 = Done out ->
  let off :=
    (length (dones out0) + length (concat (map trajectory_dones pre)))%nat in
  exists ds d,
    trajectory_dones traj = ds ++ [d]
    /\ (forall i x, (ds ++ [d]) !! i = Some x ->
                    dones out !! (off + i)%nat = Some x)
    /\ (forall i, (i < length ds)%nat ->
                  truncated out !! (off + i)%nat = Some 0)
    /\ (truncated out !! (off + length ds)%nat = Some 1 <-> is_zero d = true)
    /\ (truncated out !! (off + length ds)%nat = Some 0 <-> is_zero d = false).
Proof.
  intros Hal E off.
  rewrite flatten_trajectories_app in E. inv_bind E. simpl in E. inv_bind E.
  destruct (flatten_trajectories_dones _ _ _ Ex) as (Hd1 & ts1 & Ht1 & Hl1).
  destruct (flatten_one_inv _ _ _ Ex0) as (ds & d & Htraj & Hd2 & Ht2).
  destruct (flatten_trajectories_dones _ _ _ E) as (Hd3 & ts3 & Ht3 & _).
  exists ds, d. split; [exact Htraj|].
  assert (Hoff : off = length (dones x)).
  { subst off. rewrite Hd1, length_app. reflexivity. }
  assert (Hoff' : off = length (truncated x)).
  { subst off. rewrite Ht1, length_app, Hl1, Hal. reflexivity. }
  assert (Hdn : forall i, (i < length (ds ++ [d]))%nat ->
                dones out !! (off + i)%nat = (ds ++ [d]) !! i).
  { intros i Hi. rewrite Hd3, Hd2, Hoff.
    rewrite lookup_app_l by (rewrite !length_app in *; simpl in *; lia).
    rewrite lookup_app_r by lia.
    f_equal. lia. }
  assert (Htr : forall i,
             (i < length (ds ++ [d]))%nat ->
             truncated out !! (off + i)%nat =
             (map (fun _ => 0) ds ++ [if is_zero d then 1 else 0]) !! i).
  { intros i Hi. rewrite Ht3, Ht2, Hoff'.
    rewrite lookup_app_l
      by (rewrite !length_app, ?length_map in *; simpl in *; lia).
    rewrite lookup_app_r by lia.
    f_equal. lia. }
  split; [|split; [|split]].
  - intros i y Hy. rewrite Hdn; [exact Hy|].
    apply lookup_lt_Some in Hy. exact Hy.
  - intros i Hi. rewrite Htr by (rewrite length_app; simpl; lia).
    rewrite lookup_app_l by (rewrite length_map; lia).
    rewrite list_lookup_fmap.
    destruct (lookup_lt_is_Some_2 ds i Hi) as [y ->]. reflexivity.
  - rewrite Htr by (rewrite length_app; simpl; lia).
    rewrite lookup_app_r by (rewrite length_map; lia).
    rewrite length_map, Nat.sub_diag. simpl.
    destruct (is_zero d); split; congruence.
  - rewrite Htr by (rewrite length_app; simpl; lia).
    rewrite lookup_app_r by (rewrite length_map; lia).
    rewrite length_map, Nat.sub_diag. simpl.
    destruct (is_zero d); split; congruence.
Qed.
End Flattening.

(** The flags of [open_trajectory; closed_trajectory] are [0; 1; 0; 0]. *)
Lemma truncation_flag_of_final_record_witness :
  exists out,
    flatten_trajectories [open_trajectory; closed_trajectory] empty_flat
      = Done out
    /\ truncated out = [0; 1; 0; 0]
    /\ exists ds d,
         trajectory_dones closed_trajectory = ds ++ [d]
         /\ (forall i x, (ds ++ [d]) !! i = Some x ->
                         dones out !! (2 + i)%nat = Some x)
         /\ (forall i, (i < length ds)%nat ->
                       truncated out !! (2 + i)%nat = Some 0)
         /\ (truncated out !! (2 + length ds)%nat = Some 1
              <-> is_zero d = true)
         /\ (truncated out !! (2 + length ds)%nat = Some 0
              <-> is_zero d = false).
Proof.
  eexists. split; [reflexivity|]. split; [reflexivity|].
  exact (truncation_flag_of_final_record [open_trajectory] []
           closed_trajectory empty_flat _ eq_refl eq_refl).
Defined.

(** ** The closing flush *)

Section Flush.
Context {F : Type} `{Scalar F} {Act Lp : Type}.

Local Abbreviation Buf := (BatchedTrajectory F Act Lp).
Local Abbreviation Out := (Flat F Act Lp).

Lemma get_all_empty (t : Buf) : is_empty_buffer t = true -> get_all t = [].
Proof.
  unfold is_empty_buffer, get_all. destruct (complete_timesteps t); congruence.
Qed.

Lemma get_all_nonempty (t : Buf) (seg : Segment F Act Lp) :
  In seg (get_all t) ->
  is_empty_buffer t = false
  /\ trajectory_dones seg = map ts_done (complete_timesteps t).
Proof.
  unfold is_empty_buffer, get_all.
  destruct (complete_timesteps t) as [|x l]; simpl; [tauto|].
  intros [<-|[]]. auto.
Qed.

Lemma flatten_completed_app (l1 l2 : list Buf) (out : Out) :
  flatten_completed (l1 ++ l2) out =
  bind (flatten_completed l1 out) (flatten_completed l2).
Proof.
  revert out. induction l1 as [|t l1 IH]; intros out; simpl; [reflexivity|].
  destruct (length (get_all t) =? 0)%nat; [apply IH|].
  destruct (flatten_trajectories (get_all t) out); simpl; auto.
Qed.

Lemma flatten_completed_skip (t : Buf) (l : list Buf) (out : Out) :
  is_empty_buffer t = true ->
  flatten_completed (t :: l) out = flatten_completed l out.
Proof. intros E. simpl. rewrite (get_all_empty _ E). reflexivity. Qed.

Lemma flatten_completed_filter (l : list Buf) (out : Out) :
  flatten_completed l out =
  flatten_completed (List.filter (fun t => negb (is_empty_buffer t)) l) out.
Proof.
  revert out. induction l as [|t l IH]; intros out; [reflexivity|].
  cbn [List.filter]. destruct (is_empty_buffer t) eqn:E; cbn [negb].
  - rewrite flatten_completed_skip by exact E. apply IH.
  - simpl. destruct (length (get_all t) =? 0)%nat; [apply IH|].
    destruct (flatten_trajectories (get_all t) out); simpl; auto.
Qed.

(** The loop over the completed buffers is the loop over all their
    trajectories. *)
Lemma flatten_completed_concat (l : list Buf) (out : Out) :
  flatten_completed l out =
  flatten_trajectories (concat (map get_all l)) out.
Proof.
  revert out. induction l as [|t l IH]; intros out; [reflexivity|].
  simpl. rewrite flatten_trajectories_app.
  destruct (get_all t) as [|seg segs] eqn:E; simpl; [apply IH|].
  destruct (flatten_one out seg); simpl; auto.
  destruct (flatten_trajectories segs a); simpl; auto.
Qed.

(** Claim C9.  With [get_all] as the specification describes it, a buffer
    without a completed step yields no trajectory at all, no trajectory that
    [get_all] yields is of length zero, and the flattening that follows the
    closing flush of the open buffers (lines 87-113) produces exactly what
    it produces when the empty ones among them are left out: neither the
    lists nor the success of the flattening depend on them. *)
Theorem empty_buffer_adds_no_segment (st : Manager F Act Lp) (out : Out) :
  (forall t : Buf, is_empty_buffer t = true -> get_all t = [])
  /\ (forall (t : Buf) seg, In seg (get_all t) -> trajectory_dones seg <> [])
  /\ flatten_completed
       (completed_trajectories (close_open_trajectories st)) out
     = flatten_completed
         (completed_trajectories st
          ++ List.filter (fun t => negb (is_empty_buffer t))
               (trajectory_map st)) out.
Proof.
  split; [exact get_all_empty|]. split.
  - intros t seg Hin. destruct (get_all_nonempty _ _ Hin) as [Hne ->].
    unfold is_empty_buffer in Hne.
    destruct (complete_timesteps t); [discriminate|]. discriminate.
  - simpl. rewrite !flatten_completed_app.
    destruct (flatten_completed (completed_trajectories st) out); simpl; auto.
    apply flatten_completed_filter.
Qed.
End Flush.

(** The empty buffer of the second worker leaves no trace in the output: the
    one record is that of the first worker, cut off by the collector. *)
Lemma empty_buffer_adds_no_segment_witness :
  is_empty_buffer (new_trajectory (F := Q) (Act := Q) (Lp := Q)) = true
  /\ get_all (new_trajectory (F := Q) (Act := Q) (Lp := Q)) = []
  /\ (exists out,
        flatten_completed
          (completed_trajectories (close_open_trajectories flushing))
          empty_flat = Done out
        /\ dones out = [0%Q] /\ truncated out = [1])
  /\ flatten_completed
       (completed_trajectories (close_open_trajectories flushing)) empty_flat
     = flatten_completed
         (completed_trajectories flushing
          ++ List.filter (fun t => negb (is_empty_buffer t))
               (trajectory_map flushing)) empty_flat.
Proof.
  destruct (empty_buffer_adds_no_segment flushing empty_flat)
    as (Hempty & _ & Hflat).
  split; [reflexivity|]. split; [exact (Hempty new_trajectory eq_refl)|].
  split; [eexists; repeat split|]. exact Hflat.
Defined.

(** ** One message *)

Section Messages.
Context {F : Type} `{Scalar F} `{CommConsts F} `{Numpy F}.
Context {Act Lp : Type} `{Policy F Act Lp}.

Local Abbreviation Mgr := (Manager F Act Lp).

(** What a successful [handle_step_data] has done, step by step. *)
Lemma handle_step_data_inv (st st' : Mgr) (lc lc' : Locals F) (proc_id : nat)
    (message : list F) :
  handle_step_data st lc proc_id message = Done (st', lc') ->
  exists sd k totals rews avg acc t,
    decode_step_data message = Done sd
    /\ record_rewards (ep_rews st) proc_id (sd_n_agents sd) (sd_rews sd)
       = Done (k, totals, rews)
    /\ (if truthy (sd_done sd)
        then exists a, episode_average (average_reward st) totals = Done a
                       /\ avg = Some a /\ acc = [f_zero]
        else avg = average_reward st /\ acc = totals)
    /\ trajectory_map st !! proc_id = Some t
    /\ st' = set_trajectories
               (set_ep_rews (set_average_reward st avg)
                  (<[proc_id := acc]> (ep_rews st)))
               (<[proc_id := write_inbound t rews (sd_next_observation sd)
                                (sd_done sd)]> (trajectory_map st))
               (completed_trajectories st)
    /\ lc' = mkLocals (l_n_collected lc + k) (l_buffer_ptr lc)
               (l_next_obs lc ++ [sd_next_observation sd])
               (l_next_pids lc ++ [proc_id]).
Proof.
  unfold handle_step_data. intros E.
  inv_bind E. rename x into sd. inv_bind E. destruct x as [[k totals] rews].
  inv_bind E. destruct x as [avg acc]. inv_bind E. rename x into t.
  apply py_key_done in Ex2. injection E as <- <-.
  exists sd, k, totals, rews, avg, acc, t.
  repeat split; try assumption.
  destruct (truthy (sd_done sd)).
  - inv_bind Ex1. injection Ex1 as <- <-. eauto.
  - injection Ex1 as <- <-. auto.
Qed.

(** A successful [record_rewards] has found the accumulator of the
    worker. *)
Lemma record_rewards_key (e : list (list F)) (proc_id : nat) (n_agents k : Z)
    (rews totals : list F) (r : Reward F) :
  record_rewards e proc_id n_agents rews = Done (k, totals, r) ->
  (proc_id < length e)%nat.
Proof.
  unfold record_rewards. intros E. destruct (1 <? n_agents).
  - inv_bind E. apply py_key_done in Ex. eapply lookup_lt_Some; eauto.
  - inv_bind E. inv_bind E. apply py_key_done in Ex0.
    eapply lookup_lt_Some; eauto.
Qed.

(** Claim C2.  When a message whose done flag is true has been handled, the
    accumulator of its worker is the single entry 0, and the global average
    was updated from the totals the accumulator held (this message's rewards
    included): an undefined average is seeded with the first total; a
    defined one is smoothed with every total in accumulator order by
    [avg * 0.9 + total * 0.1].  In particular a fresh tracker takes the
    first total [r0] as it is, and an average [r0] met by the single total
    [r1] becomes [r0 * 0.9 + r1 * 0.1]. *)
Theorem average_reward_on_done (st st' : Mgr) (lc lc' : Locals F)
    (proc_id : nat) (message : list F) (sd : StepData F) :
  handle_step_data st lc proc_id message = Done (st', lc') ->
  decode_step_data message = Done sd ->
  truthy (sd_done sd) = true ->
  exists k totals rews,
    record_rewards (ep_rews st) proc_id (sd_n_agents sd) (sd_rews sd)
      = Done (k, totals, rews)
    /\ ep_rews st' !! proc_id = Some [f_zero]
    /\ match average_reward st with
       | None =>
           exists r0, totals !! 0%nat = Some r0 /\ average_reward st' = Some r0
       | Some avg =>
           average_reward st' =
           Some (fold_left
                   (fun a total => f_add (f_mul a f_0_9) (f_mul total f_0_1))
                   totals avg)
       end
    /\ (forall r0 r1,
          average_reward st = Some r0 -> totals = [r1] ->
          average_reward st' = Some (f_add (f_mul r0 f_0_9) (f_mul r1 f_0_1))).
Proof.
  intros E Hsd Hdone.
  destruct (handle_step_data_inv _ _ _ _ _ _ E)
    as (sd' & k & totals & rews & avg & acc & t & Hd & Hr & Havg & Ht & -> & _).
  rewrite Hsd in Hd. injection Hd as <-. rewrite Hdone in Havg.
  destruct Havg as (a & Ha & -> & ->).
  exists k, totals, rews. split; [exact Hr|]. split.
  - simpl. apply list_lookup_insert_eq. eapply record_rewards_key; eauto.
  - simpl. unfold episode_average in Ha.
    destruct (average_reward st) as [avg|].
    + injection Ha as <-. split; [reflexivity|].
      intros r0 r1 [= ->] ->. reflexivity.
    + apply py_get_done in Ha. split; [eauto|]. intros r0 r1 [=].
Qed.
End Messages.

(** The second episode of the worker ends with the total 2, which moves the
    average from 3 to 3 * 0.9 + 2 * 0.1 = 2.9. *)
Lemma average_reward_on_done_witness :
  exists st' lc' sd,
    handle_step_data second_episode (fresh_locals 0) 0%nat terminal_payload
      = Done (st', lc')
    /\ decode_step_data terminal_payload = Done sd
    /\ truthy (sd_done sd) = true
    /\ average_reward st' = Some (29 # 10)%Q
    /\ exists k totals rews,
         record_rewards (ep_rews second_episode) 0%nat (sd_n_agents sd)
           (sd_rews sd) = Done (k, totals, rews)
         /\ ep_rews st' !! 0%nat = Some [f_zero]
         /\ average_reward st' =
            Some (fold_left
                    (fun a total => f_add (f_mul a f_0_9) (f_mul total f_0_1))
                    totals 3%Q)
         /\ (forall r0 r1,
               Some 3%Q = Some r0 -> totals = [r1] ->
               average_reward st' =
               Some (f_add (f_mul r0 f_0_9) (f_mul r1 f_0_1))).
Proof.
  eexists _, _, _. split; [reflexivity|]. split; [reflexivity|].
  split; [reflexivity|]. split; [reflexivity|].
  exact (average_reward_on_done second_episode _ (fresh_locals 0) _ 0%nat
           terminal_payload _ eq_refl eq_refl eq_refl).
Defined.

(** ** Slices *)

Lemma py_bound_nonneg (len : nat) (i : Z) :
  0 <= i -> py_bound len i = Nat.min (Z.to_nat i) len.
Proof.
  intros Hi. unfold py_bound.
  destruct (Z.ltb_spec i 0); [lia|]. lia.
Qed.

Lemma py_bound_le (len : nat) (i : Z) : (py_bound len i <= len)%nat.
Proof. unfold py_bound. destruct (Z.ltb_spec i 0); lia. Qed.

Lemma py_slice_from_nonneg {A : Type} (l : list A) (a : Z) :
  0 <= a -> py_slice_from l a = drop (Z.to_nat a) l.
Proof.
  intros Ha. unfold py_slice_from. rewrite py_bound_nonneg by exact Ha.
  destruct (Nat.le_gt_cases (length l) (Z.to_nat a)) as [Hge|Hlt].
  - rewrite Nat.min_r by exact Hge. rewrite !drop_ge; auto.
  - rewrite Nat.min_l by lia. reflexivity.
Qed.

Lemma py_slice_nonneg {A : Type} (l : list A) (a b : Z) :
  0 <= a -> 0 <= b ->
  py_slice l a b = take (Z.to_nat b - Z.to_nat a) (drop (Z.to_nat a) l).
Proof.
  intros Ha Hb. unfold py_slice. rewrite !py_bound_nonneg by assumption.
  destruct (Nat.le_gt_cases (length l) (Z.to_nat a)) as [Hge|Hlt].
  - rewrite (Nat.min_r _ _ Hge). rewrite !drop_ge by lia.
    rewrite !take_nil. reflexivity.
  - rewrite (Nat.min_l (Z.to_nat a)) by lia.
    destruct (Nat.le_gt_cases (length l) (Z.to_nat b)) as [Hgb|Hlb].
    + rewrite (Nat.min_r _ _ Hgb).
      rewrite !take_ge; auto; rewrite length_drop; lia.
    + rewrite (Nat.min_l (Z.to_nat b)) by lia. reflexivity.
Qed.

(** An empty range of bounds gives an empty slice. *)
Lemma py_slice_empty {A : Type} (l : list A) (a b : Z) :
  (py_bound (length l) b <= py_bound (length l) a)%nat -> py_slice l a b = [].
Proof.
  intros Hle. unfold py_slice.
  replace (py_bound (length l) b - py_bound (length l) a)%nat with 0%nat by lia.
  apply take_0.
Qed.

(** ** Decoding *)

Section Decoding.
Context {F : Type} `{Scalar F} `{Numpy F}.

(** Claim C8.  A payload laid out as [done, n_shape_dims, shape_dims...,
    rest], in which [n_shape_dims] is the number of shape dimensions that
    follow it and the first dimension of a shape of several dimensions is
    not negative, is decoded as follows.  With more than one shape dimension
    [n_agents] is the first of them and the state shape is the list of
    them; with one, [n_agents] is 1 and the state shape is [1, shape_dims[0]].
    The first [n_agents] elements of the rest are the rewards, and what
    follows them is handed to [reshape] with the state shape to give the next
    observation (decoding fails exactly when that [reshape] does). *)
Theorem decode_step_data_layout (done nd : F) (enc_dims rest : list F)
    (shape_dims : list Z) (d0 : Z) :
  f_int nd = Some (Z.of_nat (length enc_dims)) ->
  py_ints enc_dims = Done shape_dims ->
  shape_dims !! 0%nat = Some d0 ->
  ((1 < length enc_dims)%nat -> 0 <= d0) ->
  let n_agents := if (1 <? length enc_dims)%nat then d0 else 1 in
  let state_shape :=
    if (1 <? length enc_dims)%nat then shape_dims else [1; d0] in
  decode_step_data (done :: nd :: enc_dims ++ rest) =
  bind (py_reshape (drop (Z.to_nat n_agents) rest) state_shape)
       (fun next_observation =>
          Done (mkStepData done n_agents state_shape
                  (take (Z.to_nat n_agents) rest) next_observation)).
Proof.
  intros Hnd Hdims Hd0 Hpos n_agents state_shape.
  unfold decode_step_data. cbn [py_get lookup list_lookup bind].
  unfold py_int. rewrite Hnd. cbn [bind].
  set (n := length enc_dims) in *.
  assert (Hslice : py_slice (done :: nd :: enc_dims ++ rest) 2 (2 + Z.of_nat n)
                   = enc_dims).
  { rewrite py_slice_nonneg by lia.
    replace (Z.to_nat (2 + Z.of_nat n) - Z.to_nat 2)%nat with n by lia.
    change (Z.to_nat 2) with 2%nat. cbn [drop].
    subst n. apply take_app_length. }
  rewrite Hslice, Hdims. cbn [bind].
  apply py_get_done in Hd0. rewrite Hd0. cbn [bind].
  assert (Hone : (Z.of_nat n =? 1) = negb (1 <? n)%nat).
  { destruct (Z.eqb_spec (Z.of_nat n) 1), (Nat.ltb_spec 1 n); try reflexivity;
      try lia.
    exfalso. apply py_get_done in Hd0.
    assert (n = 0%nat) by lia.
    assert (enc_dims = []) by (apply length_zero_iff_nil; assumption).
    subst enc_dims. simpl in Hdims. injection Hdims as <-. discriminate. }
  assert (Hna : 0 <= n_agents).
  { subst n_agents. destruct (Nat.ltb_spec 1 n); [auto|lia]. }
  assert (Hsame_n : (if Z.of_nat n =? 1 then 1 else d0) = n_agents).
  { subst n_agents. rewrite Hone. destruct (1 <? n)%nat; reflexivity. }
  assert (Hsame_s : (if Z.of_nat n =? 1 then [1; d0] else shape_dims)
                    = state_shape).
  { subst state_shape. rewrite Hone. destruct (1 <? n)%nat; reflexivity. }
  rewrite Hsame_n, Hsame_s.
  assert (Hrews :
    py_slice (done :: nd :: enc_dims ++ rest) (2 + Z.of_nat n)
      (2 + Z.of_nat n + n_agents) = take (Z.to_nat n_agents) rest).
  { rewrite py_slice_nonneg by lia.
    replace (Z.to_nat (2 + Z.of_nat n + n_agents) - Z.to_nat (2 + Z.of_nat n))%nat
      with (Z.to_nat n_agents) by lia.
    replace (Z.to_nat (2 + Z.of_nat n)) with (S (S n)) by lia.
    cbn [drop]. subst n. rewrite drop_app_length. reflexivity. }
  assert (Hobs :
    py_slice_from (done :: nd :: enc_dims ++ rest) (2 + Z.of_nat n + n_agents)
    = drop (Z.to_nat n_agents) rest).
  { rewrite py_slice_from_nonneg by lia.
    replace (Z.to_nat (2 + Z.of_nat n + n_agents))
      with (S (S (n + Z.to_nat n_agents))) by lia.
    cbn [drop]. subst n. rewrite <- drop_drop, drop_app_length. reflexivity. }
  rewrite Hrews, Hobs. reflexivity.
Qed.
End Decoding.

(** Two agents: the first dimension is the agent count. *)
Lemma decode_step_data_layout_witness :
  f_int 2%Q = Some (Z.of_nat (length [2%Q; 3%Q]))
  /\ py_ints [2%Q; 3%Q] = Done [2; 3]
  /\ [2; 3] !! 0%nat = Some 2
  /\ ((1 < length [2%Q; 3%Q])%nat -> 0 <= 2)
  /\ decode_step_data two_agent_payload =
     Done (mkStepData 0%Q 2 [2; 3] [4%Q; 5%Q]
             (mkArray [2%nat; 3%nat]
                [10%Q; 11%Q; 12%Q; 20%Q; 21%Q; 22%Q])).
Proof.
  split; [reflexivity|]. split; [reflexivity|]. split; [reflexivity|].
  split; [intros _; lia|].
  exact (eq_trans
           (decode_step_data_layout 0%Q 2%Q [2%Q; 3%Q]
              [4%Q; 5%Q; 10%Q; 11%Q; 12%Q; 20%Q; 21%Q; 22%Q] [2; 3] 2
              eq_refl eq_refl eq_refl (fun _ => ltac:(lia)))
           eq_refl).
Defined.

(** ** A collection round *)

Section Rounds.
Context {F : Type} `{Scalar F} `{CommConsts F} `{Numpy F}.
Context {Act Lp : Type} `{Policy F Act Lp}.

Local Abbreviation Mgr := (Manager F Act Lp).
Local Abbreviation Log := (list (IOEvent F Act)).

Lemma record_rewards_count (e : list (list F)) (proc_id : nat)
    (n_agents k : Z) (rews totals : list F) (r : Reward F) :
  record_rewards e proc_id n_agents rews = Done (k, totals, r) ->
  k = (if 1 <? n_agents then n_agents else 1)
  /\ (n_agents <= 1 -> rews <> []).
Proof.
  unfold record_rewards. intros E. destruct (Z.ltb_spec 1 n_agents).
  - inv_bind E. inv_bind E. injection E as <- _ _. split; [reflexivity|lia].
  - inv_bind E. inv_bind E. inv_bind E. injection E as <- _ _.
    split; [reflexivity|]. intros _ ->. discriminate.
Qed.

(** The rewards of a decoded payload are a slice of [n_agents] bounds. *)
Lemma decode_step_data_rews (message : list F) (sd : StepData F) :
  decode_step_data message = Done sd ->
  exists rew_start,
    sd_rews sd = py_slice message rew_start (rew_start + sd_n_agents sd).
Proof.
  unfold decode_step_data. intros E.
  inv_bind E. inv_bind E. inv_bind E. inv_bind E. inv_bind E. inv_bind E.
  injection E as <-. simpl. eauto.
Qed.

(** A handled message adds its agent count to the running count. *)
Lemma handle_step_data_count (st st' : Mgr) (lc lc' : Locals F)
    (proc_id : nat) (message : list F) (sd : StepData F) :
  handle_step_data st lc proc_id message = Done (st', lc') ->
  decode_step_data message = Done sd ->
  0 <= sd_n_agents sd ->
  1 <= sd_n_agents sd
  /\ l_n_collected lc' = l_n_collected lc + sd_n_agents sd.
Proof.
  intros E Hsd Hpos.
  destruct (handle_step_data_inv _ _ _ _ _ _ E)
    as (sd' & k & totals & rews & avg & acc & t & Hd & Hr & _ & _ & _ & ->).
  rewrite Hsd in Hd. injection Hd as <-.
  destruct (record_rewards_count _ _ _ _ _ _ _ Hr) as [-> Hne].
  destruct (decode_step_data_rews _ _ Hsd) as [rs Hrs].
  assert (1 <= sd_n_agents sd).
  { destruct (Z.eq_dec (sd_n_agents sd) 0) as [E0|]; [|lia].
    exfalso. apply Hne; [lia|]. rewrite Hrs, E0.
    apply py_slice_empty. rewrite Z.add_0_r. lia. }
  split; [assumption|]. simpl.
  destruct (Z.ltb_spec 1 (sd_n_agents sd)); lia.
Qed.

(** The loop stops at the first inspection after which the count has
    reached the threshold. *)
Lemma collect_loop_stops (inbox : list (option (list F))) (n_obs : Z)
    (st st' : Mgr) (lc lc' : Locals F) (log log' : Log)
    (inbox' : list (option (list F))) :
  collect_loop inbox n_obs st lc log = Done (st', lc', log', inbox') ->
  n_obs <= l_n_collected lc'
  /\ exists consumed,
       inbox = consumed ++ inbox'
       /\ collect_loop consumed n_obs st lc log = Done (st', lc', log', [])
       /\ forall pre post,
            consumed = pre ++ post -> post <> [] ->
            collect_loop pre n_obs st lc log = Pending.
Proof.
  revert st lc log. induction inbox as [|ev inbox IH]; intros st lc log E.
  - simpl in E. destruct (Z.ltb_spec (l_n_collected lc) n_obs);
      [discriminate|]. injection E as <- <- <- <-.
    split; [assumption|]. exists []. split; [reflexivity|]. split.
    + simpl. destruct (Z.ltb_spec (l_n_collected lc) n_obs);
        [lia|reflexivity].
    + intros pre post Hc Hp. destruct pre, post; try discriminate. congruence.
  - cbn [collect_loop] in E.
    destruct (Z.ltb_spec (l_n_collected lc) n_obs) as [Hlt|Hge].
    + inv_bind E. destruct x as [[st1 lc1] log1].
      destruct (IH _ _ _ E) as (Hle & consumed & -> & Hrun & Hpre).
      split; [assumption|]. exists (ev :: consumed).
      split; [reflexivity|]. split.
      * cbn [collect_loop]. destruct (Z.ltb_spec (l_n_collected lc) n_obs);
          [|lia]. rewrite Ex. exact Hrun.
      * intros pre post Hc Hp. destruct pre as [|ev' pre].
        -- simpl. destruct (Z.ltb_spec (l_n_collected lc) n_obs);
             [reflexivity|lia].
        -- injection Hc as <- Hc. cbn [collect_loop].
           destruct (Z.ltb_spec (l_n_collected lc) n_obs); [|lia].
           rewrite Ex. simpl. eapply Hpre; eauto.
    + injection E as <- <- <- <-. split; [assumption|]. exists [].
      split; [reflexivity|]. split.
      * simpl. destruct (Z.ltb_spec (l_n_collected lc) n_obs);
          [lia|reflexivity].
      * intros pre post Hc Hp. destruct pre, post; try discriminate. congruence.
Qed.
Lemma collect_responses_inv (st st' : Mgr) (log log' : Log)
    (inbox inbox' : list (option (list F)))
    (next_obs obs : list (NDArray F)) (next_pids pids : list nat)
    (n_obs k : Z) :
  collect_responses st log inbox next_obs next_pids n_obs
    = Done (st', obs, pids, k, log', inbox') ->
  exists st1 lc,
    collect_loop inbox n_obs st
      (mkLocals 0 (buffer_ptr st) next_obs next_pids) log
      = Done (st1, lc, log', inbox')
    /\ st' = set_buffer_ptr st1 (l_buffer_ptr lc)
    /\ obs = l_next_obs lc /\ pids = l_next_pids lc /\ k = l_n_collected lc.
Proof.
  unfold collect_responses. intros E. inv_bind E.
  destruct x as [[[st1 lc] log1] inbox1]. injection E as <- <- <- <- <- <-.
  exists st1, lc. auto.
Qed.

End Rounds.

(** ** Exceptions *)

Lemma raises_bind {A B : Type} (m : Outcome A) (k : A -> Outcome B) :
  raises m -> raises (bind m k).
Proof. intros [e ->]. exists e. reflexivity. Qed.

Lemma raises_not_returns {A : Type} (m : Outcome A) : raises m -> ~ returns m.
Proof. intros [e ->] [a Ha]. discriminate. Qed.

Section Errors.
Context {F : Type} `{Scalar F} `{CommConsts F} `{Numpy F}.
Context {Act Lp : Type} `{Policy F Act Lp}.

Local Abbreviation Mgr := (Manager F Act Lp).
Local Abbreviation Log := (list (IOEvent F Act)).

Lemma py_ints_settled (xs : list F) : py_ints xs <> Pending.
Proof.
  induction xs as [|x xs IH]; simpl; [discriminate|].
  unfold py_int. destruct (f_int x); simpl;
    [|destruct (f_isinf x); discriminate].
  destruct (py_ints xs); simpl; congruence.
Qed.

(** Without rewards the loop over the agents fails at its first index. *)
Lemma add_agent_rewards_no_rewards (idx : list nat) (acc : list F) :
  raises (add_agent_rewards (0%nat :: idx) [] acc).
Proof.
  cbn [add_agent_rewards]. apply raises_bind.
  destruct (length acc <=? 0)%nat eqn:E.
  - exists IndexError. reflexivity.
  - apply Nat.leb_gt in E. destruct acc as [|a acc]; [simpl in E; lia|].
    exists IndexError. reflexivity.
Qed.

Lemma record_rewards_no_rewards (e : list (list F)) (proc_id : nat)
    (n_agents : Z) :
  raises (record_rewards e proc_id n_agents []).
Proof.
  unfold record_rewards. destruct (Z.ltb_spec 1 n_agents).
  - unfold py_key. destruct (e !! proc_id) as [acc|]; simpl;
      [|exists KeyError; reflexivity].
    apply raises_bind.
    destruct (Z.to_nat n_agents) as [|m] eqn:E; [lia|].
    cbn [seq]. apply add_agent_rewards_no_rewards.
  - exists IndexError. reflexivity.
Qed.

(** A payload that declares more shape dimensions than it carries is not
    handled: an exception is raised. *)
Lemma truncated_payload_raises (st : Mgr) (lc : Locals F) (proc_id : nat)
    (done nd : F) (enc_dims : list F) (n : Z) :
  f_int nd = Some n ->
  Z.of_nat (length enc_dims) < n ->
  raises (handle_step_data st lc proc_id (done :: nd :: enc_dims)).
Proof.
  intros Hnd Hlt. unfold handle_step_data, decode_step_data.
  cbn [py_get lookup list_lookup bind]. unfold py_int. rewrite Hnd.
  cbn [bind].
  assert (Hs : py_slice (done :: nd :: enc_dims) 2 (2 + n) = enc_dims).
  { rewrite py_slice_nonneg by lia. change (Z.to_nat 2) with 2%nat.
    cbn [drop]. apply take_ge. lia. }
  rewrite Hs.
  destruct (py_ints enc_dims) as [dims|e|] eqn:Ed; cbn [bind];
    [|exists e; reflexivity|exfalso; eapply py_ints_settled; eauto].
  destruct (py_get dims 0%nat) as [d0|e|] eqn:E0; cbn [bind];
    [|exists e; reflexivity|unfold py_get in E0; destruct (dims !! 0%nat);
                             discriminate].
  set (n_agents := if n =? 1 then 1 else d0).
  assert (Hr : py_slice (done :: nd :: enc_dims) (2 + n) (2 + n + n_agents)
               = []).
  { apply py_slice_empty.
    rewrite (py_bound_nonneg _ (2 + n)) by lia.
    rewrite Nat.min_r by (simpl; lia). apply py_bound_le. }
  rewrite Hr. unfold py_reshape.
  destruct (np_reshape _ _) as [obs|]; cbn [bind];
    [|exists ValueError; reflexivity].
  cbn [sd_n_agents sd_rews].
  apply raises_bind. apply record_rewards_no_rewards.
Qed.

(** A message under another header is dropped and nothing but the cursor
    changes. *)
Lemma inspect_unknown_header (st : Mgr) (lc : Locals F) (log : Log)
    (available_data : list F) (w : WorkerHandle) (h0 e0 : F) :
  processes st !! l_buffer_ptr lc = Some w ->
  take HEADER_LEN available_data !! 0%nat = Some h0 ->
  ENV_STEP_DATA_HEADER !! 0%nat = Some e0 ->
  f_eqb h0 e0 = false ->
  inspect st lc log (Some available_data) =
  Done (st,
        mkLocals (l_n_collected lc)
          (advance (n_procs st) (l_buffer_ptr lc))
          (l_next_obs lc) (l_next_pids lc),
        log ++ [Polled (l_buffer_ptr lc) true;
                Received (l_buffer_ptr lc) available_data]).
Proof.
  intros Hw Hh He Hne. unfold inspect, py_key, py_get.
  rewrite Hw, Hh, He. cbn [bind]. rewrite Hne. reflexivity.
Qed.

Lemma inspect_truncated_payload (st : Mgr) (lc : Locals F) (log : Log)
    (header : list F) (done nd : F) (enc_dims : list F) (n : Z) (h0 e0 : F) :
  length header = HEADER_LEN ->
  header !! 0%nat = Some h0 ->
  ENV_STEP_DATA_HEADER !! 0%nat = Some e0 ->
  f_eqb h0 e0 = true ->
  f_int nd = Some n ->
  Z.of_nat (length enc_dims) < n ->
  raises (inspect st lc log (Some (header ++ done :: nd :: enc_dims))).
Proof.
  intros Hlen Hh He Heq Hnd Hlt. unfold inspect, py_key.
  destruct (processes st !! l_buffer_ptr lc); cbn [bind];
    [|exists KeyError; reflexivity].
  rewrite <- Hlen, take_app_length, drop_app_length.
  unfold py_get at 1 2. rewrite Hh, He. cbn [bind]. rewrite Heq.
  apply raises_bind. eapply truncated_payload_raises; eauto.
Qed.

(** An exception raised by an inspection ends the round with it. *)
Lemma collect_loop_raise (ev : option (list F))
    (inbox : list (option (list F))) (n_obs : Z) (st : Mgr) (lc : Locals F)
    (log : Log) (e : PyExc) :
  l_n_collected lc < n_obs ->
  inspect st lc log ev = Raise e ->
  collect_loop (ev :: inbox) n_obs st lc log = Raise e.
Proof.
  intros Hlt E. cbn [collect_loop].
  destruct (Z.ltb_spec (l_n_collected lc) n_obs); [|lia].
  rewrite E. reflexivity.
Qed.
Lemma collect_responses_raise (ev : option (list F))
    (inbox : list (option (list F))) (n_obs : Z) (st : Mgr) (log : Log)
    (next_obs : list (NDArray F)) (next_pids : list nat) (e : PyExc) :
  0 < n_obs ->
  inspect st (mkLocals 0 (buffer_ptr st) next_obs next_pids) log ev
    = Raise e ->
  collect_responses st log (ev :: inbox) next_obs next_pids n_obs = Raise e.
Proof.
  intros Hpos E. unfold collect_responses.
  rewrite (collect_loop_raise ev inbox n_obs st _ log e); auto.
Qed.

(** An exception raised by a round ends [collect_timesteps] with it. *)
Lemma collect_timesteps_raise (fuel : nat) (st st1 : Mgr) (log log1 : Log)
    (inbox : list (option (list F))) (n : Z) (e : PyExc) :
  0 < n ->
  send_actions st log = Done (st1, log1) ->
  collect_responses st1 log1 inbox [] [] (n_obs_per_inference st) = Raise e ->
  collect_timesteps (S fuel) st log inbox n = Raise e.
Proof.
  intros Hn Hs Hr. unfold collect_timesteps. cbn [timestep_loop c_n_collected].
  destruct (Z.ltb_spec 0 n); [|lia].
  cbn [c_manager c_log c_inbox]. rewrite Hs. cbn [bind]. rewrite Hr.
  reflexivity.
Qed.

(** A recognised message is handled, whatever the rest of its header. *)
Lemma inspect_step_header (st : Mgr) (lc : Locals F) (log : Log)
    (available_data : list F) (w : WorkerHandle) (h0 e0 : F) :
  processes st !! l_buffer_ptr lc = Some w ->
  take HEADER_LEN available_data !! 0%nat = Some h0 ->
  ENV_STEP_DATA_HEADER !! 0%nat = Some e0 ->
  f_eqb h0 e0 = true ->
  inspect st lc log (Some available_data) =
  do (st', lc') <-
    handle_step_data st
      (mkLocals (l_n_collected lc) (advance (n_procs st) (l_buffer_ptr lc))
         (l_next_obs lc) (l_next_pids lc))
      (l_buffer_ptr lc) (drop HEADER_LEN available_data);
  Done (st', lc',
        log ++ [Polled (l_buffer_ptr lc) true;
                Received (l_buffer_ptr lc) available_data]).
Proof.
  intros Hw Hh He Heq. unfold inspect, py_key, py_get.
  rewrite Hw, Hh, He. cbn [bind]. rewrite Heq. reflexivity.
Qed.

(** The loop of a round goes on from the state its passes have reached. *)
Lemma collect_loop_passes (pre rest : list (option (list F))) (n_obs : Z)
    (st st1 : Mgr) (lc lc1 : Locals F) (log log1 : Log) :
  passes pre n_obs st lc log = Some (st1, lc1, log1) ->
  collect_loop (pre ++ rest) n_obs st lc log
  = collect_loop rest n_obs st1 lc1 log1.
Proof.
  revert st lc log. induction pre as [|ev pre IH]; intros st lc log E.
  - simpl in E. injection E as <- <- <-. reflexivity.
  - cbn [passes] in E. cbn [app collect_loop].
    destruct (l_n_collected lc <? n_obs); [|discriminate].
    destruct (inspect st lc log ev) as [[[st' lc'] log']| |];
      try discriminate.
    cbn [bind]. apply IH. exact E.
Qed.

(** An exception raised by any inspection of a round ends the round with
    it. *)
Lemma collect_responses_raise_later (pre : list (option (list F)))
    (ev : option (list F)) (rest : list (option (list F))) (n_obs : Z)
    (st st1 : Mgr) (log log1 : Log) (lc1 : Locals F)
    (next_obs : list (NDArray F)) (next_pids : list nat) (e : PyExc) :
  passes pre n_obs st (mkLocals 0 (buffer_ptr st) next_obs next_pids) log
    = Some (st1, lc1, log1) ->
  l_n_collected lc1 < n_obs ->
  inspect st1 lc1 log1 ev = Raise e ->
  collect_responses st log (pre ++ ev :: rest) next_obs next_pids n_obs
  = Raise e.
Proof.
  intros Hp Hlt E. unfold collect_responses.
  rewrite (collect_loop_passes _ _ _ _ _ _ _ _ _ Hp).
  rewrite (collect_loop_raise ev rest n_obs st1 lc1 log1 e Hlt E).
  reflexivity.
Qed.

(** The loop of [collect_timesteps], one pass at a time. *)
Lemma timestep_loop_one_round (fuel : nat) (n n_obs : Z)
    (c : Collected F Act Lp) :
  timestep_loop (S fuel) n n_obs c =
  if c_n_collected c <? n then
    do c' <- one_round n_obs c; timestep_loop fuel n n_obs c'
  else Done c.
Proof.
  cbn [timestep_loop]. destruct (c_n_collected c <? n); [|reflexivity].
  unfold one_round.
  destruct (send_actions (c_manager c) (c_log c)) as [[st1 log1]| |];
    cbn [bind]; try reflexivity.
  destruct (collect_responses st1 log1 (c_inbox c) [] [] n_obs)
    as [[[[[[st2 next_obs] next_pids] k] log2] inbox2]| |];
    cbn [bind]; reflexivity.
Qed.

Lemma timestep_loop_rounds (j fuel : nat) (n n_obs : Z)
    (c c1 : Collected F Act Lp) :
  rounds j n n_obs c = Some c1 ->
  timestep_loop (j + fuel) n n_obs c = timestep_loop fuel n n_obs c1.
Proof.
  revert c. induction j as [|j IH]; intros c E.
  - simpl in E. injection E as <-. reflexivity.
  - cbn [rounds] in E. change (S j + fuel)%nat with (S (j + fuel)).
    rewrite timestep_loop_one_round.
    destruct (c_n_collected c <? n); [|discriminate].
    destruct (one_round n_obs c) as [c'| |]; try discriminate.
    cbn [bind]. apply IH. exact E.
Qed.

(** An exception raised by any round of a call ends the call with it. *)
Lemma collect_timesteps_raise_later (j fuel : nat) (st st1 : Mgr)
    (log log1 : Log) (inbox : list (option (list F))) (n : Z)
    (c1 : Collected F Act Lp) (e : PyExc) :
  rounds j n (n_obs_per_inference st) (mkCollected st log inbox 0 [])
    = Some c1 ->
  c_n_collected c1 < n ->
  send_actions (c_manager c1) (c_log c1) = Done (st1, log1) ->
  collect_responses st1 log1 (c_inbox c1) [] [] (n_obs_per_inference st)
    = Raise e ->
  collect_timesteps (j + S fuel) st log inbox n = Raise e.
Proof.
  intros Hr Hlt Hs Hc. unfold collect_timesteps.
  rewrite (timestep_loop_rounds _ _ _ _ _ _ Hr).
  cbn [timestep_loop]. destruct (Z.ltb_spec (c_n_collected c1) n); [|lia].
  rewrite Hs. cbn [bind]. rewrite Hc. reflexivity.
Qed.

(** Claim C6, as the code has it.  A message is recognised by the first
    element of its header alone.  A message whose first header element
    differs from that of the env-step-data header is dropped without a trace
    in the manager (only the cursor moves, nothing is recorded about the
    message but its receipt) and polling goes on; a message whose first
    header element agrees with it is handled as env-step-data whatever the
    rest of its header.  A recognised message that declares more shape
    dimensions than its payload carries raises an exception.  No exception
    is caught anywhere: one raised while a message is inspected, at
    whichever pass of the loop, ends the round, and one raised by a round,
    whichever round of the call it is, ends [collect_timesteps]. *)
Theorem protocol_error_propagates :
  (forall (st : Mgr) (lc : Locals F) (log : Log) available_data w h0 e0,
     processes st !! l_buffer_ptr lc = Some w ->
     take HEADER_LEN available_data !! 0%nat = Some h0 ->
     ENV_STEP_DATA_HEADER !! 0%nat = Some e0 ->
     (f_eqb h0 e0 = false ->
      inspect st lc log (Some available_data) =
      Done (st,
            mkLocals (l_n_collected lc)
              (advance (n_procs st) (l_buffer_ptr lc))
              (l_next_obs lc) (l_next_pids lc),
            log ++ [Polled (l_buffer_ptr lc) true;
                    Received (l_buffer_ptr lc) available_data]))
     /\ (f_eqb h0 e0 = true ->
         inspect st lc log (Some available_data) =
         do (st', lc') <-
           handle_step_data st
             (mkLocals (l_n_collected lc)
                (advance (n_procs st) (l_buffer_ptr lc))
                (l_next_obs lc) (l_next_pids lc))
             (l_buffer_ptr lc) (drop HEADER_LEN available_data);
         Done (st', lc',
               log ++ [Polled (l_buffer_ptr lc) true;
                       Received (l_buffer_ptr lc) available_data])))
  /\ (forall (st : Mgr) (lc : Locals F) (log : Log) header done nd enc_dims
             n h0 e0,
        length header = HEADER_LEN ->
        header !! 0%nat = Some h0 ->
        ENV_STEP_DATA_HEADER !! 0%nat = Some e0 ->
        f_eqb h0 e0 = true ->
        f_int nd = Some n ->
        Z.of_nat (length enc_dims) < n ->
        raises (inspect st lc log (Some (header ++ done :: nd :: enc_dims))))
  /\ (forall pre ev rest n_obs (st st1 : Mgr) (log log1 : Log) lc1
             next_obs next_pids e,
        passes pre n_obs st (mkLocals 0 (buffer_ptr st) next_obs next_pids)
          log = Some (st1, lc1, log1) ->
        l_n_collected lc1 < n_obs ->
        inspect st1 lc1 log1 ev = Raise e ->
        collect_responses st log (pre ++ ev :: rest) next_obs next_pids n_obs
          = Raise e)
  /\ (forall j fuel (st st1 : Mgr) (log log1 : Log) inbox n c1 e,
        rounds j n (n_obs_per_inference st) (mkCollected st log inbox 0 [])
          = Some c1 ->
        c_n_collected c1 < n ->
        send_actions (c_manager c1) (c_log c1) = Done (st1, log1) ->
        collect_responses st1 log1 (c_inbox c1) [] []
          (n_obs_per_inference st) = Raise e ->
        collect_timesteps (j + S fuel) st log inbox n = Raise e)
  /\ (forall fuel n n_obs (c : Collected F Act Lp),
        timestep_loop (S fuel) n n_obs c =
        if c_n_collected c <? n then
          do c' <- one_round n_obs c; timestep_loop fuel n n_obs c'
        else Done c).
Proof.
  split; [|split; [|split; [|split]]].
  - intros st lc log data w h0 e0 Hw Hh He. split; intros Heq.
    + eapply inspect_unknown_header; eauto.
    + eapply inspect_step_header; eauto.
  - intros. eapply inspect_truncated_payload; eauto.
  - intros. eapply collect_responses_raise_later; eauto.
  - intros. eapply collect_timesteps_raise_later; eauto.
  - intros. apply timestep_loop_one_round.
Qed.
End Errors.

(** The truncated message ends the round and the call with the
    [ValueError] of [reshape], although the answers that follow it would have
    completed the round had the message been dropped; it does so as the
    second answer of a round as well, and in the second round of a call. *)
Lemma protocol_error_aborts_collection :
  collect_responses two_workers [] (Some truncated_message :: round_inbox)
    [] [] 2 = Raise ValueError
  /\ collect_timesteps 5 two_workers [] (Some truncated_message :: round_inbox)
       2 = Raise ValueError
  /\ returns
       (collect_responses (set_buffer_ptr two_workers 1) [] round_inbox
          [] [] 2)
  /\ collect_responses two_workers [] late_error_inbox [] [] 2
     = Raise ValueError
  /\ collect_timesteps 5 two_workers [] second_round_error_inbox 3
     = Raise ValueError.
Proof.
  split; [reflexivity|]. split; [reflexivity|].
  split; [eexists; reflexivity|].
  split; vm_compute; reflexivity.
Qed.

Lemma first_pass_outcome_eq :
  passes [Some (step_message 0 1 3 4)] 2 two_workers (fresh_locals 0) []
  = first_pass_outcome.
Proof. vm_compute. reflexivity. Qed.

Lemma first_round_outcome_eq :
  rounds 1 3 (n_obs_per_inference two_workers)
    (mkCollected two_workers [] second_round_error_inbox 0 [])
  = first_round_outcome.
Proof. vm_compute. reflexivity. Qed.

(** An unknown message is passed over; the truncated message raises, as the
    second answer of a round and in the second round of a call. *)
Lemma protocol_error_propagates_witness :
  (exists lc' log',
     f_eqb 1%Q 7%Q = false
     /\ inspect two_workers (fresh_locals 0) [] (Some unknown_message)
        = Done (two_workers, lc', log')
     /\ l_n_collected lc' = 0 /\ l_buffer_ptr lc' = 1%nat
     /\ l_next_obs lc' = [] /\ l_next_pids lc' = [])
  /\ (f_eqb 7%Q 7%Q = true
      /\ inspect two_workers (fresh_locals 0) []
           (Some [7%Q; 0%Q; 0%Q; 0%Q; 1%Q; 2%Q; 1%Q; 3%Q; 4%Q])
         = do (st', lc') <-
             handle_step_data two_workers (mkLocals 0 1%nat [] []) 0%nat
               [0%Q; 1%Q; 2%Q; 1%Q; 3%Q; 4%Q];
           Done (st', lc',
                 [Polled 0%nat true;
                  Received 0%nat
                    [7%Q; 0%Q; 0%Q; 0%Q; 1%Q; 2%Q; 1%Q; 3%Q; 4%Q]]))
  /\ (Z.of_nat (length [2%Q]) < 3
      /\ raises (inspect two_workers (fresh_locals 0) []
                   (Some ([7%Q; 8%Q; 9%Q] ++ 0%Q :: 3%Q :: [2%Q]))))
  /\ (exists st1 lc1 log1,
        passes [Some (step_message 0 1 3 4)] 2 two_workers (fresh_locals 0)
          [] = Some (st1, lc1, log1)
        /\ l_n_collected lc1 < 2
        /\ inspect st1 lc1 log1 (Some truncated_message) = Raise ValueError
        /\ collect_responses two_workers []
             ([Some (step_message 0 1 3 4)]
              ++ Some truncated_message :: [Some (step_message 0 1 5 6)])
             [] [] 2 = Raise ValueError)
  /\ (exists c1 st1 log1,
        rounds 1 3 (n_obs_per_inference two_workers)
          (mkCollected two_workers [] second_round_error_inbox 0 [])
          = Some c1
        /\ c_n_collected c1 < 3
        /\ send_actions (c_manager c1) (c_log c1) = Done (st1, log1)
        /\ collect_responses st1 log1 (c_inbox c1) [] []
             (n_obs_per_inference two_workers) = Raise ValueError
        /\ collect_timesteps (1 + 4) two_workers []
             second_round_error_inbox 3 = Raise ValueError).
Proof.
  destruct (@protocol_error_propagates Q _ _ _ Q Q _)
    as (Hhead & Hraise & Hround & Hcall & _).
  split; [|split; [|split; [|split]]].
  - eexists _, _. split; [reflexivity|]. split.
    + exact (proj1 (Hhead two_workers (fresh_locals 0) [] unknown_message
                      (Worker 0) 1%Q 7%Q eq_refl eq_refl eq_refl) eq_refl).
    + repeat split.
  - split; [reflexivity|].
    exact (proj2 (Hhead two_workers (fresh_locals 0) []
                    [7%Q; 0%Q; 0%Q; 0%Q; 1%Q; 2%Q; 1%Q; 3%Q; 4%Q]
                    (Worker 0) 7%Q 7%Q eq_refl eq_refl eq_refl) eq_refl).
  - assert (Hlt : Z.of_nat (length [2%Q]) < 3) by (simpl; lia).
    split; [exact Hlt|].
    exact (Hraise two_workers (fresh_locals 0) [] [7%Q; 8%Q; 9%Q] 0%Q 3%Q
             [2%Q] 3 7%Q 7%Q eq_refl eq_refl eq_refl eq_refl eq_refl Hlt).
  - pose proof first_pass_outcome_eq as E. unfold first_pass_outcome in E.
    eexists _, _, _. split; [exact E|].
    assert (Hlt : 1 < 2) by lia. split; [exact Hlt|].
    split; [reflexivity|].
    exact (Hround [Some (step_message 0 1 3 4)] (Some truncated_message)
             [Some (step_message 0 1 5 6)] 2 two_workers _ [] _ _ [] []
             ValueError E Hlt eq_refl).
  - pose proof first_round_outcome_eq as E. unfold first_round_outcome in E.
    eexists _, _, _. split; [exact E|].
    assert (Hlt : 2 < 3) by lia. split; [exact Hlt|].
    split; [reflexivity|]. split; [reflexivity|].
    exact (Hcall 1%nat 3%nat two_workers _ [] _ second_round_error_inbox 3 _
             ValueError E Hlt eq_refl eq_refl).
Defined.

(** ** The rotating cursor *)

Lemma advance_mod (n p : nat) : (p < n)%nat -> advance n p = ((p + 1) mod n)%nat.
Proof.
  intros Hp. unfold advance. destruct (Nat.leb_spec n (S p)).
  - assert (p + 1 = n)%nat as -> by lia. symmetry. apply Nat.Div0.mod_same.
  - rewrite Nat.mod_small by lia. lia.
Qed.

Lemma cursor_run_length (n p m : nat) : length (cursor_run n p m) = m.
Proof. unfold cursor_run. rewrite length_map, length_seq. reflexivity. Qed.

Lemma cursor_run_lookup (n p m i : nat) :
  (i < m)%nat -> cursor_run n p m !! i = Some ((p + i) mod n)%nat.
Proof.
  intros Hi. unfold cursor_run. rewrite list_lookup_fmap.
  rewrite lookup_seq_lt by exact Hi. reflexivity.
Qed.

Lemma cursor_run_cons (n p m : nat) :
  (p < n)%nat ->
  cursor_run n p (S m) = p :: cursor_run n ((p + 1) mod n) m.
Proof.
  intros Hp. unfold cursor_run. cbn [seq map].
  rewrite Nat.add_0_r, Nat.mod_small by exact Hp. f_equal.
  rewrite <- seq_shift, map_map. apply map_ext. intros i.
  rewrite Nat.Div0.add_mod_idemp_l. f_equal. lia.
Qed.

Lemma cursor_run_app (n p m1 m2 : nat) :
  cursor_run n p (m1 + m2) =
  cursor_run n p m1 ++ cursor_run n ((p + m1) mod n) m2.
Proof.
  unfold cursor_run. rewrite seq_app, map_app. f_equal.
  apply list_eq. intros i. rewrite !list_lookup_fmap.
  destruct (Nat.lt_ge_cases i m2) as [Hi|Hi].
  - rewrite !lookup_seq_lt by exact Hi. simpl.
    rewrite Nat.Div0.add_mod_idemp_l. do 2 f_equal. lia.
  - rewrite !lookup_seq_ge by exact Hi. reflexivity.
Qed.

(** Among [n] consecutive positions of the cursor every worker occurs, and
    occurs once. *)
Lemma cursor_run_window (n p m j w : nat) :
  (j + n <= m)%nat -> (w < n)%nat ->
  exists i,
    (j <= i < j + n)%nat
    /\ cursor_run n p m !! i = Some w
    /\ forall i', (j <= i' < j + n)%nat ->
                  cursor_run n p m !! i' = Some w -> i' = i.
Proof.
  intros Hm Hw.
  set (a := ((p + j) mod n)%nat).
  assert (Ha : (a < n)%nat) by (apply Nat.mod_upper_bound; lia).
  assert (Hpos : forall k, (k < n)%nat ->
            ((p + (j + k)) mod n)%nat
            = if (a + k <? n)%nat then (a + k)%nat else (a + k - n)%nat).
  { intros k Hk. replace (p + (j + k))%nat with (p + j + k)%nat by lia.
    rewrite <- Nat.Div0.add_mod_idemp_l. fold a.
    destruct (Nat.ltb_spec (a + k) n).
    - apply Nat.mod_small. assumption.
    - replace (a + k)%nat with ((a + k - n) + 1 * n)%nat at 1 by lia.
      rewrite Nat.Div0.mod_add. apply Nat.mod_small. lia. }
  set (k := if (a <=? w)%nat then (w - a)%nat else (w + n - a)%nat).
  assert (Hk : (k < n)%nat).
  { subst k. destruct (Nat.leb_spec a w); lia. }
  exists (j + k)%nat. split; [lia|]. split.
  - rewrite cursor_run_lookup by lia. f_equal. rewrite Hpos by exact Hk.
    subst k. destruct (Nat.leb_spec a w), (Nat.ltb_spec (a + (w - a)) n);
      try lia.
    + destruct (Nat.ltb_spec (a + (w + n - a)) n); lia.
  - intros i' Hi' Hl. rewrite cursor_run_lookup in Hl by lia.
    injection Hl as Hl.
    replace i' with (j + (i' - j))%nat in Hl by lia.
    rewrite Hpos in Hl by lia.
    subst k. destruct (Nat.leb_spec a w), (Nat.ltb_spec (a + (i' - j)) n);
      lia.
Qed.

Lemma polled_ids_app {F Act : Type} (l1 l2 : list (IOEvent F Act)) :
  polled_ids (l1 ++ l2) = polled_ids l1 ++ polled_ids l2.
Proof.
  induction l1 as [|ev l1 IH]; [reflexivity|].
  destruct ev; simpl; rewrite IH; reflexivity.
Qed.

Section Cursor.
Context {F : Type} `{Scalar F} `{CommConsts F} `{Numpy F}.
Context {Act Lp : Type} `{Policy F Act Lp}.

Local Abbreviation Mgr := (Manager F Act Lp).
Local Abbreviation Log := (list (IOEvent F Act)).

Lemma same_pool_refl (st : Mgr) : same_pool st st.
Proof. repeat split. Qed.

Lemma same_pool_trans (st1 st2 st3 : Mgr) :
  same_pool st1 st2 -> same_pool st2 st3 -> same_pool st1 st3.
Proof. unfold same_pool. intros (?&?&?) (?&?&?). repeat split; congruence. Qed.

Lemma handle_step_data_frame (st st' : Mgr) (lc lc' : Locals F)
    (proc_id : nat) (message : list F) :
  handle_step_data st lc proc_id message = Done (st', lc') ->
  same_pool st st'
  /\ buffer_ptr st' = buffer_ptr st
  /\ l_buffer_ptr lc' = l_buffer_ptr lc.
Proof.
  intros E.
  destruct (handle_step_data_inv _ _ _ _ _ _ E)
    as (sd & k & totals & rews & avg & acc & t & _ & _ & _ & _ & -> & ->).
  repeat split.
Qed.

(** One inspection polls the worker under the cursor and moves the cursor
    on by one. *)
Lemma inspect_cursor (st st' : Mgr) (lc lc' : Locals F) (log log' : Log)
    (ev : option (list F)) :
  inspect st lc log ev = Done (st', lc', log') ->
  same_pool st st'
  /\ buffer_ptr st' = buffer_ptr st
  /\ l_buffer_ptr lc' = advance (n_procs st) (l_buffer_ptr lc)
  /\ exists new, log' = log ++ new /\ polled_ids new = [l_buffer_ptr lc].
Proof.
  unfold inspect. intros E. inv_bind E. destruct ev as [data|].
  - inv_bind E. inv_bind E. destruct (f_eqb x0 x1).
    + inv_bind E. destruct x2 as [st2 lc2]. injection E as <- <- <-.
      destruct (handle_step_data_frame _ _ _ _ _ _ Ex2) as (Hp & Hb & Hl).
      split; [exact Hp|]. split; [exact Hb|]. split; [exact Hl|].
      eexists. split; reflexivity.
    + injection E as <- <- <-.
      split; [apply same_pool_refl|]. split; [reflexivity|].
      split; [reflexivity|]. eexists. split; reflexivity.
  - injection E as <- <- <-.
    split; [apply same_pool_refl|]. split; [reflexivity|].
    split; [reflexivity|]. eexists. split; reflexivity.
Qed.

(** The inspections of a round follow the rotation, one worker per answer
    consumed. *)
Lemma collect_loop_cursor (inbox inbox' : list (option (list F))) (n_obs : Z)
    (st st' : Mgr) (lc lc' : Locals F) (log log' : Log) :
  (l_buffer_ptr lc < n_procs st)%nat ->
  collect_loop inbox n_obs st lc log = Done (st', lc', log', inbox') ->
  same_pool st st'
  /\ buffer_ptr st' = buffer_ptr st
  /\ exists new,
       log' = log ++ new
       /\ (length (polled_ids new) + length inbox' = length inbox)%nat
       /\ polled_ids new =
          cursor_run (n_procs st) (l_buffer_ptr lc) (length (polled_ids new))
       /\ l_buffer_ptr lc' =
          ((l_buffer_ptr lc + length (polled_ids new)) mod n_procs st)%nat.
Proof.
  revert st lc log. induction inbox as [|ev inbox IH]; intros st lc log Hp E.
  - simpl in E. destruct (l_n_collected lc <? n_obs); [discriminate|].
    injection E as <- <- <- <-.
    split; [apply same_pool_refl|]. split; [reflexivity|].
    exists []. rewrite app_nil_r. simpl. rewrite Nat.add_0_r.
    rewrite Nat.mod_small by exact Hp. auto.
  - cbn [collect_loop] in E. destruct (l_n_collected lc <? n_obs).
    + inv_bind E. destruct x as [[st1 lc1] log1].
      destruct (inspect_cursor _ _ _ _ _ _ _ Ex)
        as (Hp1 & Hb1 & Hl1 & new1 & -> & Hn1).
      assert (Hn : n_procs st1 = n_procs st) by apply Hp1.
      assert (Hlt : (l_buffer_ptr lc1 < n_procs st1)%nat).
      { rewrite Hl1, Hn, advance_mod by exact Hp.
        apply Nat.mod_upper_bound. lia. }
      destruct (IH _ _ _ Hlt E)
        as (Hp2 & Hb2 & new2 & -> & Hlen & Hrun & Hfin).
      split; [eapply same_pool_trans; eauto|]. split; [congruence|].
      exists (new1 ++ new2). rewrite app_assoc. split; [reflexivity|].
      rewrite polled_ids_app, Hn1. cbn [app length].
      split; [lia|]. split.
      * rewrite cursor_run_cons by exact Hp. f_equal.
        rewrite Hrun at 1. rewrite Hn, Hl1, advance_mod by exact Hp.
        reflexivity.
      * rewrite Hfin, Hn, Hl1, advance_mod by exact Hp.
        rewrite Nat.Div0.add_mod_idemp_l. f_equal. lia.
    + injection E as <- <- <- <-.
      split; [apply same_pool_refl|]. split; [reflexivity|].
      exists []. rewrite app_nil_r. simpl. rewrite Nat.add_0_r.
      rewrite Nat.mod_small by exact Hp. auto.
Qed.

(** A round starts at the saved cursor and saves the cursor it ends with. *)
Lemma collect_responses_cursor (st st' : Mgr) (log log' : Log)
    (inbox inbox' : list (option (list F)))
    (next_obs obs : list (NDArray F)) (next_pids pids : list nat)
    (n_obs k : Z) :
  (buffer_ptr st < n_procs st)%nat ->
  collect_responses st log inbox next_obs next_pids n_obs
    = Done (st', obs, pids, k, log', inbox') ->
  same_pool st st'
  /\ exists new,
       log' = log ++ new
       /\ (length (polled_ids new) + length inbox' = length inbox)%nat
       /\ polled_ids new =
          cursor_run (n_procs st) (buffer_ptr st) (length (polled_ids new))
       /\ buffer_ptr st' =
          ((buffer_ptr st + length (polled_ids new)) mod n_procs st)%nat.
Proof.
  intros Hp E.
  destruct (collect_responses_inv _ _ _ _ _ _ _ _ _ _ _ _ E)
    as (st1 & lc & Hloop & -> & _).
  destruct (collect_loop_cursor _ _ _ _ _
              (mkLocals 0 (buffer_ptr st) next_obs next_pids) _ _ _ Hp Hloop)
    as (Hpool & _ & new & -> & Hlen & Hrun & Hfin).
  split; [exact Hpool|]. exists new. simpl in *. auto.
Qed.
Lemma polled_ids_sent (actions : list Act) (ws : list (nat * (nat * nat))) :
  polled_ids (map (sent_block (F := F) actions) ws) = [].
Proof. induction ws as [|w ws IH]; [reflexivity|]. simpl. exact IH. Qed.

(** The send loop serves the workers in the order of [current_pids], each
    with the rows of its own block. *)
Lemma send_loop_log (work : list (nat * nat)) (inference_batch : NDArray F)
    (actions : list Act) (log_probs : list Lp) (procs : list WorkerHandle)
    (tm tm' : list (BatchedTrajectory F Act Lp)) (log log' : Log)
    (step : nat) :
  send_loop work inference_batch actions log_probs procs tm log step
    = Done (tm', log') ->
  length tm' = length tm
  /\ log' = log ++ map (sent_block actions)
                     (zip (map fst work) (blocks (map snd work) step)).
Proof.
  revert tm log step.
  induction work as [|[proc_id dim_0] work IH]; intros tm log step E.
  - simpl in E. injection E as <- <-. rewrite app_nil_r. auto.
  - cbn [send_loop] in E. inv_bind E. inv_bind E.
    destruct (IH _ _ _ E) as [Hlen ->]. split.
    + rewrite Hlen. apply length_insert.
    + rewrite <- app_assoc. reflexivity.
Qed.

Lemma send_actions_cursor (st st' : Mgr) (log log' : Log) :
  send_actions st log = Done (st', log') ->
  same_pool st st'
  /\ buffer_ptr st' = buffer_ptr st
  /\ exists new, log' = log ++ new /\ polled_ids new = [].
Proof.
  unfold send_actions. intros E. destruct (current_obs st) as [obs|].
  - inv_bind E. inv_bind E. destruct (get_action x0) as [actions log_probs].
    inv_bind E. destruct x1 as [tm log1]. injection E as <- <-.
    destruct (send_loop_log _ _ _ _ _ _ _ _ _ _ Ex1) as [_ ->].
    split; [repeat split|]. split; [reflexivity|].
    eexists. split; [reflexivity|]. apply polled_ids_sent.
  - injection E as <- <-. split; [apply same_pool_refl|].
    split; [reflexivity|]. exists []. rewrite app_nil_r. auto.
Qed.

Lemma sync_trajectories_frame (st : Mgr) :
  same_pool st (sync_trajectories st)
  /\ buffer_ptr (sync_trajectories st) = buffer_ptr st
  /\ current_obs (sync_trajectories st) = current_obs st
  /\ current_pids (sync_trajectories st) = current_pids st.
Proof.
  unfold sync_trajectories. destruct (sync_list (trajectory_map st)).
  repeat split.
Qed.

(** The rounds of one call continue one rotation. *)
Lemma timestep_loop_cursor (fuel : nat) (n n_obs : Z)
    (c c' : Collected F Act Lp) :
  (buffer_ptr (c_manager c) < n_procs (c_manager c))%nat ->
  timestep_loop fuel n n_obs c = Done c' ->
  same_pool (c_manager c) (c_manager c')
  /\ exists new,
       c_log c' = c_log c ++ new
       /\ (length (polled_ids new) + length (c_inbox c')
           = length (c_inbox c))%nat
       /\ polled_ids new =
          cursor_run (n_procs (c_manager c)) (buffer_ptr (c_manager c))
            (length (polled_ids new))
       /\ buffer_ptr (c_manager c') =
          ((buffer_ptr (c_manager c) + length (polled_ids new))
             mod n_procs (c_manager c))%nat.
Proof.
  revert c. induction fuel as [|fuel IH]; intros c Hp E.
  - simpl in E. destruct (c_n_collected c <? n); [discriminate|].
    injection E as <-. split; [apply same_pool_refl|].
    exists []. rewrite app_nil_r. simpl. rewrite Nat.add_0_r.
    rewrite Nat.mod_small by exact Hp. auto.
  - cbn [timestep_loop] in E. destruct (c_n_collected c <? n).
    + inv_bind E. destruct x as [st1 log1]. inv_bind E.
      destruct x as [[[[[st2 next_obs] next_pids] k] log2] inbox2].
      destruct (send_actions_cursor _ _ _ _ Ex) as (Hp1 & Hb1 & new1 & -> & Hn1).
      assert (Hlt1 : (buffer_ptr st1 < n_procs st1)%nat).
      { destruct Hp1 as (_ & -> & _). rewrite Hb1. exact Hp. }
      destruct (collect_responses_cursor _ _ _ _ _ _ _ _ _ _ _ _ Hlt1 Ex0)
        as (Hp2 & new2 & -> & Hlen2 & Hrun2 & Hfin2).
      set (st4 := sync_trajectories (set_current st2 (Some next_obs) next_pids))
        in *.
      destruct (sync_trajectories_frame
                  (set_current st2 (Some next_obs) next_pids))
        as (Hp3 & Hb3 & _ & _).
      fold st4 in Hp3, Hb3. simpl in Hb3.
      assert (Hn1' : n_procs st1 = n_procs (c_manager c)) by apply Hp1.
      assert (Hn2 : n_procs st2 = n_procs st1) by apply Hp2.
      assert (Hpool : same_pool (c_manager c) st4).
      { eapply same_pool_trans; [exact Hp1|].
        eapply same_pool_trans; [exact Hp2|].
        destruct Hp3 as (?&?&?). repeat split; simpl in *; assumption. }
      assert (Hlt4 : (buffer_ptr st4 < n_procs st4)%nat).
      { destruct Hpool as (_ & -> & _). rewrite Hb3, Hfin2, Hn1'.
        apply Nat.mod_upper_bound. lia. }
      destruct (IH (mkCollected st4 _ _ _ _) Hlt4 E)
        as (Hp4 & new3 & Hlog & Hlen3 & Hrun3 & Hfin3).
      cbn [c_manager c_log c_inbox] in *.
      assert (Hn4 : n_procs st4 = n_procs (c_manager c)) by apply Hpool.
      split; [eapply same_pool_trans; eauto|].
      exists (new1 ++ new2 ++ new3). rewrite Hlog, <- !app_assoc.
      split; [reflexivity|].
      rewrite !polled_ids_app, Hn1. cbn [app].
      rewrite length_app. split; [lia|]. split.
      * rewrite cursor_run_app. f_equal.
        -- rewrite Hrun2 at 1. rewrite Hn1', Hb1. reflexivity.
        -- rewrite Hrun3 at 1. rewrite Hn4, Hb3, Hfin2, Hn1', Hb1.
           reflexivity.
      * rewrite Hfin3, Hn4, Hb3, Hfin2, Hn1', Hb1.
        rewrite Nat.Div0.add_mod_idemp_l. f_equal. lia.
    + injection E as <-. split; [apply same_pool_refl|].
      exists []. rewrite app_nil_r. simpl. rewrite Nat.add_0_r.
      rewrite Nat.mod_small by exact Hp. auto.
Qed.
End Cursor.

Section CursorClaim.
Context {F : Type} `{Scalar F} `{CommConsts F} `{Numpy F}.
Context {Act Lp : Type} `{Policy F Act Lp}.

Lemma collect_timesteps_inv (fuel : nat) (st : Manager F Act Lp)
    (log : list (IOEvent F Act)) (inbox : list (option (list F))) (n k : Z)
    (out : Flat F Act Lp) (c : Collected F Act Lp) :
  collect_timesteps fuel st log inbox n = Done (out, k, c) ->
  exists c1,
    timestep_loop fuel n (n_obs_per_inference st)
      (mkCollected st log inbox 0 []) = Done c1
    /\ flatten_completed
         (completed_trajectories (close_open_trajectories (c_manager c1)))
         empty_flat = Done out
    /\ k = c_n_collected c1
    /\ c = mkCollected
             (set_cumulative_timesteps
                (close_open_trajectories (c_manager c1))
                (cumulative_timesteps (c_manager c1) + c_n_collected c1))
             (c_log c1) (c_inbox c1) (c_n_collected c1) (c_rounds c1).
Proof.
  unfold collect_timesteps. intros E. inv_bind E. inv_bind E.
  injection E as <- <- <-. exists x. auto.
Qed.

(** Claim C5.  Throughout a call of [collect_timesteps] that starts with the
    cursor inside the pool, every answer taken from a pipe is one inspection,
    the [i]-th inspection of the call is of worker [(buffer_ptr + i) mod
    n_procs] (the rounds of the call continue one rotation), and the cursor
    the call leaves in the manager is the position after the last
    inspection, inside the pool again, so that the next call continues the
    same rotation.  Hence among any [n_procs] consecutive inspections every
    worker is inspected, and inspected exactly once. *)
Theorem cursor_rotation (fuel : nat) (st : Manager F Act Lp)
    (log : list (IOEvent F Act)) (inbox : list (option (list F))) (n k : Z)
    (out : Flat F Act Lp) (c : Collected F Act Lp) :
  (buffer_ptr st < n_procs st)%nat ->
  collect_timesteps fuel st log inbox n = Done (out, k, c) ->
  exists new,
    c_log c = log ++ new
    /\ (length (polled_ids new) + length (c_inbox c) = length inbox)%nat
    /\ (forall i, (i < length (polled_ids new))%nat ->
          polled_ids new !! i = Some ((buffer_ptr st + i) mod n_procs st)%nat)
    /\ n_procs (c_manager c) = n_procs st
    /\ buffer_ptr (c_manager c) =
       ((buffer_ptr st + length (polled_ids new)) mod n_procs st)%nat
    /\ (buffer_ptr (c_manager c) < n_procs (c_manager c))%nat
    /\ (forall j w,
          (j + n_procs st <= length (polled_ids new))%nat ->
          (w < n_procs st)%nat ->
          exists i,
            (j <= i < j + n_procs st)%nat
            /\ polled_ids new !! i = Some w
            /\ forall i', (j <= i' < j + n_procs st)%nat ->
                          polled_ids new !! i' = Some w -> i' = i).
Proof.
  intros Hp E.
  destruct (collect_timesteps_inv _ _ _ _ _ _ _ _ E) as (c1 & Hloop & _ & _ & ->).
  destruct (timestep_loop_cursor _ _ _ (mkCollected st log inbox 0 []) _ Hp Hloop)
    as (Hpool & new & Hlog & Hlen & Hrun & Hfin).
  cbn [c_manager c_log c_inbox] in *.
  assert (Hn : n_procs (c_manager c1) = n_procs st) by apply Hpool.
  exists new. split; [exact Hlog|]. split; [exact Hlen|]. split.
  { intros i Hi. rewrite Hrun. apply cursor_run_lookup. exact Hi. }
  split; [exact Hn|]. split; [exact Hfin|]. split.
  { simpl. rewrite Hn, Hfin. apply Nat.mod_upper_bound. lia. }
  intros j w Hj Hw. rewrite Hrun. apply cursor_run_window; assumption.
Qed.
End CursorClaim.

Lemma round_outcome_eq :
  collect_responses two_workers [] round_inbox [] [] 2 = round_outcome.
Proof. vm_compute. reflexivity. Qed.

Lemma send_outcome_eq : send_actions two_workers [] = send_outcome.
Proof. vm_compute. reflexivity. Qed.

Lemma call_outcome_eq :
  collect_timesteps 5 two_workers [] call_inbox 3 = call_outcome.
Proof. vm_compute. reflexivity. Qed.


Lemma episode_outcome_eq :
  collect_timesteps 2 one_worker [] episode_inbox 2 = episode_outcome.
Proof. vm_compute. reflexivity. Qed.

(** Two rounds over two workers: seven inspections, in the order
    0, 1, 0, 1, 0, 1, 0, and the cursor is left on worker 1. *)
Lemma cursor_rotation_witness :
  exists out k c new,
    (buffer_ptr two_workers < n_procs two_workers)%nat
    /\ collect_timesteps 5 two_workers [] call_inbox 3 = Done (out, k, c)
    /\ c_log c = [] ++ new
    /\ polled_ids new = [0; 1; 0; 1; 0; 1; 0]%nat
    /\ buffer_ptr (c_manager c) = 1%nat
    /\ (forall j w,
          (j + 2 <= 7)%nat -> (w < 2)%nat ->
          exists i,
            (j <= i < j + 2)%nat
            /\ polled_ids new !! i = Some w
            /\ forall i', (j <= i' < j + 2)%nat ->
                          polled_ids new !! i' = Some w -> i' = i).
Proof.
  assert (Hp : (buffer_ptr two_workers < n_procs two_workers)%nat)
    by (simpl; lia).
  pose proof call_outcome_eq as E. unfold call_outcome in E.
  destruct (cursor_rotation 5 two_workers [] call_inbox 3 _ _ _ Hp E)
    as (new & Hlog & _ & _ & _ & _ & _ & Hwin).
  cbn [c_log app] in Hlog. subst new.
  eexists _, _, _, _.
  split; [exact Hp|]. split; [exact E|].
  split; [reflexivity|]. split; [vm_compute; reflexivity|].
  split; [reflexivity|]. exact Hwin.
Defined.

(** ** The number of timesteps collected *)

Lemma sum_counts_app (l1 l2 : list Z) :
  sum_counts (l1 ++ l2) = sum_counts l1 + sum_counts l2.
Proof.
  unfold sum_counts. induction l1 as [|x l1 IH]; simpl; [reflexivity|].
  rewrite IH. lia.
Qed.

Section Counting.
Context {F : Type} `{Scalar F} `{CommConsts F} `{Numpy F}.
Context {Act Lp : Type} `{Policy F Act Lp}.

(** The loop adds the count of every round, and before its last round the
    count was below [n]. *)
Lemma timestep_loop_counts (fuel : nat) (n n_obs : Z)
    (c c' : Collected F Act Lp) :
  timestep_loop fuel n n_obs c = Done c' ->
  n <= c_n_collected c'
  /\ exists new,
       c_rounds c' = c_rounds c ++ new
       /\ c_n_collected c' = c_n_collected c + sum_counts new
       /\ (new = [] /\ n <= c_n_collected c
           \/ exists pre last,
                new = pre ++ [last]
                /\ c_n_collected c + sum_counts pre < n).
Proof.
  revert c. induction fuel as [|fuel IH]; intros c E.
  - simpl in E. destruct (Z.ltb_spec (c_n_collected c) n); [discriminate|].
    injection E as <-. split; [assumption|]. exists [].
    rewrite app_nil_r. simpl. split; [reflexivity|]. split; [lia|]. auto.
  - cbn [timestep_loop] in E.
    destruct (Z.ltb_spec (c_n_collected c) n) as [Hlt|Hge].
    + inv_bind E. destruct x as [st1 log1]. inv_bind E.
      destruct x as [[[[[st2 next_obs] next_pids] k] log2] inbox2].
      destruct (IH _ E) as (Hle & new & Hr & Hc & Hlast).
      cbn [c_rounds c_n_collected] in *.
      split; [exact Hle|]. exists (k :: new).
      split; [rewrite Hr, <- app_assoc; reflexivity|].
      split; [rewrite Hc; unfold sum_counts; simpl; lia|].
      right. destruct Hlast as [[-> _]|(pre & last & -> & Hpre)].
      * exists [], k. split; [reflexivity|]. simpl. lia.
      * exists (k :: pre), last. split; [reflexivity|].
        unfold sum_counts in *. simpl. lia.
    + injection E as <-. split; [assumption|]. exists [].
      rewrite app_nil_r. simpl. split; [reflexivity|]. split; [lia|]. auto.
Qed.

(** Claim C4.  A call [collect_timesteps(n)] that returns gives an
    [n_collected] of at least [n]; it is the sum of the counts its rounds
    returned; and either no round ran, [n] is at most 0 and [n_collected] is
    0, or the count stood below [n] before the last round, so that
    [n_collected] exceeds [n] by less than what the last round
    contributed. *)
Theorem collected_at_least_requested (fuel : nat) (st : Manager F Act Lp)
    (log : list (IOEvent F Act)) (inbox : list (option (list F))) (n k : Z)
    (out : Flat F Act Lp) (c : Collected F Act Lp) :
  collect_timesteps fuel st log inbox n = Done (out, k, c) ->
  n <= k
  /\ k = sum_counts (c_rounds c)
  /\ (c_rounds c = [] /\ k = 0 /\ n <= 0
      \/ exists pre last,
           c_rounds c = pre ++ [last]
           /\ k = sum_counts pre + last
           /\ sum_counts pre < n
           /\ k - n < last).
Proof.
  intros E.
  destruct (collect_timesteps_inv _ _ _ _ _ _ _ _ E) as (c1 & Hloop & _ & -> & ->).
  destruct (timestep_loop_counts _ _ _ _ _ Hloop)
    as (Hle & new & Hr & Hc & Hlast).
  cbn [c_rounds c_n_collected] in *. simpl in Hr. subst new.
  split; [exact Hle|]. split; [lia|].
  destruct Hlast as [[Hnil Hn]|(pre & last & Hnew & Hpre)].
  - left. rewrite Hnil in *. unfold sum_counts in Hc. simpl in Hc.
    split; [reflexivity|]. lia.
  - right. exists pre, last. rewrite Hnew in *.
    rewrite sum_counts_app in Hc. unfold sum_counts in Hc at 2. simpl in Hc.
    split; [reflexivity|]. lia.
Qed.
End Counting.

(** Three timesteps are asked of two workers: two rounds of two timesteps
    each give four. *)
Lemma collected_at_least_requested_witness :
  exists out k c,
    collect_timesteps 5 two_workers [] call_inbox 3 = Done (out, k, c)
    /\ k = 4 /\ c_rounds c = [2; 2]
    /\ 3 <= k
    /\ k = sum_counts (c_rounds c)
    /\ (c_rounds c = [] /\ k = 0 /\ 3 <= 0
        \/ exists pre last,
             c_rounds c = pre ++ [last]
             /\ k = sum_counts pre + last
             /\ sum_counts pre < 3
             /\ k - 3 < last).
Proof.
  pose proof call_outcome_eq as E. unfold call_outcome in E.
  eexists _, _, _. split; [exact E|].
  split; [reflexivity|]. split; [reflexivity|].
  exact (collected_at_least_requested 5 two_workers [] call_inbox 3 _ _ _ E).
Defined.

(** ** The dispatch of the inference batch *)

Lemma blocks_length (dims : list nat) (step : nat) :
  length (blocks dims step) = length dims.
Proof.
  revert step. induction dims as [|d ds IH]; intros step; simpl; auto.
Qed.

(** Block [j] starts where the blocks before it end and has the recorded
    size. *)
Lemma blocks_lookup (dims : list nat) (step j a b : nat) :
  blocks dims step !! j = Some (a, b) ->
  exists d,
    dims !! j = Some d
    /\ a = (step + sum_list (take j dims))%nat
    /\ b = (a + d)%nat.
Proof.
  revert step j. induction dims as [|d ds IH]; intros step j E;
    [discriminate|].
  destruct j as [|j]; simpl in E.
  - injection E as <- <-. exists d. simpl. split; [reflexivity|]. lia.
  - destruct (IH _ _ E) as (d' & Hd & -> & ->). exists d'.
    split; [exact Hd|]. simpl. lia.
Qed.

Lemma zip_blocks (pids dims : list nat) (step : nat) :
  zip (map fst (zip pids dims)) (blocks (map snd (zip pids dims)) step)
  = zip pids (blocks dims step).
Proof.
  revert dims step. induction pids as [|p pids IH]; intros dims step;
    [reflexivity|].
  destruct dims as [|d dims]; [reflexivity|]. simpl. f_equal. apply IH.
Qed.

Lemma zip_fst_sublist {A B : Type} (l : list A) (k : list B) :
  map fst (zip l k) `sublist_of` l.
Proof.
  revert k. induction l as [|x l IH]; intros k; [constructor|].
  destruct k as [|y k]; simpl.
  - apply sublist_nil_l.
  - apply sublist_skip. apply IH.
Qed.

Lemma rows_length {A : Type} (l : list A) (step stop : nat) :
  length (rows l step stop) = Nat.min (stop - step) (length l - step).
Proof. unfold rows. rewrite length_take, length_drop. reflexivity. Qed.

(** Consecutive blocks of rows put one after the other are the rows the
    blocks cover. *)
Lemma rows_blocks_concat {A : Type} (l : list A) (dims : list nat)
    (step : nat) :
  concat (map (fun w => rows l (fst w) (snd w)) (blocks dims step))
  = rows l step (step + sum_list dims).
Proof.
  revert step. induction dims as [|d ds IH]; intros step; simpl.
  - unfold rows. replace (step + 0 - step)%nat with 0%nat by lia.
    reflexivity.
  - rewrite IH. unfold rows.
    replace (step + d - step)%nat with d by lia.
    replace (step + d + sum_list ds - (step + d))%nat with (sum_list ds) by lia.
    replace (step + (d + sum_list ds) - step)%nat with (d + sum_list ds)%nat
      by lia.
    rewrite <- drop_drop. apply take_take_drop.
Qed.

Section Dispatch.
Context {F Act Lp : Type}.

Local Abbreviation Buf := (BatchedTrajectory F Act Lp).
Local Abbreviation Log := (list (IOEvent F Act)).

Lemma dimensions_of_lookup (obs : list (NDArray F)) (dims : list nat) :
  dimensions_of obs = Done dims ->
  length dims = length obs
  /\ forall j o, obs !! j = Some o ->
       exists d, nd_shape o !! 0%nat = Some d /\ dims !! j = Some d.
Proof.
  revert dims. induction obs as [|o obs IH]; intros dims E; simpl in E.
  - injection E as <-. split; [reflexivity|]. intros j o' [=].
  - inv_bind E. inv_bind E. injection E as <-.
    destruct (IH _ Ex0) as [Hlen Hl]. split; [simpl; lia|].
    intros [|j] o' Hj; simpl in Hj.
    + injection Hj as <-. exists x. split; [|reflexivity].
      apply py_get_done. exact Ex.
    + apply Hl. exact Hj.
Qed.

(** The buffers of the workers that are not served stay as they are. *)
Lemma send_loop_other (work : list (nat * nat)) (batch : NDArray F)
    (acts : list Act) (lps : list Lp) (procs : list WorkerHandle)
    (tm tm' : list Buf) (log log' : Log) (step q : nat) :
  q ∉ map fst work ->
  send_loop work batch acts lps procs tm log step = Done (tm', log') ->
  tm' !! q = tm !! q.
Proof.
  revert tm log step.
  induction work as [|[proc_id dim_0] work IH]; intros tm log step Hq E.
  - simpl in E. injection E as <- <-. reflexivity.
  - cbn [send_loop] in E. inv_bind E. inv_bind E.
    simpl in Hq. apply not_elem_of_cons in Hq. destruct Hq as [Hne Hq].
    rewrite (IH _ _ _ Hq E). apply list_lookup_insert_ne. congruence.
Qed.

(** Every worker served once has the slices of its own block in its
    buffer. *)
Lemma send_loop_buffers (work : list (nat * nat)) (batch : NDArray F)
    (acts : list Act) (lps : list Lp) (procs : list WorkerHandle)
    (tm tm' : list Buf) (log log' : Log) (step : nat) :
  NoDup (map fst work) ->
  send_loop work batch acts lps procs tm log step = Done (tm', log') ->
  forall j proc_id a b,
    zip (map fst work) (blocks (map snd work) step) !! j
      = Some (proc_id, (a, b)) ->
    exists t,
      tm !! proc_id = Some t
      /\ tm' !! proc_id =
         Some (write_outbound t (rows acts a b) (rows lps a b)
                 (nd_rows batch a b)).
Proof.
  revert tm log step.
  induction work as [|[p d] work IH]; intros tm log step Hnd E j q a b Hj;
    [discriminate|].
  cbn [send_loop] in E. inv_bind E. inv_bind E. apply py_key_done in Ex0.
  simpl in Hnd. apply NoDup_cons in Hnd. destruct Hnd as [Hp Hnd].
  destruct j as [|j]; simpl in Hj.
  - injection Hj as <- <- <-. exists x0. split; [exact Ex0|].
    rewrite (send_loop_other _ _ _ _ _ _ _ _ _ _ _ Hp E).
    apply list_lookup_insert_eq. eapply lookup_lt_Some; eauto.
  - destruct (IH _ _ _ Hnd E _ _ _ _ Hj) as (t & Ht & Ht').
    assert (q <> p).
    { intros ->. apply Hp. apply lookup_zip_Some in Hj. destruct Hj as [Hj _].
      eapply list_elem_of_lookup_2; eauto. }
    rewrite list_lookup_insert_ne in Ht by congruence. eauto.
Qed.

Lemma send_actions_inv (P : Policy F Act Lp) (st st' : Manager F Act Lp)
    (log log' : Log) (obs : list (NDArray F)) :
  current_obs st = Some obs ->
  send_actions st log = Done (st', log') ->
  exists dims batch tm,
    dimensions_of obs = Done dims
    /\ np_concatenate obs = Done batch
    /\ send_loop (zip (current_pids st) dims) batch
         (fst (get_action batch)) (snd (get_action batch))
         (processes st) (trajectory_map st) log 0%nat = Done (tm, log')
    /\ st' = set_current (set_trajectories st tm (completed_trajectories st))
               None (current_pids st).
Proof.
  unfold send_actions. intros -> E. inv_bind E. inv_bind E.
  destruct (get_action x0) as [acts lps] eqn:Ea.
  inv_bind E. destruct x1 as [tm log1]. injection E as <- <-.
  exists x, x0, tm. rewrite Ea. simpl. auto.
Qed.

End Dispatch.



(** ** Observations and their workers *)

Section PairingProofs.
Context {F : Type} `{Scalar F} `{CommConsts F} `{Numpy F}.
Context {Act Lp : Type} `{Policy F Act Lp}.

Local Abbreviation Mgr := (Manager F Act Lp).
Local Abbreviation Log := (list (IOEvent F Act)).

Lemma step_data_of_app (l1 l2 : Log) :
  step_data_of (l1 ++ l2) = step_data_of l1 ++ step_data_of l2.
Proof.
  induction l1 as [|ev l1 IH]; [reflexivity|].
  destruct ev as [p r|p data|p a]; simpl; try exact IH.
  destruct (py_get (take HEADER_LEN data) 0%nat); try exact IH.
  destruct (py_get ENV_STEP_DATA_HEADER 0%nat); try exact IH.
  destruct (decode_step_data (drop HEADER_LEN data)); try exact IH.
  destruct (f_eqb a a0); [|exact IH]. simpl. rewrite IH. reflexivity.
Qed.

(** One inspection appends the observation and the worker id of the message
    it handles, and nothing otherwise. *)
Lemma inspect_pairs (st st' : Mgr) (lc lc' : Locals F) (log log' : Log)
    (ev : option (list F)) :
  inspect st lc log ev = Done (st', lc', log') ->
  exists new,
    log' = log ++ new
    /\ l_next_obs lc' =
       l_next_obs lc ++ map (fun w => sd_next_observation (snd w))
                          (step_data_of new)
    /\ l_next_pids lc' = l_next_pids lc ++ map fst (step_data_of new).
Proof.
  unfold inspect. intros E. inv_bind E. destruct ev as [data|].
  - inv_bind E. inv_bind E. destruct (f_eqb x0 x1) eqn:Eh.
    + inv_bind E. destruct x2 as [st2 lc2]. injection E as <- <- <-.
      destruct (handle_step_data_inv _ _ _ _ _ _ Ex2)
        as (sd & k & totals & rews & avg & acc & t & Hd & _ & _ & _ & _ & ->).
      eexists. split; [reflexivity|]. simpl.
      rewrite Ex0, Ex1, Hd, Eh. simpl. auto.
    + injection E as <- <- <-. eexists. split; [reflexivity|]. simpl.
      rewrite Ex0, Ex1, Eh.
      destruct (decode_step_data (drop HEADER_LEN data)); simpl;
        rewrite !app_nil_r; auto.
  - injection E as <- <- <-. eexists. split; [reflexivity|]. simpl.
    rewrite !app_nil_r. auto.
Qed.

Lemma collect_loop_pairs (inbox inbox' : list (option (list F))) (n_obs : Z)
    (st st' : Mgr) (lc lc' : Locals F) (log log' : Log) :
  collect_loop inbox n_obs st lc log = Done (st', lc', log', inbox') ->
  exists new,
    log' = log ++ new
    /\ l_next_obs lc' =
       l_next_obs lc ++ map (fun w => sd_next_observation (snd w))
                          (step_data_of new)
    /\ l_next_pids lc' = l_next_pids lc ++ map fst (step_data_of new).
Proof.
  revert st lc log. induction inbox as [|ev inbox IH]; intros st lc log E.
  - simpl in E. destruct (l_n_collected lc <? n_obs); [discriminate|].
    injection E as <- <- <- <-. exists []. simpl. rewrite !app_nil_r. auto.
  - cbn [collect_loop] in E. destruct (l_n_collected lc <? n_obs).
    + inv_bind E. destruct x as [[st1 lc1] log1].
      destruct (inspect_pairs _ _ _ _ _ _ _ Ex) as (new1 & -> & Ho1 & Hp1).
      destruct (IH _ _ _ E) as (new2 & -> & Ho2 & Hp2).
      exists (new1 ++ new2). rewrite app_assoc. split; [reflexivity|].
      rewrite step_data_of_app, !map_app, !app_assoc, <- Ho1, <- Hp1. auto.
    + injection E as <- <- <- <-. exists []. simpl. rewrite !app_nil_r. auto.
Qed.


End PairingProofs.


(** ** Fuel and a complete run *)

Section Fuel.
Context {F : Type} `{Scalar F} `{CommConsts F} `{Numpy F}.
Context {Act Lp : Type} `{Policy F Act Lp}.

(** A loop that has returned returns the same with more fuel. *)
Lemma timestep_loop_more_fuel (fuel extra : nat) (n n_obs : Z)
    (c c' : Collected F Act Lp) :
  timestep_loop fuel n n_obs c = Done c' ->
  timestep_loop (fuel + extra) n n_obs c = Done c'.
Proof.
  revert c. induction fuel as [|fuel IH]; intros c E.
  - simpl in E. destruct (c_n_collected c <? n) eqn:En; [discriminate|].
    destruct extra; simpl; rewrite En; exact E.
  - cbn [timestep_loop Nat.add] in *. destruct (c_n_collected c <? n);
      [|exact E].
    destruct (send_actions (c_manager c) (c_log c)) as [[st1 log1]| |];
      simpl in *; try discriminate.
    destruct (collect_responses st1 log1 (c_inbox c) [] [] n_obs)
      as [[[[[[st2 next_obs] next_pids] k] log2] inbox2]| |];
      simpl in *; try discriminate.
    apply IH. exact E.
Qed.

Lemma collect_timesteps_more_fuel (fuel extra : nat) (st : Manager F Act Lp)
    (log : list (IOEvent F Act)) (inbox : list (option (list F))) (n : Z)
    (r : Flat F Act Lp * Z * Collected F Act Lp) :
  collect_timesteps fuel st log inbox n = Done r ->
  collect_timesteps (fuel + extra) st log inbox n = Done r.
Proof.
  unfold collect_timesteps. intros E. inv_bind E.
  rewrite (timestep_loop_more_fuel _ extra _ _ _ _ Ex). exact E.
Qed.
End Fuel.

(** The scenario of the specification: one worker with one agent and a
    minimum inference size of 1 reports a step of reward 1 and then a
    terminal step of reward 2.  Two records are returned, none of them
    truncated, and the average reward is the total of the episode. *)
Example single_worker_episode :
  exists out c,
    collect_timesteps 2 one_worker [] episode_inbox 2 = Done (out, 2, c)
    /\ rewards out = [RScalar 1%Q; RScalar 2%Q]
    /\ dones out = [0%Q; 1%Q]
    /\ truncated out = [0; 0]
    /\ average_reward (c_manager c) = Some 3%Q
    /\ ep_rews (c_manager c) = [[0%Q]].
Proof.
  pose proof episode_outcome_eq as E. unfold episode_outcome in E.
  eexists _, _. split; [exact E|]. repeat split.
Qed.

(** * Further properties of the manager *)

(** ** The send phase at its edges *)

Section SendEdges.
Context {F : Type} `{Scalar F} `{CommConsts F} `{Numpy F}.
Context {Act Lp : Type} `{Policy F Act Lp}.

Local Abbreviation Mgr := (Manager F Act Lp).
Local Abbreviation Log := (list (IOEvent F Act)).

Lemma send_loop_settled (work : list (nat * nat)) (batch : NDArray F)
    (acts : list Act) (lps : list Lp) (procs : list WorkerHandle)
    (tm : list (BatchedTrajectory F Act Lp)) (log : Log) (step : nat) :
  send_loop work batch acts lps procs tm log step <> Pending.
Proof.
  revert tm log step. induction work as [|[p d] work IH]; intros tm log step.
  - discriminate.
  - cbn [send_loop]. unfold py_key.
    destruct (procs !! p); cbn [bind]; [|discriminate].
    destruct (tm !! p); cbn [bind]; [apply IH|discriminate].
Qed.

Lemma dimensions_of_settled (obs : list (NDArray F)) :
  dimensions_of obs <> Pending.
Proof.
  induction obs as [|o obs IH]; simpl; [discriminate|].
  unfold shape0, py_get. destruct (nd_shape o !! 0%nat); simpl; [|discriminate].
  destruct (dimensions_of obs); simpl; congruence.
Qed.

(** The send phase returns or raises; it never waits. *)
Lemma send_actions_settled (st : Mgr) (log : Log) :
  send_actions st log <> Pending.
Proof.
  unfold send_actions. destruct (current_obs st) as [obs|]; [|discriminate].
  destruct (dimensions_of obs) eqn:Ed; cbn [bind];
    [|discriminate|exfalso; eapply dimensions_of_settled; eauto].
  unfold np_concatenate. destruct obs as [|o obs]; cbn [bind]; [discriminate|].
  destruct (forallb (same_trailing o) (o :: obs)); cbn [bind]; [|discriminate].
  destruct (get_action _) as [acts lps].
  destruct (send_loop _ _ _ _ _ _ _ _) as [[tm log']| |] eqn:El; cbn [bind];
    try discriminate.
  exfalso. eapply send_loop_settled; eauto.
Qed.

(** Property X1.  After a send phase there is nothing left to send: the
    observations are gone from the manager, and a second send phase changes
    neither the manager nor the log. *)
Theorem send_actions_consumes_observations (st st' : Mgr) (log log' : Log) :
  send_actions st log = Done (st', log') ->
  current_obs st' = None
  /\ current_pids st' = current_pids st
  /\ forall log'', send_actions st' log'' = Done (st', log'').
Proof.
  unfold send_actions at 1. intros E.
  destruct (current_obs st) as [obs|] eqn:Eo.
  - inv_bind E. inv_bind E. destruct (get_action x0) as [acts lps].
    inv_bind E. destruct x1 as [tm log1]. injection E as <- <-.
    split; [reflexivity|]. split; [reflexivity|].
    intros log''. reflexivity.
  - injection E as <- <-. split; [exact Eo|]. split; [reflexivity|].
    intros log''. unfold send_actions. rewrite Eo. reflexivity.
Qed.

(** Property X2.  With an empty list of observations the first send phase of
    a call that asks for at least one timestep fails in [np.concatenate]: a
    manager on which [init_processes] has not run raises [ValueError]. *)
Theorem collect_without_observations (fuel : nat) (st : Mgr) (log : Log)
    (inbox : list (option (list F))) (n : Z) :
  current_obs st = Some [] ->
  0 < n ->
  collect_timesteps (S fuel) st log inbox n = Raise ValueError.
Proof.
  intros Ho Hn. unfold collect_timesteps.
  cbn [timestep_loop c_n_collected c_manager c_log].
  destruct (Z.ltb_spec 0 n); [|lia].
  unfold send_actions. rewrite Ho. reflexivity.
Qed.

(** A threshold of zero or less lets the round return at once, with nothing
    collected and nothing consumed. *)
Lemma collect_responses_no_threshold (st : Mgr) (log : Log)
    (inbox : list (option (list F))) (next_obs : list (NDArray F))
    (next_pids : list nat) (n_obs : Z) :
  n_obs <= 0 ->
  collect_responses st log inbox next_obs next_pids n_obs
  = Done (set_buffer_ptr st (buffer_ptr st), next_obs, next_pids, 0, log,
          inbox).
Proof.
  intros Hn. unfold collect_responses.
  destruct inbox; cbn [collect_loop l_n_collected];
    destruct (Z.ltb_spec 0 n_obs); try lia; reflexivity.
Qed.

(** Property X3.  With a minimum inference size of zero or less no call that
    asks for at least one timestep returns: the first round collects
    nothing, and the second send phase finds no observation to concatenate. *)
Theorem collect_with_no_minimum (fuel : nat) (st : Mgr) (log : Log)
    (inbox : list (option (list F))) (n : Z) :
  min_inference_size st <= 0 ->
  0 < n ->
  raises (collect_timesteps (S (S fuel)) st log inbox n).
Proof.
  intros Hm Hn. unfold collect_timesteps. apply raises_bind.
  assert (Hobs : n_obs_per_inference st <= 0).
  { unfold n_obs_per_inference. cbv zeta. lia. }
  remember (n_obs_per_inference st) as n_obs.
  cbn [timestep_loop c_n_collected c_manager c_log c_inbox c_rounds].
  destruct (Z.ltb_spec 0 n); [|lia].
  destruct (send_actions st log) as [[st1 log1]|e|] eqn:Es; cbn [bind];
    [|exists e; reflexivity|exfalso; eapply send_actions_settled; eauto].
  rewrite collect_responses_no_threshold by exact Hobs. cbn [bind].
  rewrite Z.add_0_r. destruct (Z.ltb_spec 0 n); [|lia].
  destruct (sync_trajectories_frame
              (set_current (set_buffer_ptr st1 (buffer_ptr st1)) (Some []) []))
    as (_ & _ & Ho & _).
  unfold send_actions at 1. rewrite Ho. simpl. exists ValueError. reflexivity.
Qed.
End SendEdges.

(** ** Inspections *)

Section Inspections.
Context {F : Type} `{Scalar F} `{CommConsts F} `{Numpy F}.
Context {Act Lp : Type} `{Policy F Act Lp}.

Local Abbreviation Mgr := (Manager F Act Lp).
Local Abbreviation Log := (list (IOEvent F Act)).

Lemma inspect_not_ready (st : Mgr) (lc : Locals F) (log : Log)
    (w : WorkerHandle) :
  processes st !! l_buffer_ptr lc = Some w ->
  inspect st lc log None =
  Done (st,
        mkLocals (l_n_collected lc) (advance (n_procs st) (l_buffer_ptr lc))
          (l_next_obs lc) (l_next_pids lc),
        log ++ [Polled (l_buffer_ptr lc) false]).
Proof. intros Hw. unfold inspect, py_key. rewrite Hw. reflexivity. Qed.

(** Pipes that are not ready are passed over: the round goes on with the
    manager and the count it had, the cursor moved on by one per answer and
    one unsuccessful poll logged for each. *)
Lemma collect_loop_not_ready (m : nat) (rest : list (option (list F)))
    (n_obs : Z) (st : Mgr) (lc : Locals F) (log : Log) :
  l_n_collected lc < n_obs ->
  (l_buffer_ptr lc < n_procs st)%nat ->
  (n_procs st <= length (processes st))%nat ->
  collect_loop (replicate m None ++ rest) n_obs st lc log =
  collect_loop rest n_obs st
    (mkLocals (l_n_collected lc)
       ((l_buffer_ptr lc + m) mod n_procs st)%nat
       (l_next_obs lc) (l_next_pids lc))
    (log ++ map (fun p => Polled p false)
              (cursor_run (n_procs st) (l_buffer_ptr lc) m)).
Proof.
  revert lc log. induction m as [|m IH]; intros lc log Hc Hp Hn.
  - simpl. rewrite Nat.add_0_r, Nat.mod_small by exact Hp.
    rewrite app_nil_r. destruct lc; reflexivity.
  - cbn [replicate app collect_loop].
    destruct (Z.ltb_spec (l_n_collected lc) n_obs); [|lia].
    destruct (lookup_lt_is_Some_2 (processes st) (l_buffer_ptr lc)) as [w Hw];
      [lia|].
    rewrite (inspect_not_ready _ _ _ _ Hw). cbn [bind].
    rewrite IH; cbn [l_n_collected l_buffer_ptr l_next_obs l_next_pids];
      try assumption.
    + rewrite advance_mod by exact Hp.
      rewrite Nat.Div0.add_mod_idemp_l.
      replace (l_buffer_ptr lc + 1 + m)%nat with (l_buffer_ptr lc + S m)%nat
        by lia.
      rewrite cursor_run_cons by exact Hp. cbn [map].
      rewrite <- app_assoc. reflexivity.
    + rewrite advance_mod by exact Hp. apply Nat.mod_upper_bound. lia.
Qed.

(** Property X4.  Workers that are not ready are no error. While the count
    is below the threshold the round passes over every pipe that is not
    ready and goes on as it would have without them, with the cursor moved
    on; a round that meets nothing but such pipes is still polling. *)
Theorem not_ready_workers_are_passed_over (m : nat)
    (rest : list (option (list F))) (n_obs : Z) (st : Mgr) (lc : Locals F)
    (log : Log) (next_obs : list (NDArray F)) (next_pids : list nat) :
  l_n_collected lc < n_obs ->
  0 < n_obs ->
  (l_buffer_ptr lc < n_procs st)%nat ->
  (buffer_ptr st < n_procs st)%nat ->
  (n_procs st <= length (processes st))%nat ->
  collect_loop (replicate m None ++ rest) n_obs st lc log =
  collect_loop rest n_obs st
    (mkLocals (l_n_collected lc)
       ((l_buffer_ptr lc + m) mod n_procs st)%nat
       (l_next_obs lc) (l_next_pids lc))
    (log ++ map (fun p => Polled p false)
              (cursor_run (n_procs st) (l_buffer_ptr lc) m))
  /\ collect_responses st log (replicate m None) next_obs next_pids n_obs
     = Pending.
Proof.
  intros Hc Hn Hp Hb Hlen. split.
  - apply collect_loop_not_ready; assumption.
  - unfold collect_responses.
    rewrite <- (app_nil_r (replicate m None)).
    rewrite collect_loop_not_ready by (simpl; assumption).
    cbn [collect_loop l_n_collected].
    destruct (Z.ltb_spec 0 n_obs); [reflexivity|lia].
Qed.

(** Property X5.  An inspection is the business of one worker: it leaves the
    observations awaiting dispatch, the completed buffers and the timestep
    total alone, changes no accumulator and no buffer but those of the
    worker under the cursor, and of that worker's buffer it keeps the half
    the send phase wrote and the steps already completed. *)
Theorem inspection_touches_one_worker (st st' : Mgr) (lc lc' : Locals F)
    (log log' : Log) (ev : option (list F)) :
  inspect st lc log ev = Done (st', lc', log') ->
  current_obs st' = current_obs st
  /\ current_pids st' = current_pids st
  /\ completed_trajectories st' = completed_trajectories st
  /\ cumulative_timesteps st' = cumulative_timesteps st
  /\ length (ep_rews st') = length (ep_rews st)
  /\ length (trajectory_map st') = length (trajectory_map st)
  /\ (forall q, q <> l_buffer_ptr lc ->
        ep_rews st' !! q = ep_rews st !! q
        /\ trajectory_map st' !! q = trajectory_map st !! q)
  /\ (forall t t',
        trajectory_map st !! l_buffer_ptr lc = Some t ->
        trajectory_map st' !! l_buffer_ptr lc = Some t' ->
        state t' = state t /\ action t' = action t
        /\ log_prob t' = log_prob t
        /\ complete_timesteps t' = complete_timesteps t).
Proof.
  unfold inspect. intros E. inv_bind E.
  assert (Hsame : forall (s : Mgr), s = st ->
    current_obs s = current_obs st
    /\ current_pids s = current_pids st
    /\ completed_trajectories s = completed_trajectories st
    /\ cumulative_timesteps s = cumulative_timesteps st
    /\ length (ep_rews s) = length (ep_rews st)
    /\ length (trajectory_map s) = length (trajectory_map st)
    /\ (forall q, q <> l_buffer_ptr lc ->
          ep_rews s !! q = ep_rews st !! q
          /\ trajectory_map s !! q = trajectory_map st !! q)
    /\ (forall t t',
          trajectory_map st !! l_buffer_ptr lc = Some t ->
          trajectory_map s !! l_buffer_ptr lc = Some t' ->
          state t' = state t /\ action t' = action t
          /\ log_prob t' = log_prob t
          /\ complete_timesteps t' = complete_timesteps t)).
  { intros s ->. repeat split; auto; congruence. }
  destruct ev as [data|]; [|injection E as <- <- <-; apply Hsame; reflexivity].
  inv_bind E. inv_bind E. destruct (f_eqb x0 x1);
    [|injection E as <- <- <-; apply Hsame; reflexivity].
  inv_bind E. destruct x2 as [st2 lc2]. injection E as <- <- <-.
  destruct (handle_step_data_inv _ _ _ _ _ _ Ex2)
    as (sd & k & totals & rews & avg & acc & t0 & _ & _ & _ & Ht & -> & _).
  cbn. rewrite !length_insert.
  do 6 (split; [reflexivity|]). split.
  - intros q Hq. split; apply list_lookup_insert_ne; congruence.
  - intros t t' Ht1 Ht2. rewrite Ht in Ht1. injection Ht1 as <-.
    rewrite list_lookup_insert_eq in Ht2 by (eapply lookup_lt_Some; eauto).
    injection Ht2 as <-. repeat split.
Qed.
End Inspections.

(** ** The reward tracker *)

Section Tracker.
Context {F : Type} `{Scalar F} `{CommConsts F} `{Numpy F}.
Context {Act Lp : Type} `{Policy F Act Lp}.

Local Abbreviation Mgr := (Manager F Act Lp).

(** The loop over the agents [s, s + m): the slots below [s] and from
    [s + m] on are left alone, a slot in between receives its reward, and a
    slot that did not exist is created with it. *)
Lemma add_agent_rewards_range (m s : nat) (rews acc : list F) :
  (s <= length acc)%nat ->
  (s + m <= length rews)%nat ->
  exists acc',
    add_agent_rewards (seq s m) rews acc = Done acc'
    /\ length acc' = Nat.max (length acc) (s + m)
    /\ (forall i r,
          (s <= i < s + m)%nat -> rews !! i = Some r ->
          acc' !! i = Some (match acc !! i with
                            | Some a => f_add a r
                            | None => r
                            end))
    /\ (forall i, ~ (s <= i < s + m)%nat -> acc' !! i = acc !! i).
Proof.
  revert s acc. induction m as [|m IH]; intros s acc Hs Hr.
  - exists acc. simpl. split; [reflexivity|]. split; [lia|].
    split; [intros i r Hi; lia|reflexivity].
  - cbn [seq add_agent_rewards].
    destruct (lookup_lt_is_Some_2 rews s) as [rs Hrs]; [lia|].
    unfold py_get at 1 3. rewrite Hrs.
    destruct (Nat.leb_spec (length acc) s) as [Hle|Hgt].
    + assert (Hlen : length acc = s) by lia. cbn [bind].
      destruct (IH (S s) (acc ++ [rs])) as (acc' & E & Hl & Hin & Hout).
      { rewrite length_app. simpl. lia. }
      { lia. }
      exists acc'. split; [exact E|]. split.
      { rewrite Hl, length_app. simpl. lia. }
      split.
      * intros i r Hi Hri. destruct (Nat.eq_dec i s) as [->|Hne].
        -- rewrite Hout by lia. rewrite lookup_app_r by lia.
           rewrite Hlen, Nat.sub_diag. simpl.
           rewrite (lookup_ge_None_2 acc s) by lia. congruence.
        -- rewrite (Hin i r) by (try lia; exact Hri).
           rewrite (lookup_ge_None_2 (acc ++ [rs]) i)
             by (rewrite length_app; simpl; lia).
           rewrite (lookup_ge_None_2 acc i) by lia. reflexivity.
      * intros i Hi. rewrite Hout by lia.
        destruct (Nat.lt_ge_cases i s).
        -- apply lookup_app_l. lia.
        -- rewrite (lookup_ge_None_2 (acc ++ [rs]) i)
             by (rewrite length_app; simpl; lia).
           rewrite (lookup_ge_None_2 acc i) by lia. reflexivity.
    + destruct (lookup_lt_is_Some_2 acc s) as [a Ha]; [lia|].
      unfold py_get. rewrite Ha. cbn [bind].
      destruct (IH (S s) (<[s := f_add a rs]> acc))
        as (acc' & E & Hl & Hin & Hout).
      { rewrite length_insert. lia. }
      { lia. }
      exists acc'. split; [exact E|]. split.
      { rewrite Hl, length_insert. lia. }
      split.
      * intros i r Hi Hri. destruct (Nat.eq_dec i s) as [->|Hne].
        -- rewrite Hout by lia. rewrite list_lookup_insert_eq by lia.
           rewrite Ha. congruence.
        -- rewrite (Hin i r) by (try lia; exact Hri).
           rewrite list_lookup_insert_ne by congruence. reflexivity.
      * intros i Hi. rewrite Hout by lia.
        apply list_lookup_insert_ne. lia.
Qed.

(** With fewer rewards than agents the loop fails at the first agent
    without one. *)
Lemma add_agent_rewards_short (m s : nat) (rews acc : list F) :
  (s <= length acc)%nat ->
  (s <= length rews)%nat ->
  (length rews < s + m)%nat ->
  add_agent_rewards (seq s m) rews acc = Raise IndexError.
Proof.
  revert s acc. induction m as [|m IH]; intros s acc Hs Hr Hlt; [lia|].
  cbn [seq add_agent_rewards].
  destruct (Nat.eq_dec s (length rews)) as [->|Hne].
  - unfold py_get. rewrite (lookup_ge_None_2 rews (length rews)) by lia.
    destruct (length acc <=? length rews)%nat; [reflexivity|].
    destruct (acc !! length rews); reflexivity.
  - destruct (lookup_lt_is_Some_2 rews s) as [rs Hrs]; [lia|].
    unfold py_get at 1 3. rewrite Hrs.
    destruct (Nat.leb_spec (length acc) s).
    + cbn [bind]. apply IH; [rewrite length_app; simpl; lia|lia|lia].
    + destruct (lookup_lt_is_Some_2 acc s) as [a Ha]; [lia|].
      unfold py_get. rewrite Ha. cbn [bind].
      apply IH; [rewrite length_insert; lia|lia|lia].
Qed.

(** Property X6.  A message of several agents adds the reward of agent [i]
    to slot [i] of the worker's accumulator and creates the slots the
    accumulator does not have yet; the slots of agents beyond the message
    are kept. A message that carries fewer rewards than it declares agents
    raises [IndexError]. *)
Theorem multi_agent_rewards_by_slot (ep : list (list F)) (proc_id : nat)
    (n_agents : Z) (rews acc : list F) :
  1 < n_agents ->
  ep !! proc_id = Some acc ->
  ((Z.to_nat n_agents <= length rews)%nat ->
   exists acc',
     record_rewards ep proc_id n_agents rews
       = Done (n_agents, acc', RArray rews)
     /\ length acc' = Nat.max (length acc) (Z.to_nat n_agents)
     /\ (forall i r,
           (i < Z.to_nat n_agents)%nat -> rews !! i = Some r ->
           acc' !! i = Some (match acc !! i with
                             | Some a => f_add a r
                             | None => r
                             end))
     /\ (forall i, (Z.to_nat n_agents <= i)%nat -> acc' !! i = acc !! i))
  /\ ((length rews < Z.to_nat n_agents)%nat ->
      record_rewards ep proc_id n_agents rews = Raise IndexError).
Proof.
  intros Hn Hacc. unfold record_rewards, py_key.
  destruct (Z.ltb_spec 1 n_agents); [|lia]. rewrite Hacc. cbn [bind].
  split.
  - intros Hlen.
    destruct (add_agent_rewards_range (Z.to_nat n_agents) 0 rews acc)
      as (acc' & E & Hl & Hin & Hout); [lia|simpl; lia|].
    exists acc'. rewrite E. cbn [bind]. split; [reflexivity|].
    split; [exact Hl|]. split.
    + intros i r Hi. apply Hin. simpl. lia.
    + intros i Hi. apply Hout. simpl. lia.
  - intros Hlen.
    rewrite (add_agent_rewards_short (Z.to_nat n_agents) 0 rews acc);
      [reflexivity|lia|lia|simpl; lia].
Qed.

(** Property X7.  A handled message that does not end the episode leaves the
    average reward as it was and the accumulator of its worker holding the
    totals so far, this message's rewards included. *)
Theorem average_reward_kept_within_episode (st st' : Mgr) (lc lc' : Locals F)
    (proc_id : nat) (message : list F) (sd : StepData F) :
  handle_step_data st lc proc_id message = Done (st', lc') ->
  decode_step_data message = Done sd ->
  truthy (sd_done sd) = false ->
  average_reward st' = average_reward st
  /\ exists k totals rews,
       record_rewards (ep_rews st) proc_id (sd_n_agents sd) (sd_rews sd)
         = Done (k, totals, rews)
       /\ ep_rews st' !! proc_id = Some totals.
Proof.
  intros E Hsd Hdone.
  destruct (handle_step_data_inv _ _ _ _ _ _ E)
    as (sd' & k & totals & rews & avg & acc & t & Hd & Hr & Havg & Ht & -> & _).
  rewrite Hsd in Hd. injection Hd as <-. rewrite Hdone in Havg.
  destruct Havg as [-> ->]. split; [reflexivity|].
  exists k, totals, rews. split; [exact Hr|].
  simpl. apply list_lookup_insert_eq. eapply record_rewards_key; eauto.
Qed.
End Tracker.

(** ** Payloads that cannot be decoded *)

Section DecodeErrors.
Context {F : Type} `{Scalar F} `{CommConsts F} `{Numpy F}.
Context {Act Lp : Type} `{Policy F Act Lp}.

(** Property X8.  A payload of fewer than two elements and a payload that
    declares no shape dimension raise [IndexError]; a dimension count that
    [int()] refuses raises [OverflowError] when it is an infinity and
    [ValueError] when it is a NaN; and received data that is empty raises
    [IndexError] when its header is looked at. *)
Theorem undecodable_payloads :
  (forall message : list F,
     (length message < 2)%nat ->
     decode_step_data message = Raise IndexError)
  /\ (forall (done nd : F) rest,
        f_int nd = None ->
        decode_step_data (done :: nd :: rest)
        = Raise (if f_isinf nd then OverflowError else ValueError))
  /\ (forall (done nd : F) rest,
        f_int nd = Some 0 ->
        decode_step_data (done :: nd :: rest) = Raise IndexError)
  /\ (forall (st : Manager F Act Lp) (lc : Locals F)
             (log : list (IOEvent F Act)) w,
        processes st !! l_buffer_ptr lc = Some w ->
        inspect st lc log (Some []) = Raise IndexError).
Proof.
  split; [|split; [|split]].
  - intros [|done [|nd rest]] Hlen; simpl in Hlen; try lia; reflexivity.
  - intros done nd rest Hnd. unfold decode_step_data.
    cbn [py_get lookup list_lookup bind]. unfold py_int. rewrite Hnd.
    destruct (f_isinf nd); reflexivity.
  - intros done nd rest Hnd. unfold decode_step_data.
    cbn [py_get lookup list_lookup bind]. unfold py_int. rewrite Hnd.
    cbn [bind]. replace (2 + 0) with 2 by lia.
    rewrite py_slice_empty by lia. reflexivity.
  - intros st lc log w Hw. unfold inspect, py_key. rewrite Hw. cbn [bind].
    rewrite take_nil. reflexivity.
Qed.
End DecodeErrors.

(** ** What a round counts *)

Lemma receipts_polled_app_both {F Act : Type} (l1 : list (IOEvent F Act)) :
  (forall l2,
     receipts_polled l1 = true -> receipts_polled l2 = true ->
     receipts_polled (l1 ++ l2) = true)
  /\ (forall e l2,
        receipts_polled (e :: l1) = true -> receipts_polled l2 = true ->
        receipts_polled (e :: l1 ++ l2) = true).
Proof.
  induction l1 as [|e1 l1 [IH1 IH2]].
  - split; [intros l2 _ H2; exact H2|].
    intros e l2 H1 H2. cbn [app].
    destruct e as [p [|]|p d|p a]; simpl in *; try congruence.
    destruct l2 as [|[q r|q d|q a] l2]; simpl in *; congruence.
  - split; [intros l2; apply IH2|].
    intros e l2 H1 H2.
    destruct e as [p [|]|p d|p a]; cbn [app] in *.
    + destruct e1 as [q r|q d|q a].
      * change (receipts_polled (Polled q r :: l1 ++ l2) = true).
        apply IH2; assumption.
      * simpl in *. apply andb_true_iff in H1. destruct H1 as [Hpq H1].
        rewrite Hpq. simpl. apply IH1; assumption.
      * change (receipts_polled (Sent q a :: l1 ++ l2) = true).
        apply IH2; assumption.
    + change (receipts_polled (e1 :: l1 ++ l2) = true). apply IH2; assumption.
    + simpl in H1. discriminate.
    + change (receipts_polled (e1 :: l1 ++ l2) = true). apply IH2; assumption.
Qed.

Lemma receipts_polled_app {F Act : Type} (l1 l2 : list (IOEvent F Act)) :
  receipts_polled l1 = true -> receipts_polled l2 = true ->
  receipts_polled (l1 ++ l2) = true.
Proof. apply receipts_polled_app_both. Qed.

Lemma receipts_polled_sent {F Act : Type} (actions : list Act)
    (ws : list (nat * (nat * nat))) :
  receipts_polled (map (sent_block (F := F) actions) ws) = true.
Proof. induction ws as [|w ws IH]; [reflexivity|]. exact IH. Qed.

Section RoundCounts.
Context {F : Type} `{Scalar F} `{CommConsts F} `{Numpy F}.
Context {Act Lp : Type} `{Policy F Act Lp}.

Local Abbreviation Mgr := (Manager F Act Lp).
Local Abbreviation Log := (list (IOEvent F Act)).

Local Abbreviation total new :=
  (sum_counts (map (fun w => increment (snd w)) (step_data_of new))).

(** What one inspection adds to the log, and to the count. *)
Lemma inspect_new (st st' : Mgr) (lc lc' : Locals F) (log log' : Log)
    (ev : option (list F)) :
  inspect st lc log ev = Done (st', lc', log') ->
  exists new,
    log' = log ++ new
    /\ receipts_polled new = true
    /\ (length (step_data_of new) <= 1)%nat
    /\ l_n_collected lc' = l_n_collected lc + total new.
Proof.
  unfold inspect. intros E. inv_bind E. destruct ev as [data|].
  - inv_bind E. inv_bind E. destruct (f_eqb x0 x1) eqn:Eh.
    + inv_bind E. destruct x2 as [st2 lc2]. injection E as <- <- <-.
      destruct (handle_step_data_inv _ _ _ _ _ _ Ex2)
        as (sd & k & totals & rews & avg & acc & t & Hd & Hr & _ & _ & _ & ->).
      destruct (record_rewards_count _ _ _ _ _ _ _ Hr) as [-> _].
      eexists. split; [reflexivity|]. simpl.
      rewrite Nat.eqb_refl, Ex0, Ex1, Hd, Eh. simpl.
      split; [reflexivity|]. split; [lia|].
      unfold sum_counts, increment. simpl. lia.
    + injection E as <- <- <-. eexists. split; [reflexivity|]. simpl.
      rewrite Nat.eqb_refl, Ex0, Ex1, Eh.
      destruct (decode_step_data (drop HEADER_LEN data)); simpl;
        (split; [reflexivity|]; split; [lia|]; unfold sum_counts; simpl; lia).
  - injection E as <- <- <-. eexists. split; [reflexivity|]. simpl.
    split; [reflexivity|]. split; [lia|]. unfold sum_counts. simpl. lia.
Qed.

Lemma total_app (l1 l2 : Log) : total (l1 ++ l2) = total l1 + total l2.
Proof. rewrite step_data_of_app, map_app, sum_counts_app. reflexivity. Qed.

Lemma increment_pos (sd : StepData F) : 1 <= increment sd.
Proof. unfold increment. destruct (Z.ltb_spec 1 (sd_n_agents sd)); lia. Qed.

Lemma total_ge_length (new : Log) :
  Z.of_nat (length (step_data_of new)) <= total new.
Proof.
  induction (step_data_of new) as [|w l IH]; [unfold sum_counts; simpl; lia|].
  unfold sum_counts in *. simpl.
  pose proof (increment_pos (snd w)). lia.
Qed.

Lemma collect_loop_at_threshold (inbox : list (option (list F))) (n_obs : Z)
    (st : Mgr) (lc : Locals F) (log : Log) :
  n_obs <= l_n_collected lc ->
  collect_loop inbox n_obs st lc log = Done (st, lc, log, inbox).
Proof.
  intros Hc. destruct inbox; simpl;
    destruct (Z.ltb_spec (l_n_collected lc) n_obs); try lia; reflexivity.
Qed.

(** The loop of a round: its count is the sum over the messages it handled,
    and the message handled last is the one that took the count to the
    threshold. *)
Lemma collect_loop_total (inbox inbox' : list (option (list F))) (n_obs : Z)
    (st st' : Mgr) (lc lc' : Locals F) (log log' : Log) :
  collect_loop inbox n_obs st lc log = Done (st', lc', log', inbox') ->
  exists new,
    log' = log ++ new
    /\ receipts_polled new = true
    /\ l_n_collected lc' = l_n_collected lc + total new
    /\ (l_n_collected lc < n_obs ->
        exists pre w,
          step_data_of new = pre ++ [w]
          /\ l_n_collected lc
             + sum_counts (map (fun w => increment (snd w)) pre) < n_obs).
Proof.
  revert st lc log. induction inbox as [|ev inbox IH]; intros st lc log E.
  - simpl in E. destruct (Z.ltb_spec (l_n_collected lc) n_obs);
      [discriminate|]. injection E as <- <- <- <-.
    exists []. rewrite app_nil_r. unfold sum_counts. simpl.
    split; [reflexivity|]. split; [reflexivity|]. split; [lia|]. lia.
  - cbn [collect_loop] in E.
    destruct (Z.ltb_spec (l_n_collected lc) n_obs) as [Hlt|Hge].
    + inv_bind E. destruct x as [[st1 lc1] log1].
      destruct (inspect_new _ _ _ _ _ _ _ Ex) as (new1 & -> & Hp1 & Hl1 & Hc1).
      destruct (IH _ _ _ E) as (new2 & -> & Hp2 & Hc2 & Hlast).
      exists (new1 ++ new2). rewrite app_assoc. split; [reflexivity|].
      split; [apply receipts_polled_app; assumption|].
      split; [rewrite total_app; lia|].
      intros _. destruct (Z.lt_ge_cases (l_n_collected lc1) n_obs) as [Hc|Hc].
      * destruct (Hlast Hc) as (pre & w & Hsd & Hsum).
        exists (step_data_of new1 ++ pre), w.
        rewrite step_data_of_app, Hsd, app_assoc. split; [reflexivity|].
        rewrite map_app, sum_counts_app. lia.
      * assert (Hnew2 : new2 = []).
        { rewrite collect_loop_at_threshold in E by exact Hc.
          injection E as _ _ E _.
          rewrite <- (app_nil_r (log ++ new1)) in E at 1.
          apply app_inv_head in E. congruence. }
        subst new2. rewrite app_nil_r.
        destruct (step_data_of new1) as [|w [|w' l]] eqn:Esd.
        -- unfold sum_counts in Hc1. simpl in Hc1. lia.
        -- exists [], w. split; [reflexivity|]. unfold sum_counts. simpl. lia.
        -- simpl in Hl1. lia.
    + injection E as <- <- <- <-. exists []. rewrite app_nil_r.
      unfold sum_counts. simpl.
      split; [reflexivity|]. split; [reflexivity|]. split; [lia|]. lia.
Qed.

(** More answers behind those a round has consumed change nothing. *)
Lemma collect_loop_rest (inbox inbox' rest : list (option (list F)))
    (n_obs : Z) (st st' : Mgr) (lc lc' : Locals F) (log log' : Log) :
  collect_loop inbox n_obs st lc log = Done (st', lc', log', inbox') ->
  collect_loop (inbox ++ rest) n_obs st lc log
  = Done (st', lc', log', inbox' ++ rest).
Proof.
  revert st lc log. induction inbox as [|ev inbox IH]; intros st lc log E.
  - simpl in E. destruct (Z.ltb_spec (l_n_collected lc) n_obs);
      [discriminate|]. injection E as <- <- <- <-.
    apply collect_loop_at_threshold. assumption.
  - cbn [collect_loop app] in *.
    destruct (l_n_collected lc <? n_obs).
    + inv_bind E. destruct x as [[st1 lc1] log1]. rewrite Ex. cbn [bind].
      apply IH. exact E.
    + injection E as <- <- <- <-. reflexivity.
Qed.

(** Claim C3.  With at least one worker the threshold of a round is the
    smaller of the configured minimum inference size and the number of
    workers, hence at most the number of workers.  A handled env-step-data
    message whose agent count is not negative has at least one agent and
    adds that count to the running count (1 for a single agent).  A round
    stops exactly when its count has reached the threshold.  A round that
    returns has reached the threshold; it has consumed a prefix of the
    pipes' answers, with any shorter prefix of them it is still polling, and
    whatever follows that prefix is left in the pipes.  The count it returns
    is the sum of what the messages it handled have added; the messages
    before the last one add up to less than the threshold, so that the round
    did not go on once the threshold was reached, and with single-agent
    messages alone the count returned is the threshold itself.  A loop
    whose count has reached the threshold returns without another
    inspection. *)
Theorem collection_round_threshold :
  (forall st : Mgr,
     (1 <= length (processes st))%nat ->
     n_obs_per_inference st
       = Z.min (min_inference_size st) (Z.of_nat (length (processes st)))
     /\ n_obs_per_inference st <= Z.of_nat (length (processes st)))
  /\ (forall (st st' : Mgr) (lc lc' : Locals F) proc_id message sd,
        handle_step_data st lc proc_id message = Done (st', lc') ->
        decode_step_data message = Done sd ->
        0 <= sd_n_agents sd ->
        1 <= sd_n_agents sd
        /\ l_n_collected lc' = l_n_collected lc + sd_n_agents sd)
  /\ (forall (st st' : Mgr) (log log' : Log) inbox inbox' next_obs obs
             next_pids pids n_obs k,
        collect_responses st log inbox next_obs next_pids n_obs
          = Done (st', obs, pids, k, log', inbox') ->
        n_obs <= k
        /\ (exists consumed,
              inbox = consumed ++ inbox'
              /\ (forall pre post,
                    consumed = pre ++ post -> post <> [] ->
                    collect_responses st log pre next_obs next_pids n_obs
                      = Pending)
              /\ (forall rest,
                    collect_responses st log (consumed ++ rest) next_obs
                      next_pids n_obs
                    = Done (st', obs, pids, k, log', rest)))
        /\ (exists new,
              log' = log ++ new
              /\ k = sum_counts (map (fun w => increment (snd w))
                                   (step_data_of new))
              /\ (0 < n_obs ->
                  exists pre w,
                    step_data_of new = pre ++ [w]
                    /\ sum_counts (map (fun w => increment (snd w)) pre)
                       < n_obs
                    /\ k = sum_counts (map (fun w => increment (snd w)) pre)
                           + increment (snd w))
              /\ (0 < n_obs ->
                  Forall (fun w => sd_n_agents (snd w) <= 1)
                    (step_data_of new) ->
                  k = n_obs)))
  /\ (forall (inbox : list (option (list F))) n_obs (st : Mgr)
             (lc : Locals F) (log : Log),
        n_obs <= l_n_collected lc ->
        collect_loop inbox n_obs st lc log = Done (st, lc, log, inbox)).
Proof.
  split; [|split; [|split]].
  - intros st Hn. unfold n_obs_per_inference. cbv zeta. split; lia.
  - intros. eapply handle_step_data_count; eauto.
  - intros st st' log log' inbox inbox' next_obs obs next_pids pids n_obs k E.
    destruct (collect_responses_inv _ _ _ _ _ _ _ _ _ _ _ _ E)
      as (st1 & lc & Hloop & -> & -> & -> & ->).
    destruct (collect_loop_stops _ _ _ _ _ _ _ _ _ Hloop)
      as (Hle & consumed & Hin & Hrun & Hpre).
    destruct (collect_loop_total _ _ _ _ _ _ _ _ _ Hloop)
      as (new & -> & _ & Hc & Hlast).
    cbn [l_n_collected] in Hc, Hlast.
    split; [exact Hle|]. split.
    + exists consumed. split; [exact Hin|]. split.
      * intros pre post Hc' Hp. unfold collect_responses.
        rewrite (Hpre pre post Hc' Hp). reflexivity.
      * intros rest. unfold collect_responses.
        rewrite (collect_loop_rest _ _ rest _ _ _ _ _ _ _ Hrun).
        reflexivity.
    + exists new. split; [reflexivity|]. split; [lia|].
      assert (Hstop : 0 < n_obs ->
                exists pre w,
                  step_data_of new = pre ++ [w]
                  /\ sum_counts (map (fun w => increment (snd w)) pre) < n_obs
                  /\ l_n_collected lc
                     = sum_counts (map (fun w => increment (snd w)) pre)
                       + increment (snd w)).
      { intros Hn. destruct (Hlast Hn) as (pre & w & Hsd & Hsum).
        exists pre, w. split; [exact Hsd|]. split; [lia|].
        rewrite Hc, Hsd, map_app, sum_counts_app.
        change (sum_counts (map (fun w => increment (snd w)) [w]))
          with (increment (snd w) + 0). lia. }
      split; [exact Hstop|].
      intros Hn Hall. destruct (Hstop Hn) as (pre & w & Hsd & Hsum & Hk).
      rewrite Hsd in Hall.
      apply (proj1 (Forall_app _ _ _)) in Hall. destruct Hall as [_ Hw].
      apply (proj1 (Forall_singleton _ _)) in Hw. cbv beta in Hw.
      set (before := sum_counts (map (fun w => increment (snd w)) pre)) in *.
      revert Hk. unfold increment.
      destruct (Z.ltb_spec 1 (sd_n_agents (snd w))); intros Hk; lia.
  - intros. apply collect_loop_at_threshold. assumption.
Qed.

(** Property X9.  The value a round returns is the sum, over the
    env-step-data messages it handled, of what each adds (its agent count,
    or 1 for a single agent); it appended one observation per handled
    message, so it returns at least as much as it appended. *)
Theorem round_counts_its_messages (st st' : Mgr) (log log' : Log)
    (inbox inbox' : list (option (list F)))
    (next_obs obs : list (NDArray F)) (next_pids pids : list nat)
    (n_obs k : Z) :
  collect_responses st log inbox next_obs next_pids n_obs
    = Done (st', obs, pids, k, log', inbox') ->
  exists new,
    log' = log ++ new
    /\ k = sum_counts (map (fun w => increment (snd w)) (step_data_of new))
    /\ length obs = (length next_obs + length (step_data_of new))%nat
    /\ Z.of_nat (length (step_data_of new)) <= k.
Proof.
  intros E.
  destruct (collect_responses_inv _ _ _ _ _ _ _ _ _ _ _ _ E)
    as (st1 & lc & Hloop & _ & -> & _ & ->).
  destruct (collect_loop_total _ _ _ _ _ _ _ _ _ Hloop)
    as (new & -> & _ & Hc & _).
  destruct (collect_loop_pairs _ _ _ _ _ _ _ _ _ Hloop)
    as (new' & Hnew & Ho & _).
  apply app_inv_head in Hnew. subst new'.
  exists new. split; [reflexivity|]. simpl in Hc, Ho.
  split; [lia|]. split.
  - rewrite Ho, length_app, length_map. reflexivity.
  - rewrite Hc. pose proof (total_ge_length new). lia.
Qed.

(** Property X10.  A round with a positive threshold stops on the message
    that takes its count to the threshold: the messages handled before the
    last one add up to less than the threshold. When every handled message
    is of a single agent the round returns the threshold exactly. *)
Theorem round_stops_at_threshold (st st' : Mgr) (log log' : Log)
    (inbox inbox' : list (option (list F)))
    (next_obs obs : list (NDArray F)) (next_pids pids : list nat)
    (n_obs k : Z) :
  0 < n_obs ->
  collect_responses st log inbox next_obs next_pids n_obs
    = Done (st', obs, pids, k, log', inbox') ->
  exists new pre w,
    log' = log ++ new
    /\ step_data_of new = pre ++ [w]
    /\ sum_counts (map (fun w => increment (snd w)) pre) < n_obs
    /\ k = sum_counts (map (fun w => increment (snd w)) pre)
           + increment (snd w)
    /\ n_obs <= k
    /\ (Forall (fun w => sd_n_agents (snd w) <= 1) (step_data_of new) ->
        k = n_obs).
Proof.
  intros Hn E.
  destruct (collect_responses_inv _ _ _ _ _ _ _ _ _ _ _ _ E)
    as (st1 & lc & Hloop & _ & _ & _ & ->).
  destruct (collect_loop_stops _ _ _ _ _ _ _ _ _ Hloop) as (Hle & _).
  destruct (collect_loop_total _ _ _ _ _ _ _ _ _ Hloop)
    as (new & -> & _ & Hc & Hlast).
  destruct (Hlast Hn) as (pre & w & Hsd & Hsum).
  exists new, pre, w. split; [reflexivity|]. split; [exact Hsd|].
  rewrite Hsd, map_app, sum_counts_app in Hc.
  change (sum_counts (map (fun w => increment (snd w)) [w]))
    with (increment (snd w) + 0) in Hc.
  cbn [l_n_collected] in Hc, Hsum.
  set (before := sum_counts (map (fun w => increment (snd w)) pre)) in *.
  split; [lia|]. split; [lia|]. split; [exact Hle|].
  intros Hall. rewrite Hsd in Hall.
  apply (proj1 (Forall_app _ _ _)) in Hall. destruct Hall as [_ Hw].
  apply (proj1 (Forall_singleton _ _)) in Hw. cbv beta in Hw.
  revert Hc. unfold increment.
  destruct (Z.ltb_spec 1 (sd_n_agents (snd w))); intros Hc; lia.
Qed.
End RoundCounts.

(** Two workers and the default minimum of 8: the round waits for 2
    observations, collects them with four inspections, the second message
    taking the count from 1 to 2, and leaves the fifth answer in the
    pipe. *)
Lemma collection_round_threshold_witness :
  ((1 <= length (processes two_workers))%nat
   /\ n_obs_per_inference two_workers = 2)
  /\ (exists st' lc' sd,
        handle_step_data two_workers (fresh_locals 0) 0%nat two_agent_payload
          = Done (st', lc')
        /\ decode_step_data two_agent_payload = Done sd
        /\ 0 <= sd_n_agents sd
        /\ l_n_collected lc' = 0 + sd_n_agents sd)
  /\ (exists st' obs pids log',
        collect_responses two_workers [] round_inbox [] [] 2
          = Done (st', obs, pids, 2, log', [None])
        /\ 2 <= 2
        /\ (exists consumed,
              round_inbox = consumed ++ [None]
              /\ (forall pre post,
                    consumed = pre ++ post -> post <> [] ->
                    collect_responses two_workers [] pre [] [] 2 = Pending)
              /\ (forall rest,
                    collect_responses two_workers [] (consumed ++ rest) [] []
                      2
                    = Done (st', obs, pids, 2, log', rest)))
        /\ (exists new,
              log' = [] ++ new
              /\ 2 = sum_counts (map (fun w => increment (snd w))
                                   (step_data_of new))
              /\ (0 < 2 ->
                  exists pre w,
                    step_data_of new = pre ++ [w]
                    /\ sum_counts (map (fun w => increment (snd w)) pre) < 2
                    /\ 2 = sum_counts (map (fun w => increment (snd w)) pre)
                           + increment (snd w))
              /\ (0 < 2 ->
                  Forall (fun w => sd_n_agents (snd w) <= 1)
                    (step_data_of new) ->
                  2 = 2)))
  /\ (2 <= l_n_collected (mkLocals (F := Q) 2 0%nat [] [])
      /\ collect_loop round_inbox 2 two_workers (mkLocals 2 0%nat [] []) []
         = Done (two_workers, mkLocals 2 0%nat [] [], [], round_inbox)).
Proof.
  destruct (@collection_round_threshold Q _ _ _ Q Q)
    as (Hmin & Hcount & Hround & Hstop).
  split; [|split; [|split]].
  - assert (Hw : (1 <= length (processes two_workers))%nat) by (simpl; lia).
    split; [exact Hw|]. destruct (Hmin two_workers Hw) as [-> _]. reflexivity.
  - eexists _, _, _. split; [reflexivity|]. split; [reflexivity|].
    split; [vm_compute; discriminate|].
    refine (proj2 (Hcount two_workers _ (fresh_locals 0) _ 0%nat
                     two_agent_payload _ eq_refl eq_refl _)).
    vm_compute. discriminate.
  - pose proof round_outcome_eq as E. unfold round_outcome in E.
    eexists _, _, _, _. split; [exact E|].
    exact (Hround two_workers _ [] _ round_inbox _ [] _ [] _ 2 _ E).
  - assert (Hle : 2 <= l_n_collected (mkLocals (F := Q) 2 0%nat [] []))
      by (simpl; lia).
    split; [exact Hle|].
    exact (Hstop round_inbox 2 two_workers (mkLocals 2 0%nat [] []) [] Hle).
Defined.

(** ** The output lists *)

Section FlatLists.
Context {F : Type} `{Scalar F} {Act Lp : Type}.

Local Abbreviation Seg := (Segment F Act Lp).
Local Abbreviation Out := (Flat F Act Lp).

Lemma flatten_one_fields (out out' : Out) (traj : Seg) :
  flatten_one out traj = Done out' ->
  states out' = states out ++ trajectory_states traj
  /\ actions out' = actions out ++ trajectory_actions traj
  /\ log_probs out' = log_probs out ++ trajectory_log_probs traj
  /\ rewards out' = rewards out ++ trajectory_rewards traj
  /\ next_states out' = next_states out ++ trajectory_next_states traj
  /\ dones out' = dones out ++ trajectory_dones traj
  /\ length (truncated out') =
     (length (truncated out) + length (trajectory_dones traj))%nat.
Proof.
  intros E. destruct (flatten_one_inv _ _ _ E) as (ds & d & Ht & _ & Htr).
  unfold flatten_one in E. inv_bind E. inv_bind E. injection E as <-. simpl.
  repeat split. simpl in Htr. rewrite Htr, Ht.
  rewrite !length_app, length_map. reflexivity.
Qed.

Lemma flatten_one_empty (out : Out) (traj : Seg) :
  trajectory_dones traj = [] -> flatten_one out traj = Raise IndexError.
Proof. intros E. unfold flatten_one. rewrite E. reflexivity. Qed.

(** Property X11.  Trajectories whose six lists are of one length are
    flattened into seven lists of one length, each longer by the lengths of
    the trajectories. *)
Theorem flattened_lists_stay_aligned (segs : list Seg) (out0 out : Out) :
  Forall segment_ok segs ->
  flat_ok out0 ->
  flatten_trajectories segs out0 = Done out ->
  flat_ok out
  /\ length (dones out) =
     (length (dones out0) + length (concat (map trajectory_dones segs)))%nat.
Proof.
  revert out0. induction segs as [|s segs IH]; intros out0 Hs Ho E.
  - simpl in E. injection E as <-. split; [exact Ho|]. simpl. lia.
  - simpl in E. inv_bind E.
    apply (proj1 (Forall_cons _ _ _)) in Hs. destruct Hs as [Hs Hss].
    destruct (flatten_one_fields _ _ _ Ex) as (E1 & E2 & E3 & E4 & E5 & E6 & E7).
    assert (Hx : flat_ok x).
    { destruct Hs as (S1 & S2 & S3 & S4 & S5).
      destruct Ho as (O1 & O2 & O3 & O4 & O5 & O6).
      unfold flat_ok. rewrite E1, E2, E3, E4, E5, E6, E7, !length_app.
      repeat split; lia. }
    destruct (IH _ Hss Hx E) as [Hok Hlen]. split; [exact Hok|].
    rewrite Hlen, E6. simpl. rewrite !length_app. lia.
Qed.

(** Property X12.  The flattening returns exactly when none of the
    trajectories is of length zero; one of length zero makes it raise
    [IndexError] at line 106. *)
Theorem flattening_needs_a_last_record (segs : list Seg) (out0 : Out) :
  (Forall (fun s => trajectory_dones s <> []) segs ->
   returns (flatten_trajectories segs out0))
  /\ (Exists (fun s => trajectory_dones s = []) segs ->
      flatten_trajectories segs out0 = Raise IndexError).
Proof.
  split.
  - revert out0. induction segs as [|s segs IH]; intros out0 Hs.
    + eexists. reflexivity.
    + apply (proj1 (Forall_cons _ _ _)) in Hs. destruct Hs as [Hs Hss].
      simpl. destruct (flatten_one_nonempty out0 s Hs) as [o ->]. simpl.
      apply IH. exact Hss.
  - revert out0. induction segs as [|s segs IH]; intros out0 Hs.
    + inversion Hs.
    + simpl. destruct (trajectory_dones s) as [|d ds] eqn:Ed.
      * rewrite flatten_one_empty by exact Ed. reflexivity.
      * apply (proj1 (Exists_cons _ _ _)) in Hs.
        destruct Hs as [Hs|Hs]; [congruence|].
        destruct (flatten_one_nonempty out0 s) as [o ->]; [congruence|].
        simpl. apply IH. exact Hs.
Qed.
End FlatLists.


(** ** The manager and the log after a call *)

Section AfterCall.
Context {F : Type} `{Scalar F} `{CommConsts F} `{Numpy F}.
Context {Act Lp : Type} `{Policy F Act Lp}.

Local Abbreviation Mgr := (Manager F Act Lp).
Local Abbreviation Log := (list (IOEvent F Act)).

Lemma keeps_books_refl (st : Mgr) : keeps_books st st.
Proof. split; [reflexivity|repeat split]. Qed.

Lemma keeps_books_trans (st1 st2 st3 : Mgr) :
  keeps_books st1 st2 -> keeps_books st2 st3 -> keeps_books st1 st3.
Proof.
  intros (P1 & T1 & E1 & C1) (P2 & T2 & E2 & C2).
  split; [etransitivity; eauto|]. repeat split; congruence.
Qed.

Lemma inspect_books (st st' : Mgr) (lc lc' : Locals F) (log log' : Log)
    (ev : option (list F)) :
  inspect st lc log ev = Done (st', lc', log') -> keeps_books st st'.
Proof.
  unfold inspect. intros E. inv_bind E.
  destruct ev as [data|];
    [|injection E as <- <- <-; apply keeps_books_refl].
  inv_bind E. inv_bind E. destruct (f_eqb x0 x1);
    [|injection E as <- <- <-; apply keeps_books_refl].
  inv_bind E. destruct x2 as [st2 lc2]. injection E as <- <- <-.
  destruct (handle_step_data_inv _ _ _ _ _ _ Ex2)
    as (sd & k & totals & rews & avg & acc & t0 & _ & _ & _ & _ & -> & _).
  unfold keeps_books. cbn. rewrite !length_insert.
  split; [reflexivity|repeat split].
Qed.

Lemma collect_loop_books (inbox inbox' : list (option (list F))) (n_obs : Z)
    (st st' : Mgr) (lc lc' : Locals F) (log log' : Log) :
  collect_loop inbox n_obs st lc log = Done (st', lc', log', inbox') ->
  keeps_books st st'.
Proof.
  revert st lc log. induction inbox as [|ev inbox IH]; intros st lc log E.
  - simpl in E. destruct (l_n_collected lc <? n_obs); [discriminate|].
    injection E as <- <- <- <-. apply keeps_books_refl.
  - cbn [collect_loop] in E. destruct (l_n_collected lc <? n_obs).
    + inv_bind E. destruct x as [[st1 lc1] log1].
      eapply keeps_books_trans; [eapply inspect_books; eauto|eauto].
    + injection E as <- <- <- <-. apply keeps_books_refl.
Qed.

Lemma collect_responses_books (st st' : Mgr) (log log' : Log)
    (inbox inbox' : list (option (list F)))
    (next_obs obs : list (NDArray F)) (next_pids pids : list nat)
    (n_obs k : Z) :
  collect_responses st log inbox next_obs next_pids n_obs
    = Done (st', obs, pids, k, log', inbox') ->
  keeps_books st st'
  /\ exists new, log' = log ++ new /\ receipts_polled new = true.
Proof.
  intros E.
  destruct (collect_responses_inv _ _ _ _ _ _ _ _ _ _ _ _ E)
    as (st1 & lc & Hloop & -> & _).
  split.
  - destruct (collect_loop_books _ _ _ _ _ _ _ _ _ Hloop) as (P & T & R & C).
    split; [exact P|]. repeat split; assumption.
  - destruct (collect_loop_total _ _ _ _ _ _ _ _ _ Hloop)
      as (new & -> & Hp & _).
    exists new. auto.
Qed.

Lemma send_actions_books (st st' : Mgr) (log log' : Log) :
  send_actions st log = Done (st', log') ->
  keeps_books st st'
  /\ exists new, log' = log ++ new /\ receipts_polled new = true.
Proof.
  unfold send_actions. intros E. destruct (current_obs st) as [obs|].
  - inv_bind E. inv_bind E. destruct (get_action x0) as [acts lps].
    inv_bind E. destruct x1 as [tm log1]. injection E as <- <-.
    destruct (send_loop_log _ _ _ _ _ _ _ _ _ _ Ex1) as [Hlen ->].
    split; [split; [reflexivity|repeat split; auto]|].
    eexists. split; [reflexivity|]. apply receipts_polled_sent.
  - injection E as <- <-. split; [apply keeps_books_refl|].
    exists []. rewrite app_nil_r. auto.
Qed.

Lemma sync_list_length (ts : list (BatchedTrajectory F Act Lp)) :
  length (fst (sync_list ts)) = length ts.
Proof.
  induction ts as [|t ts IH]; [reflexivity|]. simpl.
  destruct (update t) as [t' fin]. destruct (sync_list ts) as [m c].
  simpl in IH. destruct fin; simpl; lia.
Qed.

Lemma sync_trajectories_books (st : Mgr) :
  keeps_books st (sync_trajectories st).
Proof.
  unfold sync_trajectories. pose proof (sync_list_length (trajectory_map st)).
  destruct (sync_list (trajectory_map st)) as [m c]. simpl in *.
  split; [apply prefix_app_r; reflexivity|]. repeat split. assumption.
Qed.

Lemma timestep_loop_books (fuel : nat) (n n_obs : Z)
    (c c' : Collected F Act Lp) :
  timestep_loop fuel n n_obs c = Done c' ->
  keeps_books (c_manager c) (c_manager c')
  /\ exists new, c_log c' = c_log c ++ new /\ receipts_polled new = true.
Proof.
  revert c. induction fuel as [|fuel IH]; intros c E.
  - simpl in E. destruct (c_n_collected c <? n); [discriminate|].
    injection E as <-. split; [apply keeps_books_refl|].
    exists []. rewrite app_nil_r. auto.
  - cbn [timestep_loop] in E. destruct (c_n_collected c <? n).
    + inv_bind E. destruct x as [st1 log1]. inv_bind E.
      destruct x as [[[[[st2 next_obs] next_pids] k] log2] inbox2].
      destruct (send_actions_books _ _ _ _ Ex) as (B1 & new1 & -> & R1).
      destruct (collect_responses_books _ _ _ _ _ _ _ _ _ _ _ _ Ex0)
        as (B2 & new2 & -> & R2).
      destruct (IH _ E) as (B3 & new3 & Hlog & R3).
      cbn [c_manager c_log] in *. split.
      * eapply keeps_books_trans; [exact B1|].
        eapply keeps_books_trans; [exact B2|].
        eapply keeps_books_trans; [|exact B3].
        pose proof (sync_trajectories_books
                      (set_current st2 (Some next_obs) next_pids)) as B.
        exact B.
      * exists (new1 ++ new2 ++ new3). rewrite Hlog, <- !app_assoc.
        split; [reflexivity|].
        repeat apply receipts_polled_app; assumption.
    + injection E as <-. split; [apply keeps_books_refl|].
      exists []. rewrite app_nil_r. auto.
Qed.

(** Property X13.  A call never removes a buffer from the completed ones:
    those it found are still there, in front, followed by the ones it
    completed and by the open buffers it closed at the end. Every worker is
    left with a new, empty buffer, and the timestep total has grown by the
    number the call returns. *)
Theorem call_keeps_completed_buffers (fuel : nat) (st : Mgr) (log : Log)
    (inbox : list (option (list F))) (n k : Z) (out : Flat F Act Lp)
    (c : Collected F Act Lp) :
  collect_timesteps fuel st log inbox n = Done (out, k, c) ->
  completed_trajectories st `prefix_of` completed_trajectories (c_manager c)
  /\ (length (completed_trajectories st) + length (trajectory_map st)
      <= length (completed_trajectories (c_manager c)))%nat
  /\ trajectory_map (c_manager c)
     = replicate (length (trajectory_map st)) new_trajectory
  /\ length (ep_rews (c_manager c)) = length (ep_rews st)
  /\ cumulative_timesteps (c_manager c) = cumulative_timesteps st + k.
Proof.
  intros E.
  destruct (collect_timesteps_inv _ _ _ _ _ _ _ _ E)
    as (c1 & Hloop & _ & -> & ->).
  destruct (timestep_loop_books _ _ _ _ _ Hloop) as ((P & T & R & C) & _).
  cbn [c_manager] in *. cbn. split.
  { etransitivity; [exact P|]. apply prefix_app_r. reflexivity. }
  split.
  { rewrite length_app, T. apply prefix_length in P. lia. }
  split.
  { rewrite <- T. clear.
    induction (trajectory_map (c_manager c1)) as [|t l IH]; [reflexivity|].
    simpl. f_equal. exact IH. }
  split; [exact R|]. rewrite C. reflexivity.
Qed.

(** Property X14.  Nothing is ever received from a pipe that was not polled
    and found ready just before: the log of a call has no receipt but
    directly after a successful poll of the same worker, so that no call
    waits inside [recv_bytes]. *)
Theorem receipts_follow_successful_polls (fuel : nat) (st : Mgr) (log : Log)
    (inbox : list (option (list F))) (n k : Z) (out : Flat F Act Lp)
    (c : Collected F Act Lp) :
  collect_timesteps fuel st log inbox n = Done (out, k, c) ->
  exists new, c_log c = log ++ new /\ receipts_polled new = true.
Proof.
  intros E.
  destruct (collect_timesteps_inv _ _ _ _ _ _ _ _ E)
    as (c1 & Hloop & _ & _ & ->).
  destruct (timestep_loop_books _ _ _ _ _ Hloop) as (_ & new & Hlog & R).
  exists new. cbn [c_log] in *. auto.
Qed.
End AfterCall.

(** ** What the send phase hands to each worker *)

Lemma concat_block {A : Type} (ls : list (list A)) (j : nat) (l : list A) :
  ls !! j = Some l ->
  take (length l) (drop (length (concat (take j ls))) (concat ls)) = l.
Proof.
  intros Hj. rewrite <- (take_drop_middle ls j l Hj) at 2.
  rewrite concat_app, drop_app_length. simpl. apply take_app_length.
Qed.

Lemma map_snd_zip {A B C : Type} (f : B -> C) (l : list A) (k : list B) :
  (length k <= length l)%nat ->
  map (fun x => f (snd x)) (zip l k) = map f k.
Proof.
  revert k. induction l as [|x l IH]; intros [|y k] Hlen; simpl in *;
    try reflexivity; try lia.
  f_equal. apply IH. lia.
Qed.

Lemma sum_list_take_le (dims : list nat) (j : nat) :
  (sum_list (take j dims) <= sum_list dims)%nat.
Proof.
  revert j. induction dims as [|d dims IH]; intros [|j]; simpl; try lia.
  specialize (IH j). lia.
Qed.

Lemma sum_list_take_S (dims : list nat) (j d : nat) :
  dims !! j = Some d ->
  sum_list (take (S j) dims) = (sum_list (take j dims) + d)%nat.
Proof.
  revert j. induction dims as [|x dims IH]; intros [|j] Hj; simpl in *;
    try discriminate.
  - injection Hj as ->. simpl. lia.
  - rewrite (IH _ Hj). lia.
Qed.

Section Blocks.
Context {F : Type}.

Lemma same_trailing_stride (a b : NDArray F) :
  same_trailing a b = true ->
  tail (nd_shape b) = tail (nd_shape a) /\ stride b = stride a.
Proof.
  unfold same_trailing, stride.
  destruct (nd_shape a) as [|da ta]; [discriminate|].
  destruct (nd_shape b) as [|db tb]; [discriminate|].
  intros E. apply bool_decide_eq_true in E. subst tb. auto.
Qed.

(** The data of the arrays before position [j] is as long as the rows of
    the blocks before block [j]. *)
Lemma concat_data_length (obs : list (NDArray F)) (dims : list nat)
    (s j : nat) :
  dimensions_of obs = Done dims ->
  Forall (fun o => nd_ok o /\ stride o = s) obs ->
  length (concat (take j (map nd_data obs))) = (sum_list (take j dims) * s)%nat.
Proof.
  revert dims j. induction obs as [|o obs IH]; intros dims j Hd Ho.
  - simpl in Hd. injection Hd as <-. destruct j; reflexivity.
  - simpl in Hd. inv_bind Hd. inv_bind Hd. injection Hd as <-.
    apply (proj1 (Forall_cons _ _ _)) in Ho.
    destruct Ho as [[(d & Hd0 & Hlen) Hs] Ho].
    apply py_get_done in Ex. unfold shape0 in *.
    assert (d = x) as -> by congruence.
    destruct j as [|j]; [reflexivity|]. simpl.
    rewrite length_app, (IH _ j Ex0 Ho), Hlen, Hs. lia.
Qed.

Lemma dimensions_sum (obs : list (NDArray F)) (dims : list nat) :
  dimensions_of obs = Done dims ->
  foldr Nat.add 0%nat (map (fun b => hd 0%nat (nd_shape b)) obs)
  = sum_list dims.
Proof.
  revert dims. induction obs as [|o obs IH]; intros dims Hd; simpl in Hd.
  - injection Hd as <-. reflexivity.
  - inv_bind Hd. inv_bind Hd. injection Hd as <-. simpl.
    rewrite (IH _ Ex0). apply py_get_done in Ex.
    destruct (nd_shape o); [discriminate|]. simpl in *. congruence.
Qed.

(** Slicing the concatenated batch by the recorded blocks gives back the
    arrays that were concatenated. *)
Lemma concatenate_rows (obs : list (NDArray F)) (dims : list nat)
    (batch o : NDArray F) (j a b : nat) :
  Forall nd_ok obs ->
  dimensions_of obs = Done dims ->
  np_concatenate obs = Done batch ->
  obs !! j = Some o ->
  blocks dims 0 !! j = Some (a, b) ->
  nd_rows batch a b = o.
Proof.
  intros Hok Hd Hc Ho Hb.
  unfold np_concatenate in Hc. destruct obs as [|o0 obs0] eqn:Eobs;
    [discriminate|]. rewrite <- Eobs in *.
  destruct (forallb (same_trailing o0) obs) eqn:Hst; [|discriminate].
  injection Hc as <-.
  assert (Hall : Forall (fun o => nd_ok o /\ stride o = stride o0) obs).
  { apply Forall_forall. intros y Hy. split.
    - eapply Forall_forall in Hok; eauto.
    - rewrite forallb_forall in Hst. apply same_trailing_stride.
      apply Hst. apply list_elem_of_In. exact Hy. }
  assert (Htl : tail (nd_shape o) = tail (nd_shape o0)
                /\ stride o = stride o0).
  { apply same_trailing_stride. rewrite forallb_forall in Hst.
    apply Hst. apply list_elem_of_In. eapply list_elem_of_lookup_2; eauto. }
  destruct Htl as [Htl Hs].
  destruct (blocks_lookup _ _ _ _ _ Hb) as (d & Hdj & -> & ->).
  destruct (dimensions_of_lookup _ _ Hd) as [_ Hdim].
  destruct (Hdim _ _ Ho) as (d' & Hsh & Hdj').
  assert (d' = d) as -> by congruence.
  assert (Hokj : nd_ok o) by (eapply Forall_forall in Hok; eauto;
                               eapply list_elem_of_lookup_2; eauto).
  destruct Hokj as (d'' & Hsh' & Hlen).
  assert (d'' = d) as -> by congruence.
  unfold nd_rows. cbn [nd_shape nd_data hd tail].
  rewrite (dimensions_sum _ _ Hd).
  pose proof (sum_list_take_le dims (S j)) as Hle.
  rewrite (sum_list_take_S _ _ _ Hdj) in Hle.
  simpl in Hle |- *.
  rewrite !Nat.min_l by lia.
  replace (sum_list (take j dims) + d - sum_list (take j dims))%nat with d
    by lia.
  assert (Hstr : stride (mkArray
                   (sum_list dims :: tail (nd_shape o0))
                   (concat (map nd_data obs))) = stride o0) by reflexivity.
  rewrite Hstr.
  rewrite <- (concat_data_length obs dims (stride o0) j Hd Hall).
  rewrite <- Hs, <- Hlen.
  rewrite concat_block by (rewrite list_lookup_fmap, Ho; reflexivity).
  destruct o as [sh data]. simpl in *. f_equal.
  destruct sh as [|x sh]; [discriminate|]. simpl in *. congruence.
Qed.
End Blocks.

Section Handed.
Context {F Act Lp : Type}.

Local Abbreviation Log := (list (IOEvent F Act)).

Lemma sent_blocks_sent (actions : list Act) (ws : list (nat * (nat * nat))) :
  sent_blocks (map (sent_block (F := F) actions) ws)
  = map (fun w => (fst w, rows actions (fst (snd w)) (snd (snd w)))) ws.
Proof. induction ws as [|w ws IH]; [reflexivity|]. simpl. f_equal. exact IH. Qed.

Lemma blocks_within (dims : list nat) (j a b : nat) :
  blocks dims 0 !! j = Some (a, b) -> (b <= sum_list dims)%nat.
Proof.
  intros Hb. destruct (blocks_lookup _ _ _ _ _ Hb) as (d & Hd & -> & ->).
  pose proof (sum_list_take_le dims (S j)) as Hle.
  rewrite (sum_list_take_S _ _ _ Hd) in Hle. simpl. lia.
Qed.

(** Property X15.  The state the send phase stores for a worker is the
    observation that worker reported: slicing the concatenated batch by the
    recorded block gives the observation back, whatever the policy has
    returned. *)
Theorem dispatched_state_is_the_observation (P : Policy F Act Lp)
    (st st' : Manager F Act Lp) (log log' : Log) (obs : list (NDArray F)) :
  NoDup (current_pids st) ->
  Forall nd_ok obs ->
  current_obs st = Some obs ->
  send_actions st log = Done (st', log') ->
  forall j proc_id o,
    current_pids st !! j = Some proc_id ->
    obs !! j = Some o ->
    exists t',
      trajectory_map st' !! proc_id = Some t' /\ state t' = Some o.
Proof.
  intros Hnd Hok Hobs E j proc_id o Hp Ho.
  destruct (send_actions_inv P _ _ _ _ _ Hobs E)
    as (dims & batch & tm & Hd & Hb & Hloop & ->).
  destruct (dimensions_of_lookup _ _ Hd) as [Hlen _].
  destruct (lookup_lt_is_Some_2 (blocks dims 0) j) as [[a b] Hab].
  { rewrite blocks_length, Hlen. eapply lookup_lt_Some; eauto. }
  assert (Hnd' : NoDup (map fst (zip (current_pids st) dims))).
  { eapply sublist_NoDup; [exact Hnd|]. apply zip_fst_sublist. }
  assert (Hz : zip (map fst (zip (current_pids st) dims))
                 (blocks (map snd (zip (current_pids st) dims)) 0) !! j
               = Some (proc_id, (a, b))).
  { rewrite zip_blocks. apply lookup_zip_Some. auto. }
  destruct (send_loop_buffers _ _ _ _ _ _ _ _ _ _ Hnd' Hloop _ _ _ _ Hz)
    as (t & Ht & Ht').
  eexists. split; [exact Ht'|]. simpl. f_equal.
  eapply concatenate_rows; eauto.
Qed.

(** Property X16.  When the policy answers with as many rows as were
    dispatched, nothing is lost and nothing is shared: the workers are
    served in the order of the worker ids, the block sent to each has as
    many rows as its observation, and the blocks put one after the other are
    the batch of actions. *)
Theorem matching_batch_is_partitioned (P : Policy F Act Lp)
    (st st' : Manager F Act Lp) (log log' : Log) (obs : list (NDArray F))
    (dims : list nat) (batch : NDArray F) :
  length obs = length (current_pids st) ->
  current_obs st = Some obs ->
  dimensions_of obs = Done dims ->
  np_concatenate obs = Done batch ->
  length (fst (get_action batch)) = sum_list dims ->
  send_actions st log = Done (st', log') ->
  exists new,
    log' = log ++ new
    /\ map fst (sent_blocks new) = current_pids st
    /\ concat (map snd (sent_blocks new)) = fst (get_action batch)
    /\ (forall j blk d,
          sent_blocks new !! j = Some blk -> dims !! j = Some d ->
          length (snd blk) = d).
Proof.
  intros Hpair Hobs Hd Hb Hsize E.
  destruct (send_actions_inv P _ _ _ _ _ Hobs E)
    as (dims' & batch' & tm & Hd' & Hb' & Hloop & _).
  rewrite Hd in Hd'. injection Hd' as <-.
  rewrite Hb in Hb'. injection Hb' as <-.
  destruct (send_loop_log _ _ _ _ _ _ _ _ _ _ Hloop) as [_ ->].
  rewrite zip_blocks. eexists. split; [reflexivity|].
  rewrite sent_blocks_sent.
  destruct (dimensions_of_lookup _ _ Hd) as [Hlen _].
  set (acts := fst (get_action batch)) in *.
  assert (Hl : length (current_pids st) = length (blocks dims 0))
    by (rewrite blocks_length; lia).
  split; [|split].
  - rewrite map_map. simpl.
    change (map (fun x : nat * (nat * nat) => fst x)
                (zip (current_pids st) (blocks dims 0)))
      with (fst <$> zip (current_pids st) (blocks dims 0)).
    apply fst_zip. lia.
  - rewrite map_map. simpl.
    transitivity (concat (map (fun w => rows acts (fst w) (snd w))
                            (blocks dims 0))).
    + f_equal.
      apply (map_snd_zip (fun w => rows acts (fst w) (snd w))). lia.
    + rewrite rows_blocks_concat. unfold rows. simpl.
      rewrite Nat.sub_0_r, <- Hsize. apply take_ge. lia.
  - intros j blk d Hj Hdj. rewrite list_lookup_fmap in Hj.
    destruct (zip (current_pids st) (blocks dims 0) !! j)
      as [[p [a b]]|] eqn:Ez; [|discriminate].
    injection Hj as <-. simpl.
    apply lookup_zip_Some in Ez. destruct Ez as [_ Hab].
    pose proof (blocks_within _ _ _ _ Hab) as Hin.
    destruct (blocks_lookup _ _ _ _ _ Hab) as (d' & Hd' & -> & ->).
    assert (d' = d) as -> by congruence.
    rewrite rows_length. fold acts in Hsize. lia.
Qed.
End Handed.

(** ** Start-up *)

Lemma got_from_app {F : Type} (l1 l2 : list (SetupEvent F)) :
  got_from (l1 ++ l2) = got_from l1 ++ got_from l2.
Proof.
  induction l1 as [|e l1 IH]; [reflexivity|].
  destruct e; simpl; rewrite IH; reflexivity.
Qed.

Lemma rendering_app {F : Type} (l1 l2 : list (SetupEvent F)) :
  rendering (l1 ++ l2) = rendering l1 ++ rendering l2.
Proof.
  induction l1 as [|e l1 IH]; [reflexivity|].
  destruct e as [p [|]|p m|p|p d]; simpl; rewrite IH; reflexivity.
Qed.

Section SetupProofs.
Context {F : Type} `{Scalar F} `{CommConsts F} `{Numpy F} `{SetupConsts F}.
Context {Act Lp : Type}.

Local Abbreviation Mgr := (Manager F Act Lp).
Local Abbreviation SetupLog := (list (SetupEvent F)).

(** Waiting for a worker ends with its first message: one receipt, no
    process started. *)
Lemma await_log (proc_id : nat) (inbox inbox' : list (option (list F)))
    (log log' : SetupLog) (data : list F) :
  await proc_id inbox log = Done (data, log', inbox') ->
  exists new,
    log' = log ++ new /\ got_from new = [proc_id] /\ rendering new = [].
Proof.
  revert log. induction inbox as [|[d|] inbox IH]; intros log E; simpl in E.
  - discriminate.
  - injection E as <- <- <-. eexists. split; [reflexivity|]. auto.
  - destruct (IH _ E) as (new & -> & Hg & Hr).
    exists (Slept proc_id :: new). rewrite <- app_assoc.
    split; [reflexivity|]. auto.
Qed.

Lemma initial_states_loop_spec (ids : list nat)
    (inbox inbox' : list (option (list F))) (log log' : SetupLog)
    (obs obs' : list (NDArray F)) (pids pids' : list nat) :
  initial_states_loop ids inbox log obs pids = Done (obs', pids', log', inbox') ->
  exists new_pids new,
    pids' = pids ++ new_pids
    /\ new_pids `sublist_of` ids
    /\ length obs' = (length obs + length new_pids)%nat
    /\ log' = log ++ new
    /\ got_from new = ids
    /\ rendering new = [].
Proof.
  revert inbox log obs pids.
  induction ids as [|i ids IH]; intros inbox log obs pids E.
  - simpl in E. injection E as <- <- <- <-.
    exists [], []. rewrite !app_nil_r. simpl. repeat split; auto.
  - cbn [initial_states_loop] in E. inv_bind E.
    destruct x as [[data log1] inbox1].
    destruct (await_log _ _ _ _ _ _ Ex) as (new1 & -> & Hg1 & Hr1).
    destruct (list_eqb _ _).
    + inv_bind E.
      destruct (IH _ _ _ _ E) as (np & new2 & -> & Hs & Hl & -> & Hg2 & Hr2).
      exists (i :: np), (new1 ++ new2).
      rewrite <- !app_assoc. split; [reflexivity|].
      split; [apply sublist_skip; exact Hs|].
      split; [rewrite Hl, length_app; simpl; lia|].
      split; [reflexivity|].
      rewrite got_from_app, rendering_app, Hg1, Hg2, Hr1, Hr2. auto.
    + destruct (IH _ _ _ _ E) as (np & new2 & -> & Hs & Hl & -> & Hg2 & Hr2).
      exists np, (new1 ++ new2).
      rewrite <- !app_assoc. split; [reflexivity|].
      split; [apply sublist_cons; exact Hs|].
      split; [exact Hl|]. split; [reflexivity|].
      rewrite got_from_app, rendering_app, Hg1, Hg2, Hr1, Hr2. auto.
Qed.

Lemma get_initial_states_spec (st st' : Mgr)
    (inbox inbox' : list (option (list F))) (log log' : SetupLog) :
  get_initial_states st inbox log = Done (st', log', inbox') ->
  exists obs pids new,
    st' = set_current st (Some obs) pids
    /\ length obs = length pids
    /\ pids `sublist_of` seq 0 (length (processes st))
    /\ log' = log ++ new
    /\ got_from new = seq 0 (length (processes st))
    /\ rendering new = [].
Proof.
  unfold get_initial_states. intros E. inv_bind E.
  destruct x as [[[obs pids] log1] inbox1]. injection E as <- <- <-.
  destruct (initial_states_loop_spec _ _ _ _ _ _ _ _ _ Ex)
    as (np & new & Hp & Hs & Hl & Hlog & Hg & Hr).
  simpl in Hp, Hl. subst pids. exists obs, np, new.
  split; [reflexivity|]. split; [exact Hl|]. split; [exact Hs|].
  split; [exact Hlog|]. split; [exact Hg|exact Hr].
Qed.

Lemma received_app (l1 l2 : SetupLog) :
  received (l1 ++ l2) = received l1 ++ received l2.
Proof.
  induction l1 as [|e l1 IH]; [reflexivity|].
  destruct e; simpl; rewrite IH; reflexivity.
Qed.

Lemma await_received (proc_id : nat) (inbox inbox' : list (option (list F)))
    (log log' : SetupLog) (data : list F) :
  await proc_id inbox log = Done (data, log', inbox') ->
  exists new, log' = log ++ new /\ received new = [(proc_id, data)].
Proof.
  revert log. induction inbox as [|[d|] inbox IH]; intros log E; simpl in E.
  - discriminate.
  - injection E as <- <- <-. eexists. split; reflexivity.
  - destruct (IH _ E) as (new & -> & Hr).
    exists (Slept proc_id :: new). rewrite <- app_assoc.
    split; [reflexivity|exact Hr].
Qed.

(** The loop of [_get_initial_states]: one message is received from every
    worker of the list, in order; the worker ids it appends are those whose
    message came under the env-reset-state header, and the observations it
    appends are the ones read from these messages. *)
Lemma initial_states_loop_received (ids : list nat)
    (inbox inbox' : list (option (list F))) (log log' : SetupLog)
    (obs obs' : list (NDArray F)) (pids pids' : list nat) :
  initial_states_loop ids inbox log obs pids
    = Done (obs', pids', log', inbox') ->
  exists new_obs new,
    log' = log ++ new
    /\ map fst (received new) = ids
    /\ pids' = pids ++ map fst (List.filter (fun m => is_reset_state (snd m))
                                  (received new))
    /\ obs' = obs ++ new_obs
    /\ Forall2 (fun o m => reset_state_of (snd m) = Done o) new_obs
         (List.filter (fun m => is_reset_state (snd m)) (received new)).
Proof.
  revert inbox log obs pids.
  induction ids as [|i ids IH]; intros inbox log obs pids E.
  - simpl in E. injection E as <- <- <- <-.
    exists [], []. rewrite !app_nil_r. simpl. repeat split; constructor.
  - cbn [initial_states_loop] in E. inv_bind E.
    destruct x as [[data log1] inbox1].
    destruct (await_received _ _ _ _ _ _ Ex) as (new1 & -> & Hr1).
    assert (Hfil : forall new2,
              List.filter (fun m => is_reset_state (snd m))
                (received (new1 ++ new2))
              = (if is_reset_state data then [(i, data)] else [])
                ++ List.filter (fun m => is_reset_state (snd m))
                     (received new2)).
    { intros new2. rewrite received_app, Hr1. cbn [app List.filter snd].
      destruct (is_reset_state data); reflexivity. }
    assert (Hids : forall new2,
              map fst (received (new1 ++ new2))
              = i :: map fst (received new2)).
    { intros new2. rewrite received_app, Hr1. reflexivity. }
    destruct (list_eqb _ _) eqn:Eh.
    + inv_bind E.
      destruct (IH _ _ _ _ E) as (no & new2 & Hlog & Hi & Hp & Ho & Hf).
      exists (x :: no), (new1 ++ new2).
      rewrite Hfil, Hids. unfold is_reset_state at 1 3. rewrite Eh.
      rewrite Hlog, Hi, Hp, Ho, <- !app_assoc.
      split; [reflexivity|]. split; [reflexivity|]. split; [reflexivity|].
      split; [reflexivity|]. constructor; [exact Ex0|exact Hf].
    + destruct (IH _ _ _ _ E) as (no & new2 & Hlog & Hi & Hp & Ho & Hf).
      exists no, (new1 ++ new2).
      rewrite Hfil, Hids. unfold is_reset_state at 1 3. rewrite Eh.
      rewrite Hlog, Hi, Hp, Ho, <- !app_assoc.
      split; [reflexivity|]. split; [reflexivity|]. split; [reflexivity|].
      split; [reflexivity|]. exact Hf.
Qed.

(** Property X17.  [_get_initial_states] waits for one message of every
    worker, in the order of the worker ids, and asks no worker twice.  The
    worker ids it leaves are exactly those whose message came under the
    env-reset-state header, so that a worker whose message came under
    another header is left out; the observations it leaves are the ones read
    from these messages, one per worker id, in the same order.  The ids are
    in increasing order, none twice.  Nothing of the manager changes but
    the observations and the worker ids. *)
Theorem initial_states_are_paired (st st' : Mgr)
    (inbox inbox' : list (option (list F))) (log log' : SetupLog) :
  get_initial_states st inbox log = Done (st', log', inbox') ->
  exists obs new,
    st' = set_current st (Some obs) (current_pids st')
    /\ log' = log ++ new
    /\ map fst (received new) = seq 0 (length (processes st))
    /\ current_pids st'
       = map fst (List.filter (fun m => is_reset_state (snd m))
                    (received new))
    /\ Forall2 (fun o m => reset_state_of (snd m) = Done o) obs
         (List.filter (fun m => is_reset_state (snd m)) (received new))
    /\ paired st'
    /\ current_pids st' `sublist_of` seq 0 (length (processes st))
    /\ NoDup (current_pids st').
Proof.
  intros E.
  destruct (get_initial_states_spec _ _ _ _ _ _ E)
    as (obs0 & pids0 & new0 & Hst & Hl & Hs & _).
  unfold get_initial_states in E. inv_bind E.
  destruct x as [[[obs pids] log1] inbox1]. injection E as <- <- <-.
  destruct (initial_states_loop_received _ _ _ _ _ _ _ _ _ Ex)
    as (no & new & -> & Hi & Hp & Ho & Hf).
  simpl in Hp, Ho. subst pids obs.
  injection Hst as <- <-.
  exists no, new. cbn [current_pids set_current].
  split; [reflexivity|]. split; [reflexivity|]. split; [exact Hi|].
  split; [reflexivity|]. split; [exact Hf|].
  split; [intros o [= <-]; exact Hl|].
  split; [exact Hs|].
  eapply sublist_NoDup; [apply NoDup_seq|exact Hs].
Qed.

(** The loop of [_get_env_shapes] passes over the pipes that are not ready
    and the messages under other headers. *)
Lemma env_shapes_loop_skip (pre rest : list (option (list F)))
    (log : SetupLog) :
  Forall passed_over pre ->
  exists new,
    env_shapes_loop (pre ++ rest) log = env_shapes_loop rest (log ++ new)
    /\ rendering new = [].
Proof.
  revert log. induction pre as [|ev pre IH]; intros log Hp.
  - exists []. rewrite app_nil_r. auto.
  - apply (proj1 (Forall_cons _ _ _)) in Hp. destruct Hp as [Hev Hp].
    destruct ev as [data|]; cbn [app env_shapes_loop].
    + unfold passed_over, is_shapes_reply in Hev. rewrite Hev.
      destruct (IH (log ++ [Got 0%nat data]) Hp) as (new & -> & Hr).
      exists (Got 0%nat data :: new). rewrite <- app_assoc. auto.
    + destruct (IH (log ++ [Slept 0%nat]) Hp) as (new & -> & Hr).
      exists (Slept 0%nat :: new). rewrite <- app_assoc. auto.
Qed.

(** Property X18.  [_get_env_shapes] returns the three numbers of the first
    message under the env-shapes header as integers; the pipes that were not
    ready and the messages under other headers that came before it are
    consumed and dropped, and what follows it is left in the pipe. *)
Theorem env_shapes_reply (st : Mgr) (pre rest : list (option (list F)))
    (log : SetupLog) (w : WorkerHandle) (available_data : list F)
    (a b c : F) (x y z : Z) :
  processes st !! 0%nat = Some w ->
  Forall passed_over pre ->
  is_shapes_reply available_data = true ->
  drop HEADER_LEN (unpack_message available_data) = [a; b; c] ->
  f_int a = Some x -> f_int b = Some y -> f_int c = Some z ->
  exists log',
    get_env_shapes st (pre ++ Some available_data :: rest) log
    = Done (x, y, z, log', rest).
Proof.
  intros Hw Hp Hr Hd Ha Hb Hc. unfold get_env_shapes, py_key. rewrite Hw.
  cbn [bind].
  destruct (env_shapes_loop_skip pre (Some available_data :: rest)
              (log ++ [Asked 0%nat ENV_SHAPES_HEADER]) Hp) as (new & -> & _).
  cbn [env_shapes_loop]. unfold is_shapes_reply in Hr. rewrite Hr, Hd.
  unfold py_int. rewrite Ha, Hb, Hc. cbn [bind]. eexists. reflexivity.
Qed.

(** Property X19.  [_get_env_shapes] without a worker 0 raises [KeyError]
    before anything is sent; a reply that does not carry exactly three
    numbers raises [ValueError]; and as long as no reply has come it keeps
    waiting. *)
Theorem env_shapes_failures (st : Mgr) (pre rest : list (option (list F)))
    (log : SetupLog) :
  (processes st = [] ->
   get_env_shapes st (pre ++ rest) log = Raise KeyError)
  /\ (forall w available_data,
        processes st !! 0%nat = Some w ->
        Forall passed_over pre ->
        is_shapes_reply available_data = true ->
        length (drop HEADER_LEN (unpack_message available_data)) <> 3%nat ->
        get_env_shapes st (pre ++ Some available_data :: rest) log
        = Raise ValueError)
  /\ (forall w,
        processes st !! 0%nat = Some w ->
        Forall passed_over pre ->
        get_env_shapes st pre log = Pending).
Proof.
  split; [|split].
  - intros Hp. unfold get_env_shapes, py_key. rewrite Hp. reflexivity.
  - intros w data Hw Hp Hr Hlen. unfold get_env_shapes, py_key. rewrite Hw.
    cbn [bind].
    destruct (env_shapes_loop_skip pre (Some data :: rest)
                (log ++ [Asked 0%nat ENV_SHAPES_HEADER]) Hp) as (new & -> & _).
    cbn [env_shapes_loop]. unfold is_shapes_reply in Hr. rewrite Hr.
    destruct (drop HEADER_LEN (unpack_message data)) as [|a [|b [|c [|d l]]]];
      try reflexivity.
    simpl in Hlen. congruence.
  - intros w Hw Hp. unfold get_env_shapes, py_key. rewrite Hw. cbn [bind].
    destruct (env_shapes_loop_skip pre []
                (log ++ [Asked 0%nat ENV_SHAPES_HEADER]) Hp) as (new & E & _).
    rewrite app_nil_r in E. rewrite E. reflexivity.
Qed.

Lemma env_shapes_loop_log (inbox inbox' : list (option (list F)))
    (log log' : SetupLog) (o a t : Z) :
  env_shapes_loop inbox log = Done (o, a, t, log', inbox') ->
  exists new, log' = log ++ new /\ rendering new = [].
Proof.
  revert log. induction inbox as [|[data|] inbox IH]; intros log E;
    cbn [env_shapes_loop] in E.
  - discriminate.
  - destruct (list_eqb _ _).
    + destruct (drop HEADER_LEN (unpack_message data))
        as [|x1 [|x2 [|x3 [|x4 l]]]]; try discriminate.
      inv_bind E. inv_bind E. inv_bind E. injection E as _ _ _ <- _.
      eexists. split; [reflexivity|]. reflexivity.
    + destruct (IH _ E) as (new & -> & Hr).
      exists (Got 0%nat data :: new). rewrite <- app_assoc. auto.
  - destruct (IH _ E) as (new & -> & Hr).
    exists (Slept 0%nat :: new). rewrite <- app_assoc. auto.
Qed.

Lemma rendering_started (render : bool) (n s : nat) :
  rendering (map (fun i => Started (F := F) i ((i =? 0)%nat && render))
               (seq (S s) n)) = [].
Proof.
  revert s. induction n as [|n IH]; intros s; [reflexivity|].
  simpl. apply IH.
Qed.

(** What a successful [init_processes] leaves behind. *)
Lemma init_processes_inv (n : nat) (render : bool) (st st' : Mgr)
    (inbox inbox' : list (option (list F))) (log log' : SetupLog)
    (o a t : Z) :
  init_processes n render st inbox log = Done (o, a, t, st', log', inbox') ->
  exists obs pids new,
    st' = mkManager (spawned n (processes st)) (Some obs) pids
            (average_reward st) (cumulative_timesteps st)
            (min_inference_size st)
            (map (fun _ => [f_zero]) (spawned n (processes st)))
            (map (fun _ => new_trajectory) (spawned n (processes st)))
            (completed_trajectories st) (buffer_ptr st) n
    /\ length obs = length pids
    /\ pids `sublist_of` seq 0 (length (spawned n (processes st)))
    /\ (0 < length (spawned n (processes st)))%nat
    /\ log' = log ++ new
    /\ rendering new = (if render && (0 <? n)%nat then [0%nat] else []).
Proof.
  unfold init_processes. intros E. inv_bind E.
  destruct x as [[st1 log1] inbox1]. inv_bind E.
  destruct x as [[[[o' a'] t'] log2] inbox2]. injection E as <- <- <- <- <- <-.
  destruct (get_initial_states_spec _ _ _ _ _ _ Ex)
    as (obs & pids & new1 & -> & Hl & Hs & -> & _ & Hr1).
  unfold get_env_shapes in Ex0. inv_bind Ex0. apply py_key_done in Ex1.
  destruct (env_shapes_loop_log _ _ _ _ _ _ _ Ex0) as (new2 & -> & Hr2).
  cbn in *. exists obs, pids. eexists. split; [reflexivity|].
  split; [exact Hl|]. split; [exact Hs|].
  split; [eapply lookup_lt_Some; eauto|].
  rewrite <- !app_assoc. split; [reflexivity|].
  rewrite !rendering_app, Hr1, Hr2. simpl. rewrite app_nil_r.
  destruct n as [|n]; [destruct render; reflexivity|].
  cbn [seq map]. rewrite andb_true_l.
  destruct render; simpl; rewrite rendering_started; reflexivity.
Qed.

(** Property X20.  On a manager fresh from [__init__] a successful
    [init_processes(n)] has started at least one worker, and leaves exactly
    [n] workers, each with the accumulator [[0]] and an empty buffer, the
    cursor on a worker, and the observations and worker ids in pairs without
    a worker twice: all that the collection needs. *)
Theorem init_processes_prepares_collection (n : nat) (render : bool)
    (m : Z) (st' : Mgr) (inbox inbox' : list (option (list F)))
    (log log' : SetupLog) (o a t : Z) :
  init_processes n render (init m) inbox log
    = Done (o, a, t, st', log', inbox') ->
  (1 <= n)%nat
  /\ processes st' = map Worker (seq 0 n)
  /\ n_procs st' = n
  /\ (buffer_ptr st' < n_procs st')%nat
  /\ (n_procs st' <= length (processes st'))%nat
  /\ ep_rews st' = replicate n [f_zero]
  /\ trajectory_map st' = replicate n new_trajectory
  /\ completed_trajectories st' = []
  /\ average_reward st' = None
  /\ min_inference_size st' = m
  /\ paired st'
  /\ NoDup (current_pids st')
  /\ Forall (fun p => (p < n)%nat) (current_pids st').
Proof.
  intros E.
  destruct (init_processes_inv _ _ _ _ _ _ _ _ _ _ _ E)
    as (obs & pids & new & -> & Hl & Hs & Hpos & _ & _).
  assert (Hsp : spawned n (processes (init m : Mgr)) = map Worker (seq 0 n)).
  { unfold spawned. simpl. rewrite drop_nil, app_nil_r. reflexivity. }
  rewrite Hsp in *. rewrite length_map, length_seq in *. cbn.
  assert (Hrep : forall (A : Type) (x : A) (l : list WorkerHandle),
             map (fun _ => x) l = replicate (length l) x).
  { intros A x l. induction l; simpl; congruence. }
  rewrite !Hrep, length_map, length_seq.
  split; [lia|]. split; [reflexivity|]. split; [reflexivity|].
  split; [lia|]. split; [lia|]. do 5 (split; [reflexivity|]).
  split; [intros o' [= <-]; exact Hl|].
  split; [eapply sublist_NoDup; [apply NoDup_seq|exact Hs]|].
  apply Forall_forall. intros p Hp.
  pose proof (elem_of_sublist _ _ _ Hp Hs) as Hin.
  apply elem_of_seq in Hin. lia.
Qed.

(** Property X21.  Without a worker to start, [init_processes] on a manager
    that has none raises [KeyError]: there is no worker 0 to ask for the
    shapes. *)
Theorem init_processes_needs_a_worker (render : bool) (st : Mgr)
    (inbox : list (option (list F))) (log : SetupLog) :
  processes st = [] ->
  init_processes 0 render st inbox log = Raise KeyError.
Proof.
  intros Hp. unfold init_processes, spawned. rewrite Hp. reflexivity.
Qed.

(** Property X22.  Rendering is asked of worker 0 alone, and only when
    [render] is set and a worker is started at all. *)
Theorem only_worker_zero_renders (n : nat) (render : bool) (st st' : Mgr)
    (inbox inbox' : list (option (list F))) (log log' : SetupLog)
    (o a t : Z) :
  init_processes n render st inbox log = Done (o, a, t, st', log', inbox') ->
  exists new,
    log' = log ++ new
    /\ rendering new = (if render && (0 <? n)%nat then [0%nat] else []).
Proof.
  intros E.
  destruct (init_processes_inv _ _ _ _ _ _ _ _ _ _ _ E)
    as (obs & pids & new & _ & _ & _ & _ & Hlog & Hr).
  exists new. auto.
Qed.
End SetupProofs.

(** ** The further properties on concrete runs *)

Lemma inspect_outcome_eq :
  inspect two_workers (fresh_locals 0) [] (Some (step_message 0 1 3 4))
  = inspect_outcome.
Proof. vm_compute. reflexivity. Qed.

Lemma open_outcome_eq :
  handle_step_data second_episode (fresh_locals 0) 0%nat open_payload
  = open_outcome.
Proof. vm_compute. reflexivity. Qed.

Lemma initial_outcome_eq :
  get_initial_states (with_workers 2 fresh_manager) odd_start_inbox []
  = initial_outcome.
Proof. vm_compute. reflexivity. Qed.

Lemma init_outcome_eq :
  init_processes 2 true fresh_manager setup_inbox [] = init_outcome.
Proof. vm_compute. reflexivity. Qed.

(** The send phase of the two workers leaves no observation, and a second
    send phase is without effect. *)
Lemma send_actions_consumes_observations_witness :
  exists st' log',
    send_actions two_workers [] = Done (st', log')
    /\ current_obs st' = None
    /\ current_pids st' = current_pids two_workers
    /\ forall log'', send_actions st' log'' = Done (st', log'').
Proof.
  pose proof send_outcome_eq as E. unfold send_outcome in E.
  eexists _, _. split; [exact E|].
  exact (send_actions_consumes_observations two_workers _ [] _ E).
Defined.

(** A manager fresh from [__init__] holds an empty list of observations;
    asking it for one timestep raises [ValueError]. *)
Lemma collect_without_observations_witness :
  current_obs fresh_manager = Some []
  /\ 0 < 1
  /\ collect_timesteps 1 fresh_manager [] round_inbox 1 = Raise ValueError.
Proof.
  assert (Hn : 0 < 1) by lia.
  split; [reflexivity|]. split; [exact Hn|].
  exact (collect_without_observations 0 fresh_manager [] round_inbox 1
           eq_refl Hn).
Defined.

(** Two workers under a minimum inference size of 0: a call for one timestep
    raises. *)
Lemma collect_with_no_minimum_witness :
  min_inference_size no_minimum <= 0
  /\ 0 < 1
  /\ raises (collect_timesteps 2 no_minimum [] round_inbox 1).
Proof.
  assert (Hm : min_inference_size no_minimum <= 0) by (simpl; lia).
  assert (Hn : 0 < 1) by lia.
  split; [exact Hm|]. split; [exact Hn|].
  exact (collect_with_no_minimum 0 no_minimum [] round_inbox 1 Hm Hn).
Defined.

(** Three pipes that are not ready in front of a round of the two workers:
    the cursor goes from 0 over 1 and 0 to 1, and the three answers alone
    leave the round polling. *)
Lemma not_ready_workers_are_passed_over_witness :
  (l_buffer_ptr (fresh_locals (F := Q) 0) < n_procs two_workers)%nat
  /\ (n_procs two_workers <= length (processes two_workers))%nat
  /\ collect_loop (replicate 3 None ++ round_inbox) 2 two_workers
       (fresh_locals 0) []
     = collect_loop round_inbox 2 two_workers (mkLocals 0 1%nat [] [])
         [Polled 0%nat false; Polled 1%nat false; Polled 0%nat false]
  /\ collect_responses two_workers [] (replicate 3 None) [] [] 2 = Pending.
Proof.
  assert (H1 : l_n_collected (fresh_locals (F := Q) 0) < 2) by (simpl; lia).
  assert (H2 : 0 < 2) by lia.
  assert (H3 : (l_buffer_ptr (fresh_locals (F := Q) 0)
                < n_procs two_workers)%nat) by (simpl; lia).
  assert (H4 : (buffer_ptr two_workers < n_procs two_workers)%nat)
    by (simpl; lia).
  assert (H5 : (n_procs two_workers <= length (processes two_workers))%nat)
    by (simpl; lia).
  split; [exact H3|]. split; [exact H5|].
  exact (not_ready_workers_are_passed_over 3 round_inbox 2 two_workers
           (fresh_locals 0) [] [] [] H1 H2 H3 H4 H5).
Defined.

(** The inspection of worker 0 adds the reward 1 to its accumulator and
    leaves worker 1 alone. *)
Lemma inspection_touches_one_worker_witness :
  exists st' lc' log',
    inspect two_workers (fresh_locals 0) [] (Some (step_message 0 1 3 4))
      = Done (st', lc', log')
    /\ ep_rews st' !! 0%nat = Some [1%Q]
    /\ ep_rews st' !! 1%nat = ep_rews two_workers !! 1%nat
    /\ trajectory_map st' !! 1%nat = trajectory_map two_workers !! 1%nat
    /\ current_obs st' = current_obs two_workers
    /\ completed_trajectories st' = completed_trajectories two_workers.
Proof.
  pose proof inspect_outcome_eq as E. unfold inspect_outcome in E.
  destruct (inspection_touches_one_worker two_workers _ (fresh_locals 0) _
              [] _ _ E)
    as (Ho & _ & Hc & _ & _ & _ & Hq & _).
  destruct (Hq 1%nat) as [He Ht]; [simpl; lia|].
  eexists _, _, _. split; [exact E|]. split; [reflexivity|].
  split; [exact He|]. split; [exact Ht|]. split; [exact Ho|exact Hc].
Defined.

(** Two agents on an accumulator with one slot: the rewards 4 and 5 give the
    slots 5 and 5; with the reward 4 alone the second agent raises
    [IndexError]. *)
Lemma multi_agent_rewards_by_slot_witness :
  1 < 2
  /\ [[1%Q]] !! 0%nat = Some [1%Q]
  /\ (exists acc',
        record_rewards [[1%Q]] 0%nat 2 [4%Q; 5%Q]
          = Done (2, acc', RArray [4%Q; 5%Q])
        /\ acc' = [5%Q; 5%Q])
  /\ record_rewards [[1%Q]] 0%nat 2 [4%Q] = Raise IndexError.
Proof.
  assert (Hn : 1 < 2) by lia.
  split; [exact Hn|]. split; [reflexivity|]. split.
  - eexists. split; reflexivity.
  - refine (proj2 (multi_agent_rewards_by_slot [[1%Q]] 0%nat 2 [4%Q] [1%Q]
                     Hn eq_refl) _).
    simpl. lia.
Defined.

(** A step of reward 1 that does not end the episode: the average stays, the
    accumulator goes from 1 to 2. *)
Lemma average_reward_kept_within_episode_witness :
  exists st' lc' sd,
    handle_step_data second_episode (fresh_locals 0) 0%nat open_payload
      = Done (st', lc')
    /\ decode_step_data open_payload = Done sd
    /\ truthy (sd_done sd) = false
    /\ average_reward st' = average_reward second_episode
    /\ ep_rews st' !! 0%nat = Some [2%Q].
Proof.
  pose proof open_outcome_eq as E. unfold open_outcome in E.
  eexists _, _, _. split; [exact E|]. split; [reflexivity|].
  split; [reflexivity|].
  split; [|reflexivity].
  exact (proj1 (average_reward_kept_within_episode second_episode _
                  (fresh_locals 0) _ 0%nat open_payload _ E eq_refl
                  eq_refl)).
Defined.

(** The payloads [[1]] and [[0; 0; 7]], an empty message, and over the
    extended rationals a dimension count that is a NaN and one that is an
    infinity. *)
Lemma undecodable_payloads_witness :
  decode_step_data [1%Q] = Raise IndexError
  /\ decode_step_data [0%Q; 0%Q; 7%Q] = Raise IndexError
  /\ inspect two_workers (fresh_locals 0) [] (Some []) = Raise IndexError
  /\ f_int NaN = None
  /\ decode_step_data [Fin 0; NaN; Fin 7] = Raise ValueError
  /\ f_int (Inf false) = None
  /\ decode_step_data [Fin 0; Inf false; Fin 7] = Raise OverflowError.
Proof.
  destruct (@undecodable_payloads Q _ _ _ Q Q) as (Hshort & _ & Hzero & Hempty).
  destruct (@undecodable_payloads XQ _ _ _ Q Q) as (_ & Hint & _ & _).
  split; [apply Hshort; simpl; lia|].
  split; [apply Hzero; reflexivity|].
  split; [exact (Hempty two_workers (fresh_locals 0) [] (Worker 0) eq_refl)|].
  split; [reflexivity|].
  split; [exact (Hint (Fin 0) NaN [Fin 7] eq_refl)|].
  split; [reflexivity|].
  exact (Hint (Fin 0) (Inf false) [Fin 7] eq_refl).
Defined.

(** The round of the two workers returns 2, the sum over its two messages. *)
Lemma round_counts_its_messages_witness :
  exists st' obs pids log',
    collect_responses two_workers [] round_inbox [] [] 2
      = Done (st', obs, pids, 2, log', [None])
    /\ exists new,
         log' = [] ++ new
         /\ 2 = sum_counts (map (fun w => increment (snd w))
                              (step_data_of new))
         /\ length obs = (length (@nil (NDArray Q))
                          + length (step_data_of new))%nat
         /\ Z.of_nat (length (step_data_of new)) <= 2.
Proof.
  pose proof round_outcome_eq as E. unfold round_outcome in E.
  eexists _, _, _, _. split; [exact E|].
  exact (round_counts_its_messages two_workers _ [] _ round_inbox _ [] _ [] _
           2 _ E).
Defined.

(** The round of the two workers under the threshold 2 stops on its second
    message. *)
Lemma round_stops_at_threshold_witness :
  exists st' obs pids log',
    0 < 2
    /\ collect_responses two_workers [] round_inbox [] [] 2
       = Done (st', obs, pids, 2, log', [None])
    /\ exists new pre w,
         log' = [] ++ new
         /\ step_data_of new = pre ++ [w]
         /\ sum_counts (map (fun w => increment (snd w)) pre) < 2
         /\ 2 = sum_counts (map (fun w => increment (snd w)) pre)
                + increment (snd w)
         /\ 2 <= 2
         /\ (Forall (fun w => sd_n_agents (snd w) <= 1) (step_data_of new) ->
             2 = 2).
Proof.
  assert (Hn : 0 < 2) by lia.
  pose proof round_outcome_eq as E. unfold round_outcome in E.
  eexists _, _, _, _. split; [exact Hn|]. split; [exact E|].
  exact (round_stops_at_threshold two_workers _ [] _ round_inbox _ [] _ [] _
           2 _ Hn E).
Defined.

(** An open and a closed trajectory of two records each give seven lists of
    length four. *)
Lemma flattened_lists_stay_aligned_witness :
  exists out,
    Forall segment_ok [open_trajectory; closed_trajectory]
    /\ flat_ok (empty_flat (F := Q) (Act := Q) (Lp := Q))
    /\ flatten_trajectories [open_trajectory; closed_trajectory] empty_flat
       = Done out
    /\ flat_ok out
    /\ length (dones out) = 4%nat.
Proof.
  assert (Hs : Forall segment_ok [open_trajectory; closed_trajectory])
    by (repeat constructor).
  assert (Ho : flat_ok (empty_flat (F := Q) (Act := Q) (Lp := Q)))
    by (repeat split).
  eexists. split; [exact Hs|]. split; [exact Ho|]. split; [reflexivity|].
  exact (flattened_lists_stay_aligned [open_trajectory; closed_trajectory]
           empty_flat _ Hs Ho eq_refl).
Defined.

(** Two trajectories with records are flattened; a trajectory without a
    record among them raises [IndexError]. *)
Lemma flattening_needs_a_last_record_witness :
  returns (flatten_trajectories [open_trajectory; closed_trajectory]
             empty_flat)
  /\ flatten_trajectories
       [open_trajectory; mkSegment [] [] [] [] [] []] empty_flat
     = Raise IndexError.
Proof.
  split.
  - apply (proj1 (flattening_needs_a_last_record
                    [open_trajectory; closed_trajectory] empty_flat)).
    repeat constructor; discriminate.
  - apply (proj2 (flattening_needs_a_last_record
                    [open_trajectory; mkSegment [] [] [] [] [] []]
                    empty_flat)).
    apply Exists_cons_tl. apply Exists_cons_hd. reflexivity.
Defined.

(** A call of the two workers that collects four timesteps: three completed
    buffers afterwards, two new open ones, and a total of 4. *)
Lemma call_keeps_completed_buffers_witness :
  exists out k c,
    collect_timesteps 5 two_workers [] call_inbox 3 = Done (out, k, c)
    /\ length (completed_trajectories (c_manager c)) = 3%nat
    /\ completed_trajectories two_workers
         `prefix_of` completed_trajectories (c_manager c)
    /\ trajectory_map (c_manager c) = [new_trajectory; new_trajectory]
    /\ cumulative_timesteps (c_manager c) = 4.
Proof.
  pose proof call_outcome_eq as E. unfold call_outcome in E.
  destruct (call_keeps_completed_buffers 5 two_workers [] call_inbox 3 _ _ _ E)
    as (Hp & _ & Ht & _ & Hc).
  eexists _, _, _. split; [exact E|]. split; [reflexivity|].
  split; [exact Hp|]. split; [exact Ht|exact Hc].
Defined.

(** The log of the same call has its receipts after successful polls only. *)
Lemma receipts_follow_successful_polls_witness :
  exists out k c,
    collect_timesteps 5 two_workers [] call_inbox 3 = Done (out, k, c)
    /\ exists new, c_log c = [] ++ new /\ receipts_polled new = true.
Proof.
  pose proof call_outcome_eq as E. unfold call_outcome in E.
  eexists _, _, _. split; [exact E|].
  exact (receipts_follow_successful_polls 5 two_workers [] call_inbox 3
           _ _ _ E).
Defined.

(** The state stored for worker 1 by the send phase of the two workers is
    the observation it reported. *)
Lemma dispatched_state_is_the_observation_witness :
  exists st' log',
    NoDup (current_pids two_workers)
    /\ Forall nd_ok [example_obs; example_obs]
    /\ send_actions two_workers [] = Done (st', log')
    /\ exists t',
         trajectory_map st' !! 1%nat = Some t'
         /\ state t' = Some example_obs.
Proof.
  assert (Hnd : NoDup (current_pids two_workers)).
  { exact (NoDup_seq 0 2). }
  assert (Hok : Forall nd_ok [example_obs; example_obs]).
  { repeat constructor; exists 1%nat; split; reflexivity. }
  pose proof send_outcome_eq as E. unfold send_outcome in E.
  eexists _, _. split; [exact Hnd|]. split; [exact Hok|]. split; [exact E|].
  exact (dispatched_state_is_the_observation example_policy two_workers _ []
           _ [example_obs; example_obs] Hnd Hok eq_refl E 1%nat 1%nat
           example_obs eq_refl eq_refl).
Defined.

(** The example policy answers the batch of two rows with two rows: one goes
    to each worker. *)
Lemma matching_batch_is_partitioned_witness :
  exists st' log' batch,
    send_actions two_workers [] = Done (st', log')
    /\ np_concatenate [example_obs; example_obs] = Done batch
    /\ length (fst (get_action batch)) = sum_list [1; 1]%nat
    /\ exists new,
         log' = [] ++ new
         /\ map fst (sent_blocks new) = current_pids two_workers
         /\ concat (map snd (sent_blocks new)) = fst (get_action batch)
         /\ (forall j blk d,
               sent_blocks new !! j = Some blk -> [1; 1]%nat !! j = Some d ->
               length (snd blk) = d).
Proof.
  pose proof send_outcome_eq as E. unfold send_outcome in E.
  eexists _, _, _. split; [exact E|]. split; [reflexivity|].
  split; [reflexivity|].
  exact (matching_batch_is_partitioned example_policy two_workers _ [] _
           [example_obs; example_obs] [1; 1]%nat _ eq_refl eq_refl eq_refl
           eq_refl eq_refl E).
Defined.

(** Two workers, of which worker 0 reports a step instead of its first
    observation: worker 1 alone is left with an observation. *)
Lemma initial_states_are_paired_witness :
  exists st' log' inbox',
    get_initial_states (with_workers 2 fresh_manager) odd_start_inbox []
      = Done (st', log', inbox')
    /\ current_pids st' = [1%nat]
    /\ current_obs st' = Some [mkArray [1; 2]%nat [5%Q; 6%Q]]
    /\ exists obs new,
         st' = set_current (with_workers 2 fresh_manager) (Some obs)
                 (current_pids st')
         /\ log' = [] ++ new
         /\ map fst (received new) = seq 0 2
         /\ current_pids st'
            = map fst (List.filter (fun m => is_reset_state (snd m))
                         (received new))
         /\ Forall2 (fun o m => reset_state_of (snd m) = Done o) obs
              (List.filter (fun m => is_reset_state (snd m)) (received new))
         /\ paired st'
         /\ current_pids st' `sublist_of` seq 0 2
         /\ NoDup (current_pids st').
Proof.
  pose proof initial_outcome_eq as E. unfold initial_outcome in E.
  eexists _, _, _. split; [exact E|]. split; [reflexivity|].
  split; [reflexivity|].
  exact (initial_states_are_paired (with_workers 2 fresh_manager) _
           odd_start_inbox _ [] _ E).
Defined.

(** A pipe that is not ready and a step message are passed over; the reply
    gives the shapes 2, 4 and 0. *)
Lemma env_shapes_reply_witness :
  Forall passed_over [None; Some (step_message 0 1 3 4)]
  /\ is_shapes_reply shapes_message = true
  /\ exists log',
       get_env_shapes two_workers
         ([None; Some (step_message 0 1 3 4)]
          ++ Some shapes_message :: [None]) []
       = Done (2, 4, 0, log', [None]).
Proof.
  assert (Hp : Forall passed_over [None; Some (step_message 0 1 3 4)]).
  { repeat constructor. }
  assert (Hr : is_shapes_reply shapes_message = true) by reflexivity.
  split; [exact Hp|]. split; [exact Hr|].
  exact (env_shapes_reply two_workers [None; Some (step_message 0 1 3 4)]
           [None] [] (Worker 0) shapes_message 2%Q 4%Q 0%Q 2 4 0
           eq_refl Hp Hr eq_refl eq_refl eq_refl eq_refl).
Defined.

(** No worker 0, a reply of two numbers, and no reply at all. *)
Lemma env_shapes_failures_witness :
  get_env_shapes fresh_manager ([None] ++ [Some shapes_message]) []
    = Raise KeyError
  /\ get_env_shapes two_workers
       ([None] ++ Some [1%Q; 2%Q; 3%Q; 2%Q; 4%Q] :: [Some shapes_message]) []
     = Raise ValueError
  /\ get_env_shapes two_workers [None] [] = Pending.
Proof.
  assert (Hp : Forall (passed_over (F := Q)) [None]) by (repeat constructor).
  split; [|split].
  - exact (proj1 (env_shapes_failures fresh_manager [None]
                    [Some shapes_message] []) eq_refl).
  - refine (proj1 (proj2 (env_shapes_failures two_workers [None]
                            [Some shapes_message] []))
              (Worker 0) [1%Q; 2%Q; 3%Q; 2%Q; 4%Q] eq_refl Hp eq_refl _).
    simpl. lia.
  - exact (proj2 (proj2 (env_shapes_failures two_workers [None] [] []))
             (Worker 0) eq_refl Hp).
Defined.

(** [init_processes(2)] on a fresh manager. *)
Lemma init_processes_prepares_collection_witness :
  exists st' log' inbox',
    init_processes 2 true fresh_manager setup_inbox []
      = Done (2, 4, 0, st', log', inbox')
    /\ inbox' = [None]
    /\ processes st' = [Worker 0; Worker 1]
    /\ (buffer_ptr st' < n_procs st')%nat
    /\ ep_rews st' = [[0%Q]; [0%Q]]
    /\ paired st'
    /\ NoDup (current_pids st').
Proof.
  pose proof init_outcome_eq as E. unfold init_outcome in E.
  destruct (init_processes_prepares_collection 2 true 8 _ setup_inbox _ [] _
              _ _ _ E)
    as (_ & Hprocs & _ & Hb & _ & Hep & _ & _ & _ & _ & Hp & Hnd & _).
  eexists _, _, _. split; [exact E|]. split; [reflexivity|].
  split; [exact Hprocs|]. split; [exact Hb|]. split; [exact Hep|].
  split; [exact Hp|exact Hnd].
Defined.

(** [init_processes(0)] on a fresh manager raises [KeyError]. *)
Lemma init_processes_needs_a_worker_witness :
  processes fresh_manager = []
  /\ init_processes 0 true fresh_manager setup_inbox [] = Raise KeyError.
Proof.
  split; [reflexivity|].
  exact (init_processes_needs_a_worker true fresh_manager setup_inbox []
           eq_refl).
Defined.

(** Of the two workers started with [render] set, worker 0 alone renders. *)
Lemma only_worker_zero_renders_witness :
  exists st' log' inbox',
    init_processes 2 true fresh_manager setup_inbox []
      = Done (2, 4, 0, st', log', inbox')
    /\ exists new, log' = [] ++ new /\ rendering new = [0%nat].
Proof.
  pose proof init_outcome_eq as E. unfold init_outcome in E.
  eexists _, _, _. split; [exact E|].
  exact (only_worker_zero_renders 2 true fresh_manager _ setup_inbox _ [] _
           _ _ _ E).
Defined.
